(** * scikits.timeseries extras: calendar bookkeeping for dated arrays

    A shallow embedding of [scikits/timeseries/extras.py] and the properties
    its specification states about it, followed by further properties of
    the code: the branches and the exceptions the specification does not
    speak of, how the functions compose, and the two computations the plot
    directive of the documentation does by itself.

    The module under study composes three collaborators whose code is not
    part of the sources: the table of frequency codes ([const.py], imported
    as [_c]), the date types ([tdates]) and the series container ([tseries],
    a subclass of numpy's masked array).  The frequency table is taken as a
    parameter ([const]); dates are records of the calendar fields the code
    reads; a series is a frequency code with dated rows of (value, mask bit)
    cells. *)

From Stdlib Require Import ZArith QArith Qround Qpower Lia Lqa Bool Ascii String.
From Stdlib Require Import Sorting.Permutation Sorting.Sorted.
From stdpp Require Import base numbers list option strings sorting gmap.
Import ListNotations.

Local Open Scope Z_scope.

(** ** Exceptions and results

    Every function of the module either returns or raises.  [result] is the
    error monad the embedding threads raised exceptions through. *)

Inductive exn : Type :=
| TypeError
| NotImplementedError
| UnboundLocalError
| ValueError
| IndexError
| KeyError.

Inductive result (A : Type) : Type :=
| Ok (a : A)
| Raise (e : exn).

Arguments Ok {A} a.
Arguments Raise {A} e.

#[global] Instance result_ret : MRet result := fun A a => Ok a.
#[global] Instance result_bind : MBind result :=
  fun A B f r => match r with Ok a => f a | Raise e => Raise e end.

#[global] Instance result_fmap : FMap result :=
  fun A B f r => match r with Ok a => Ok (f a) | Raise e => Raise e end.

#[global] Instance exn_eq_dec : EqDecision exn.
Proof. solve_decision. Defined.

(** ** The frequency table ([const.py])

    [extras.py] reads these names from [_c].  The table itself is not among
    the sources, so every definition below takes it as the parameter [c]. *)

Record const : Type := {
  FR_ANN : Z; FR_QTR : Z; FR_MTH : Z; FR_WK : Z;
  FR_DAY : Z; FR_HR : Z; FR_MIN : Z; FR_SEC : Z;
  FR_QTREJAN : Z; FR_QTREFEB : Z; FR_QTREMAR : Z; FR_QTREAPR : Z;
  FR_QTREMAY : Z; FR_QTREJUN : Z; FR_QTREJUL : Z; FR_QTREAUG : Z;
  FR_QTRESEP : Z; FR_QTREOCT : Z; FR_QTRENOV : Z; FR_QTREDEC : Z;
  FR_QTRSJAN : Z; FR_QTRSFEB : Z; FR_QTRSMAR : Z; FR_QTRSAPR : Z;
  FR_QTRSMAY : Z; FR_QTRSJUN : Z; FR_QTRSJUL : Z; FR_QTRSAUG : Z;
  FR_QTRSSEP : Z; FR_QTRSOCT : Z; FR_QTRSNOV : Z; FR_QTRSDEC : Z
}.

(** A concrete table: one thousand codes per category, which is what the
    tests [freq//_c.FR_ANN == 1] of [count_missing] presuppose; quarterly
    codes are numbered by the month that ends the fiscal year (December
    first), start-based variants twelve above the end-based ones.  It serves
    the examples; the general theorems hold for every table. *)
Definition table : const := {|
  FR_ANN := 1000; FR_QTR := 2000; FR_MTH := 3000; FR_WK := 4000;
  FR_DAY := 6000; FR_HR := 7000; FR_MIN := 8000; FR_SEC := 9000;
  FR_QTREDEC := 2000; FR_QTREJAN := 2001; FR_QTREFEB := 2002;
  FR_QTREMAR := 2003; FR_QTREAPR := 2004; FR_QTREMAY := 2005;
  FR_QTREJUN := 2006; FR_QTREJUL := 2007; FR_QTREAUG := 2008;
  FR_QTRESEP := 2009; FR_QTREOCT := 2010; FR_QTRENOV := 2011;
  FR_QTRSDEC := 2012; FR_QTRSJAN := 2013; FR_QTRSFEB := 2014;
  FR_QTRSMAR := 2015; FR_QTRSAPR := 2016; FR_QTRSMAY := 2017;
  FR_QTRSJUN := 2018; FR_QTRSJUL := 2019; FR_QTRSAUG := 2020;
  FR_QTRSSEP := 2021; FR_QTRSOCT := 2022; FR_QTRSNOV := 2023
|}.

(** ** [isleapyear]

    [year % 400 == 0 or (year % 4 == 0 and year % 100 > 0)].  Python's [%]
    with a positive modulus is [Z.modulo]. *)

Definition isleapyear (year : Z) : bool :=
  (year mod 400 =? 0) || ((year mod 4 =? 0) && (year mod 100 >? 0)).

(** [np.asarray] turns a sequence into an array and the operators work
    element by element. *)
Definition isleapyear_seq (years : list Z) : list bool :=
  map isleapyear years.

(** ** The data model

    A [Date] carries the calendar fields the code reads from the date
    metadata ([series.year], [series.months], [aseries.dates.years]) and its
    ordinal at its own frequency, which is what dates are compared by. *)

Record Date : Type := mkDate {
  year : Z;
  month : Z;
  value : Z
}.

(** One slot of a masked array: the stored value and its mask bit ([true]
    means missing). *)
Record cell (V : Type) : Type := mkCell {
  data : V;
  mask : bool
}.

Arguments mkCell {V} data mask.
Arguments data {V} c.
Arguments mask {V} c.

(** The payload of a series, by rank.  The series invariant
    [len(dates) == data.shape[0]] is structural: every entry along the
    leading axis carries its date.  [TS2 ncols rows] has shape
    [(len rows, ncols)]; ranks of three and more keep only their shape. *)
Inductive tsdata (V : Type) : Type :=
| TS0 (d : Date) (x : cell V)
| TS1 (xs : list (Date * cell V))
| TS2 (ncols : nat) (rows : list (Date * list (cell V)))
| TSN (extra_dims : nat) (last_dim : nat).

Arguments TS0 {V} d x.
Arguments TS1 {V} xs.
Arguments TS2 {V} ncols rows.
Arguments TSN {V} extra_dims last_dim.

Record TimeSeries (V : Type) : Type := mkTimeSeries {
  freq : Z;
  series : tsdata V
}.

Arguments mkTimeSeries {V} freq series.
Arguments freq {V} t.
Arguments series {V} t.

(** [series.ndim] *)
Definition ndim {V} (s : TimeSeries V) : nat :=
  match series s with
  | TS0 _ _ => 0
  | TS1 _ => 1
  | TS2 _ _ => 2
  | TSN extra _ => 3 + extra
  end%nat.

(** What a Python caller may pass where a series is expected. *)
Inductive pyobj (V : Type) : Type :=
| PyOther
| PySeries (s : TimeSeries V).

Arguments PyOther {V}.
Arguments PySeries {V} s.

(** All rows of a rank-2 series have the width its shape announces. *)
Definition well_shaped {V} (ncols : nat) (rows : list (Date * list (cell V))) : Prop :=
  Forall (fun r => length r.2 = ncols) rows.

(** ** Array helpers *)

(** [x in (a, b, ...)] on integers. *)
Definition py_in (x : Z) (xs : list Z) : bool :=
  existsb (Z.eqb x) xs.

(** [series.count(axis=-1)] for one row: the number of unmasked slots. *)
Definition count {V} (cells : list (cell V)) : Z :=
  Z.of_nat (length (filter (fun x => mask x = false) cells)).

(** [missing[cond] -= k] for a boolean array [cond] as long as [missing]. *)
Fixpoint sub_where (cond : list bool) (k : Z) (missing : list Z) : list Z :=
  match cond, missing with
  | b :: cond', x :: missing' =>
      (if b then x - k else x) :: sub_where cond' k missing'
  | _, _ => missing
  end.

(** [a & b] and [~a] on boolean arrays. *)
Fixpoint and_ (a b : list bool) : list bool :=
  match a, b with
  | x :: a', y :: b' => (x && y) :: and_ a' b'
  | _, _ => []
  end.

Definition not_ (a : list bool) : list bool := map negb a.

(** ** [count_missing] *)

Inductive missing_t : Type :=
| MScalar (n : Z)
| MArray (counts : list Z).

(** The quarterly arm of [count_missing].  The three tuples are the ones the
    code lists, in its order and with its repetitions; a frequency in none
    of them leaves [isfeb] unbound, and the statement after the chain raises
    when it reads it. *)
Definition count_missing_quarterly (c : const) (freq : Z)
    (months years : list Z) (missing : list Z) : result (list Z) :=
  '(missing, isfeb) ←
    (if py_in freq [FR_QTREJAN c; FR_QTRSJAN c; FR_QTREAPR c; FR_QTRSAPR c;
                    FR_QTREOCT c; FR_QTRSOCT c; FR_QTREOCT c; FR_QTRSOCT c]
     then
       let isfeb := map (fun m => m =? 4) months in
       Ok (sub_where isfeb 2 missing, isfeb)
     else if py_in freq [FR_QTREFEB c; FR_QTRSFEB c; FR_QTREMAY c; FR_QTRSMAY c;
                         FR_QTREAUG c; FR_QTRSAUG c; FR_QTRENOV c; FR_QTRSNOV c]
     then
       let missing := sub_where (map (fun m => py_in m [2; 11]) months) 1 missing in
       Ok (missing, map (fun m => m =? 2) months)
     else if py_in freq [FR_QTREMAR c; FR_QTRSMAR c; FR_QTREJUN c; FR_QTRSJUN c;
                         FR_QTRESEP c; FR_QTRSSEP c; FR_QTREDEC c; FR_QTRSDEC c]
     then
       let missing := sub_where (map (fun m => py_in m [3; 6]) months) 1 missing in
       Ok (missing, map (fun m => m =? 3) months)
     else Raise UnboundLocalError);
  Ok (sub_where (and_ isfeb (not_ (isleapyear_seq years))) 1 missing).

Definition count_missing {V} (c : const) (x : pyobj V) : result missing_t :=
  match x with
  | PyOther => Raise TypeError
  | PySeries s =>
      match series s with
      | TS1 xs =>
          Ok (MScalar (Z.of_nat (length xs) - count (map snd xs)))
      | TS2 ncols rows =>
          let missing := map (fun r => Z.of_nat ncols - count r.2) rows in
          let period := Z.of_nat ncols in
          let freq := freq s in
          let months := map (fun r => month r.1) rows in
          let years := map (fun r => year r.1) rows in
          if (period =? 366) && (freq / FR_ANN c =? 1) then
            Ok (MArray (sub_where (not_ (isleapyear_seq years)) 1 missing))
          else if (period =? 31) && (freq / FR_MTH c =? 1) then
            let missing :=
              sub_where (map (fun m => py_in m [4; 6; 9; 11]) months) 1 missing in
            let isfeb := map (fun m => m =? 2) months in
            let missing := sub_where isfeb 2 missing in
            let missing :=
              sub_where (and_ isfeb (not_ (isleapyear_seq years))) 1 missing in
            Ok (MArray missing)
          else if (period =? 92) && (freq / FR_QTR c =? 1) then
            MArray <$> count_missing_quarterly c freq months years missing
          else if negb (py_in period [12; 7]) then
            Raise NotImplementedError
          else Ok (MArray missing)
      | _ => Raise NotImplementedError
      end
  end.

(** ** [convert_to_annual] *)

(** Python's normalisation of a slice bound on a sequence of length [n]. *)
Definition py_index (n i : Z) : Z :=
  if i <? 0 then Z.max (i + n) 0 else Z.min i n.

(** [l[start:stop]]; [stop = None] is the open slice [l[start:]]. *)
Definition py_slice {A} (l : list A) (start : Z) (stop : option Z) : list A :=
  let n := Z.of_nat (length l) in
  let a := py_index n start in
  let b := py_index n (default n stop) in
  take (Z.to_nat (b - a)) (drop (Z.to_nat a) l).

(** [l[start:] = src] on a row of an array: the row keeps its length, so
    the shapes must agree. *)
Definition set_slice_from {A} (l : list A) (start : Z) (src : list A) : result (list A) :=
  let a := Z.to_nat (py_index (Z.of_nat (length l)) start) in
  if decide (length src = length l - a)%nat
  then Ok (take a l ++ src)
  else Raise ValueError.

(** [x = ma.masked] on one slot: the mask bit is set and the stored value
    stays. *)
Definition masked {V} (x : cell V) : cell V := mkCell (data x) true.

(** [l[start:stop] = ma.masked] *)
Definition mask_slice {V} (l : list (cell V)) (start stop : Z) : list (cell V) :=
  let n := Z.of_nat (length l) in
  let a := Z.to_nat (py_index n start) in
  let k := Z.to_nat (py_index n stop - py_index n start) in
  take a l ++ map masked (take k (drop a l)) ++ drop (a + k) l.

(** The pair [(idx0228, idx0301)] the chain of tests on the frequency binds;
    [None] when no test matches and the names stay unbound. *)
Definition feb_indices (c : const) (freq : Z) : option (Z * Z) :=
  let baseidx := (59, 60) in
  if freq =? FR_DAY c then Some baseidx
  else if freq =? FR_HR c then Some (baseidx.1 * 24, baseidx.2 * 24)
  else if freq =? FR_MIN c then Some (baseidx.1 * 24 * 60, baseidx.2 * 24 * 60)
  else if freq =? FR_SEC c then Some (baseidx.1 * 24 * 3600, baseidx.2 * 24 * 3600)
  else None.

(** The two assignments of [convert_to_annual] on one row of a year that is
    not a leap year.  The right-hand side is read (a copy, the index being
    an array of row numbers) before the row is written. *)
Definition shift_row {V} (idx0228 idx0301 : Z) (cells : list (cell V))
    : result (list (cell V)) :=
  let src := py_slice cells idx0228 (Some (idx0228 - idx0301)) in
  cells ← set_slice_from cells idx0301 src;
  Ok (mask_slice cells idx0228 idx0301).

(** [convert] stands for [series.convert('A')], a method of the series
    container.  For a result that is not of rank 2 the indexing by
    [(rows, columns)] has nothing to address; the embedding reports
    [IndexError] there. *)
Definition convert_to_annual {V} (c : const)
    (convert : TimeSeries V → result (TimeSeries V))
    (s : TimeSeries V) : result (TimeSeries V) :=
  if freq s <? FR_DAY c then convert s
  else
    aseries ← convert s;
    match feb_indices c (freq s) with
    | None => Raise UnboundLocalError
    | Some (idx0228, idx0301) =>
        match series aseries with
        | TS2 ncols rows =>
            rows ← mapM (fun r =>
                           if isleapyear (year r.1) then Ok r
                           else cells ← shift_row idx0228 idx0301 r.2;
                                Ok (r.1, cells)) rows;
            Ok (mkTimeSeries (freq aseries) (TS2 ncols rows))
        | _ => Raise IndexError
        end
    end.

(** ** [accept_atmost_missing] *)

(** [np.round(x, 0)]: to the nearest integer, halves to the even one.  A
    double is given by its exact value, a rational. *)
Definition np_round (x : Q) : Z :=
  let f := Qfloor x in
  let r := (x - inject_Z f)%Q in
  match (r ?= 1 # 2)%Q with
  | Lt => f
  | Gt => f + 1
  | Eq => if Z.even f then f else f + 1
  end.

(** [series.shape[-1]] for the ranks [count_missing] accepts. *)
Definition last_dim {V} (s : TimeSeries V) : Z :=
  match series s with
  | TS0 _ _ => 0
  | TS1 xs => Z.of_nat (length xs)
  | TS2 ncols _ => Z.of_nat ncols
  | TSN _ n => Z.of_nat n
  end.

(** The double nearest to [x], halves to the even mantissa: 53 bits of
    mantissa, and no exponent of the last bit below -1074.  Beyond the
    largest double the code has an infinity; the embedding keeps the
    rounded number, which compares with every count as the infinity
    does. *)
Definition fl (x : Q) : Q :=
  let n := Z.abs (Qnum x) in
  let d := Qden x in
  if n =? 0 then 0%Q
  else
    let e0 := Z.log2 n - Z.log2 (Z.pos d) in
    (* the exponent of the first bit of [n / d] is [e0] or [e0 - 1] *)
    let e1 := if Qle_bool (2 ^ e0) (n # d) then e0 else e0 - 1 in
    let e := Z.max (e1 - 52) (-1074) in
    let m := np_round ((n # d) / 2 ^ e) in
    (inject_Z (Z.sgn (Qnum x) * m) * 2 ^ e)%Q.

(** The absolute threshold: a [max_missing] below one is a share of the
    trailing axis.  [max_missing] is a float, given by its exact value; the
    width is converted to a float and the product is the product of
    doubles, the exact product rounded to the nearest double. *)
Definition threshold (max_missing : Q) (width : Z) : Q :=
  if Qlt_le_dec max_missing 1
  then inject_Z (np_round (fl (max_missing * fl (inject_Z width))))
  else max_missing.

(** [missing > max_missing] when [strict], [missing >= max_missing]
    otherwise. *)
Definition exceeds (strict : bool) (max_missing : Q) (missing : Z) : bool :=
  if strict then negb (Qle_bool (inject_Z missing) max_missing)
  else Qle_bool max_missing (inject_Z missing).

Arguments exceeds : simpl never.
Arguments threshold : simpl never.

(** [row[...] = masked] on a whole row. *)
Definition mask_row {V} (cells : list (cell V)) : list (cell V) :=
  map masked cells.

(** [series[cond] = masked] for a boolean array [cond] over the rows. *)
Fixpoint mask_rows {V} (cond : list bool) (rows : list (Date * list (cell V)))
    : list (Date * list (cell V)) :=
  match cond, rows with
  | b :: cond', r :: rows' =>
      (if b then (r.1, mask_row r.2) else r) :: mask_rows cond' rows'
  | _, _ => rows
  end.

(** The copy made on entry and the unsharing of its mask give the result
    storage of its own; here the series is a value and the copy is silent.
    For a rank-1 series [missing] is one number and the index one boolean,
    which selects the whole array or nothing. *)
Definition accept_atmost_missing {V} (c : const) (x : pyobj V)
    (max_missing : Q) (strict : bool) : result (TimeSeries V) :=
  match x with
  | PyOther => Raise TypeError
  | PySeries s =>
      missing ← count_missing c (PySeries s);
      let max_missing := threshold max_missing (last_dim s) in
      match series s, missing with
      | TS1 xs, MScalar m =>
          Ok (if exceeds strict max_missing m
              then mkTimeSeries (freq s) (TS1 (map (fun x => (x.1, masked x.2)) xs))
              else s)
      | TS2 ncols rows, MArray ms =>
          Ok (mkTimeSeries (freq s)
                (TS2 ncols (mask_rows (map (exceeds strict max_missing) ms) rows)))
      | _, _ => Raise IndexError
      end
  end.

(** ** [guess_freq]

    The dates are turned into second-resolution timestamps first; the
    embedding starts from those, as integers counting seconds.  The
    difference of two timestamps is a [timedelta], whose [days] and
    [seconds] fields are the quotient and the remainder by 86400. *)

Fixpoint insert_sorted (x : Z) (l : list Z) : list Z :=
  match l with
  | [] => [x]
  | y :: l' => if x <=? y then x :: l else y :: insert_sorted x l'
  end.

(** [np.sort] *)
Definition np_sort (l : list Z) : list Z := foldr insert_sorted [] l.

(** [np.diff] *)
Fixpoint np_diff (l : list Z) : list Z :=
  match l with
  | x :: (y :: _) as l' => (y - x) :: np_diff l'
  | _ => []
  end.

(** [min] and [max] of a sequence raise on an empty one. *)
Definition py_min (l : list Z) : result Z :=
  match l with
  | [] => Raise ValueError
  | x :: l' => Ok (foldl Z.min x l')
  end.

Definition py_max (l : list Z) : result Z :=
  match l with
  | [] => Raise ValueError
  | x :: l' => Ok (foldl Z.max x l')
  end.

Definition seconds (d : Z) : Z := d mod 86400.
Definition days (d : Z) : Z := d / 86400.

Definition guess_freq (c : const) (dates : list Z) : result Z :=
  let ddif := np_diff (np_sort dates) in
  let incs := map seconds ddif in
  if existsb (fun i => negb (i =? 0)) incs then
    minincs ← py_min incs;
    Ok (if (minincs >? 3599) && negb (forallb (fun i => i mod 3600 >? 0) incs)
        then FR_HR c
        else if minincs <? 59 then FR_SEC c
        else FR_MIN c)
  else
    let incs := map (fun d => days d mod 365) ddif in
    mindays ← py_min incs;
    maxdays ← py_max incs;
    Ok (if mindays >? 360 then FR_ANN c
        else if mindays >? 88 then
          let qincs := [89; 90; 91; 92; 273; 274; 275; 276; 277] in
          if forallb (fun i => py_in (i mod 365) qincs) incs
          then FR_QTR c
          else FR_MTH c
        else if mindays >? 27 then FR_MTH c
        else if (mindays mod 7 =? 0) && forallb (fun i => i mod 7 =? 0) incs
        then FR_WK c
        else FR_DAY c).

(** ** [tsfromtxt] *)

(** The regular expression ['?_?dates?'?]: a sequence of characters, some
    of them optional, compared without regard to case. *)
Definition lower (a : ascii) : ascii :=
  let n := Ascii.nat_of_ascii a in
  if ((65 <=? n) && (n <=? 90))%nat then Ascii.ascii_of_nat (n + 32) else a.

Definition datespattern : list (ascii * bool) :=
  [("'"%char, true); ("_"%char, true); ("d"%char, false); ("a"%char, false);
   ("t"%char, false); ("e"%char, false); ("s"%char, true); ("'"%char, true)].

(** A match of the pattern starting at the head of [s]. *)
Fixpoint match_here (pat : list (ascii * bool)) (s : list ascii) : bool :=
  match pat with
  | [] => true
  | (ch, optional) :: pat' =>
      match s with
      | x :: s' => Ascii.eqb (lower x) (lower ch) && match_here pat' s'
      | [] => false
      end
      || (optional && match_here pat' s)
  end.

(** [pattern.search(name)]: a match starting anywhere. *)
Fixpoint search (pat : list (ascii * bool)) (s : list ascii) : bool :=
  match_here pat s
  || match s with
     | [] => false
     | _ :: s' => search pat s'
     end.

Definition datespattern_search (name : string) : bool :=
  search datespattern (list_ascii_of_string name).

(** What the loader reads of [dtype]: for a structured one, the names of
    its fields and the type character of each ([dtype[name].char]). *)
Record dtype_t : Type := mkDtype {
  dt_fields : option (list (string * ascii))
}.

(** [dtype.names] *)
Definition dt_names (dt : dtype_t) : option (list string) :=
  map fst <$> dt_fields dt.

(** A converter: one of the types of [convdict], or a function of the
    caller. *)
Inductive conv_t : Type :=
| CBool | CInt | CFloat | CComplex | CStr
| CUser (id : nat).

(** [convdict[char]] *)
Definition convdict (ch : ascii) : result conv_t :=
  if decide (ch = "b"%char) then Ok CBool
  else if decide (ch ∈ ["i"; "l"; "u"]%char) then Ok CInt
  else if decide (ch ∈ ["f"; "d"; "g"]%char) then Ok CFloat
  else if decide (ch ∈ ["c"; "D"]%char) then Ok CComplex
  else if decide (ch ∈ ["S"; "U"; "a"]%char) then Ok CStr
  else Raise KeyError.

(** A loop that threads a value through a list and stops at the first
    exception. *)
Fixpoint foldlM {A B} (f : A → B → result A) (a : A) (l : list B) : result A :=
  match l with
  | [] => Ok a
  | b :: l' => a' ← f a b; foldlM f a' l'
  end.

(** [del idx[idx.index(i)]] *)
Fixpoint py_del_index (idx : list nat) (i : nat) : result (list nat) :=
  match idx with
  | [] => Raise ValueError
  | j :: idx' => if decide (i = j) then Ok idx'
                 else (fun l => j :: l) <$> py_del_index idx' i
  end.

(** [converters.update(update)] for a list of pairs. *)
Definition dict_update {A} (d : gmap nat A) (update : list (nat * A)) : gmap nat A :=
  foldl (fun d kv => <[kv.1 := kv.2]> d) d update.

(** The keywords the loader computes for the parser; the others are
    forwarded as they came. *)
Record kwargs : Type := mkKwargs {
  kw_dtype : option dtype_t;
  kw_converters : gmap nat conv_t
}.

(** The masked records [genfromtxt] returns: field names, if any, and one
    list of fields per line of text. *)
Record mrec_t (F : Type) : Type := mkMrec {
  mr_names : option (list string);
  mr_rows : list (list F)
}.

Arguments mkMrec {F} mr_names mr_rows.
Arguments mr_names {F} m.
Arguments mr_rows {F} m.

(** The loaded series: its dates and, per date, the fields that are not
    date columns. *)
Record loaded (F : Type) : Type := mkLoaded {
  out_dates : list Z;
  out_names : option (list string);
  out_rows : list (list F)
}.

Arguments mkLoaded {F} out_dates out_names out_rows.
Arguments out_dates {F} l.
Arguments out_names {F} l.
Arguments out_rows {F} l.

(** [list(xs).index(x)] *)
Fixpoint py_list_index (xs : list nat) (x : nat) : result nat :=
  match xs with
  | [] => Raise ValueError
  | y :: xs' => if decide (x = y) then Ok 0%nat
                else S <$> py_list_index xs' x
  end.

(** [l[i]] *)
Definition getitem {A} (l : list A) (i : nat) : result A :=
  match l !! i with
  | Some x => Ok x
  | None => Raise IndexError
  end.

(** [mrec[names[i]]], or [mrec[:, i]] for records without names. *)
Definition column {F} (mrec : mrec_t F) (i : nat) : result (list F) :=
  _ ← match mr_names mrec with
      | Some ((_ :: _) as names) => getitem names i
      | _ => Ok ""%string
      end;
  mapM (fun row => getitem row i) (mr_rows mrec).

(** [zip] applied to the unpacked list of columns: the rows of date fields. *)
Definition py_zip_star {F} (columns : list (list F)) : list (list F) :=
  match columns with
  | [] => []
  | col :: _ =>
      omap (fun k => mapM (fun col => col !! k) columns) (seq 0 (length col))
  end.

(** [dates.argsort()]: the indices that sort the dates.  numpy leaves the
    order of the indices of equal dates open, and so does the embedding:
    nothing below depends on it. *)
Definition date_le (a b : Z * nat) : Prop := a.1 ≤ b.1.

#[global] Instance date_le_dec : RelDecision date_le.
Proof. intros a b. unfold date_le. apply _. Defined.

#[global] Instance date_le_total : Total date_le.
Proof. intros a b. unfold date_le. lia. Qed.

#[global] Instance date_le_trans : Transitive date_le.
Proof. intros a b d. unfold date_le. lia. Qed.

Definition argsort (dates : list Z) : list nat :=
  map snd (merge_sort date_le (zip dates (seq 0 (length dates)))).

(** [a[sortidx]] for an array of indices. *)
Definition take_idx {A} (l : list A) (idx : list nat) : result (list A) :=
  mapM (getitem l) idx.

(** The fields of a row whose position is not a date column. *)
Definition data_fields {F} (datecols : list nat) (row : list F) : list F :=
  map snd (filter (fun ix => ix.1 ∉ datecols) (zip (seq 0 (length row)) row)).

(** The argument of the final [output.view(dtype)]: the dtype given, by
    itself when it is structured, with the number of fields of the output
    when it is not. *)
Inductive view_arg : Type :=
| ViewDtype (idtype : dtype_t)
| ViewPair (idtype : dtype_t) (n : nat).

(** The first part of [tsfromtxt], up to the call of the parser: the
    keywords it computes from [dtype], [converters] and [datecols]. *)
Definition tsfromtxt_kwargs (dtype : option dtype_t) (converters : gmap nat conv_t)
    (datecols : option (list nat)) : result kwargs :=
  (* Update the dtype (if needed) *)
  match dtype with
  | None => Ok (mkKwargs None converters)
  | Some dt =>
      (* Crash if we can't find the datecols *)
      match datecols with
      | None => Raise TypeError
      | Some datecols =>
          (* Update the converter *)
          let update := map (fun c => (c, CStr)) datecols in
          match dt_fields dt with
          | Some ((_ :: _) as fields) =>
              idx ← foldlM py_del_index
                    (seq 0 (length datecols + length fields)) datecols;
              more ← mapM (fun ix => conv ← convdict ix.2.2; Ok (ix.1, conv))
                       (zip idx fields);
              Ok (mkKwargs None (dict_update converters (update ++ more)))
          | _ => Ok (mkKwargs (Some dt) (dict_update converters update))
          end
      end
  end.

(** [genfromtxt] is the tabular parser, called with the keywords the loader
    computes; the other keywords are forwarded and only the parser reads
    them.  [view] is the method of the series container that re-types a
    series, called last when a dtype was given and the records have names.
    [converters] is the table of converters by column number, and
    [dateconv] the date converter in force (the [dateconverter] argument,
    the converter of the key ['dates'], or the default one), applied to
    the date fields of a line; dates are represented by their ordinal.
    [asrecarray] is left at its default. *)
Definition tsfromtxt {F} (genfromtxt : kwargs → result (mrec_t F))
    (view : view_arg → loaded F → result (loaded F))
    (dtype : option dtype_t) (converters : gmap nat conv_t)
    (datecols usecols : option (list nat))
    (dateconv : list F → result Z) : result (loaded F) :=
  let idtype := dtype in
  kw ← tsfromtxt_kwargs dtype converters datecols;
  (* Get the raw data *)
  mrec ← genfromtxt kw;
  let names := mr_names mrec in
  (* Get the date columns *)
  datecols ← match datecols with
             | None =>
                 let found :=
                   map fst (filter (fun ix => datespattern_search ix.2 = true)
                              (zip (seq 0 (length (default [] names)))
                                   (default [] names))) in
                 match found with
                 | [] => Raise TypeError
                 | _ => Ok found
                 end
             | Some datecols => Ok datecols
             end;
  (* Fix the date columns if usecols was given *)
  datecols ← match usecols with
             | None => Ok datecols
             | Some usecols => mapM (py_list_index usecols) datecols
             end;
  (* Get the date info *)
  dateinfo ← mapM (column mrec) datecols;
  dates ← match dateinfo with
          | [col] => mapM (fun x => dateconv [x]) col
          | _ => mapM dateconv (py_zip_star dateinfo)
          end;
  (* Resort the array according to the dates *)
  let sortidx := argsort dates in
  dates ← take_idx dates sortidx;
  rows ← take_idx (mr_rows mrec) sortidx;
  let output := {| out_dates := dates;
                   out_names := (fun ns => data_fields datecols ns) <$> names;
                   out_rows := map (data_fields datecols) rows |} in
  (* Get the dtype from the named columns (if any) *)
  match names, idtype with
  | Some (_ :: _), Some idtype =>
      view (match dt_fields idtype with
            | None => ViewPair idtype (length (default [] (out_names output)))
            | Some _ => ViewDtype idtype
            end) output
  | _, _ => Ok output
  end.

(** ** Storage: who owns a mask

    For the ownership of masks the series must be an object with storage.
    An array owns a flat buffer; a series object refers to the buffer of its
    values and, unless it has no mask at all, to the buffer of its mask.
    Several objects may refer to one mask buffer. *)

Inductive buffer (V : Type) : Type :=
| DataBuf (values : list V)
| MaskBuf (bits : list bool).

Arguments DataBuf {V} values.
Arguments MaskBuf {V} bits.

Inductive shape_t : Type :=
| Sh0
| Sh1 (n : nat)
| Sh2 (nrows ncols : nat)
| ShN (extra_dims last_dim : nat).

Record tsobj : Type := mkObj {
  o_freq : Z;
  o_dates : list Date;
  o_shape : shape_t;
  o_data : positive;
  o_mask : option positive;
  o_sharedmask : bool
}.

Inductive pyval : Type :=
| VOther
| VSeries (t : tsobj).

Record store (V : Type) : Type := mkStore {
  objs : gmap positive pyval;
  bufs : gmap positive (buffer V)
}.

Arguments mkStore {V} objs bufs.
Arguments objs {V} s.
Arguments bufs {V} s.

(** [l] cut into [k] rows of [n] slots. *)
Fixpoint chunks {A} (n k : nat) (l : list A) : list (list A) :=
  match k with
  | O => []
  | S k' => take n l :: chunks n k' (drop n l)
  end.

Definition cells_of {V} (values : list V) (bits : option (list bool)) : list (cell V) :=
  match bits with
  | Some bits => zip_with mkCell values bits
  | None => map (fun v => mkCell v false) values
  end.

(** The series an object denotes in a store. *)
Definition view {V} (σ : store V) (t : tsobj) : option (TimeSeries V) :=
  values ← match bufs σ !! o_data t with
           | Some (DataBuf values) => Some values
           | _ => None
           end;
  bits ← match o_mask t with
         | None => Some None
         | Some lm => match bufs σ !! lm with
                      | Some (MaskBuf bits) => Some (Some bits)
                      | _ => None
                      end
         end;
  let cells := cells_of values bits in
  payload ← match o_shape t with
            | Sh0 => match o_dates t, cells with
                     | [d], [x] => Some (TS0 d x)
                     | _, _ => None
                     end
            | Sh1 n => Some (TS1 (zip (o_dates t) cells))
            | Sh2 nrows ncols =>
                Some (TS2 ncols (zip (o_dates t) (chunks ncols nrows cells)))
            | ShN extra n => Some (TSN extra n)
            end;
  Some (mkTimeSeries (o_freq t) payload).

(** The mask bits of a series, in storage order. *)
Definition flat_mask {V} (s : TimeSeries V) : list bool :=
  match series s with
  | TS0 _ x => [mask x]
  | TS1 xs => map (fun x => mask x.2) xs
  | TS2 _ rows => concat (map (fun r => map mask r.2) rows)
  | TSN _ _ => []
  end.

(** Code that reads and writes storage: a state and error monad. *)
Definition M (V A : Type) : Type := store V → result (A * store V).

#[global] Instance M_ret {V} : MRet (M V) := fun A a σ => Ok (a, σ).
#[global] Instance M_bind {V} : MBind (M V) :=
  fun A B f m σ => match m σ with
                   | Ok (a, σ') => f a σ'
                   | Raise e => Raise e
                   end.

Definition raise {V A} (e : exn) : M V A := fun _ => Raise e.
Definition lift {V A} (r : result A) : M V A :=
  fun σ => match r with Ok a => Ok (a, σ) | Raise e => Raise e end.

Definition get_obj {V} (o : positive) : M V pyval :=
  fun σ => match objs σ !! o with
           | Some v => Ok (v, σ)
           | None => Raise ValueError
           end.

Definition get_buf {V} (l : positive) : M V (buffer V) :=
  fun σ => match bufs σ !! l with
           | Some b => Ok (b, σ)
           | None => Raise ValueError
           end.

Definition new_obj {V} (v : pyval) : M V positive :=
  fun σ => let o := fresh (dom (objs σ)) in
           Ok (o, mkStore (<[o := v]> (objs σ)) (bufs σ)).

Definition new_buf {V} (b : buffer V) : M V positive :=
  fun σ => let l := fresh (dom (bufs σ)) in
           Ok (l, mkStore (objs σ) (<[l := b]> (bufs σ))).

Definition set_obj {V} (o : positive) (v : pyval) : M V unit :=
  fun σ => Ok ((), mkStore (<[o := v]> (objs σ)) (bufs σ)).

Definition set_buf {V} (l : positive) (b : buffer V) : M V unit :=
  fun σ => Ok ((), mkStore (objs σ) (<[l := b]> (bufs σ))).

(** Modelled from the spec: [np.array(series, copy=True, subok=True)] on
    the series container, which is not among the sources.  The result is a
    new object of the same class with a buffer of its own for the values;
    it still refers to the mask of its argument, and records that the mask
    is shared.  An argument that is no series gives a plain array. *)
Definition np_array_copy {V} (o : positive) : M V positive :=
  v ← get_obj o;
  match v with
  | VOther => new_obj VOther
  | VSeries t =>
      b ← get_buf (o_data t);
      l ← new_buf b;
      new_obj (VSeries (mkObj (o_freq t) (o_dates t) (o_shape t) l
                          (o_mask t) true))
  end.

(** Modelled from the spec: [series.unshare_mask()] of the masked-array
    machinery, which is not among the sources.  A mask recorded as shared
    is replaced by a copy that the object alone refers to. *)
Definition unshare_mask {V} (o : positive) (t : tsobj) : M V tsobj :=
  if o_sharedmask t then
    match o_mask t with
    | Some lm =>
        b ← get_buf lm;
        l ← new_buf b;
        let t' := mkObj (o_freq t) (o_dates t) (o_shape t) (o_data t)
                    (Some l) false in
        _ ← set_obj o (VSeries t');
        mret t'
    | None =>
        let t' := mkObj (o_freq t) (o_dates t) (o_shape t) (o_data t)
                    None false in
        _ ← set_obj o (VSeries t');
        mret t'
    end
  else mret t.

(** Modelled from the spec: [series[cond] = masked] of the masked-array
    machinery, which is not among the sources.  The assignment writes the
    mask the object refers to, in place; an object without a mask gets a
    new one first.  [bits] are the mask bits after the assignment. *)
Definition setitem_masked {V} (o : positive) (t : tsobj) (bits : list bool)
    : M V unit :=
  match o_mask t with
  | Some lm => set_buf lm (MaskBuf bits)
  | None =>
      l ← new_buf (MaskBuf bits);
      set_obj o (VSeries (mkObj (o_freq t) (o_dates t) (o_shape t) (o_data t)
                            (Some l) false))
  end.

(** [accept_atmost_missing] on storage.  The steps are those of the source;
    what each row becomes is computed as in [accept_atmost_missing]. *)
Definition accept_atmost_missing_st {V} (c : const) (o : positive)
    (max_missing : Q) (strict : bool) : M V positive :=
  o' ← np_array_copy o;
  v ← get_obj o';
  match v with
  | VOther => raise TypeError
  | VSeries t =>
      σ ← (fun σ => Ok (σ, σ));
      match view σ t with
      | None => raise ValueError
      | Some s =>
          s' ← lift (accept_atmost_missing c (PySeries s) max_missing strict);
          t ← unshare_mask o' t;
          _ ← setitem_masked o' t (flat_mask s');
          mret o'
      end
  end.

(** ** The plot directive ([doc/sphinxext_ts/tsplot_directive.py])

    Of the directive, the text [makefig] writes to the script it runs and
    the directory [run] changes to are computed by the module itself; the
    rest is calls of docutils and matplotlib. *)

Definition newline : ascii := "010"%char.

(** [s.split('\n')] *)
Fixpoint py_split (s : string) : list string :=
  match s with
  | EmptyString => [EmptyString]
  | String ch s' =>
      if Ascii.eqb ch newline then EmptyString :: py_split s'
      else match py_split s' with
           | line :: lines => String ch line :: lines
           | [] => [String ch EmptyString]
           end
  end.

(** ['\n'.join(lines)] *)
Fixpoint py_join (lines : list string) : string :=
  match lines with
  | [] => EmptyString
  | [line] => line
  | line :: lines' => (line ++ String newline (py_join lines'))%string
  end.

(** What [makefig] writes to [run_script]: the lines of [orig_script] other
    than [plt.show()]. *)
Definition run_script (orig_script : string) : string :=
  py_join (filter (fun x => x ≠ "plt.show()"%string) (py_split orig_script)).

(** The working directory is given by the names of the directories from
    the root down; [os.getcwd().split(os.path.sep)] starts with the empty
    name before the first separator. *)
Definition path_parts (cwd : list string) : list string :=
  match cwd with
  | [] => [EmptyString; EmptyString]
  | _ => EmptyString :: cwd
  end.

(** [xs.index(x)] on names. *)
Fixpoint py_name_index (xs : list string) (x : string) : result nat :=
  match xs with
  | [] => Raise ValueError
  | y :: xs' => if decide (x = y) then Ok 0%nat
                else S <$> py_name_index xs' x
  end.

(** [os.chdir('..')]: the root is its own parent. *)
Definition chdir_up (cwd : list string) : list string := removelast cwd.

(** The first statements of [run] that touch the working directory: the
    directory it is in when the figure is built. *)
Definition run_chdir (cwd : list string) : result (list string) :=
  let path_parts := path_parts cwd in
  doc_idx ← py_name_index path_parts "doc"%string;
  Ok (Nat.iter (length path_parts - 1 - doc_idx) chdir_up cwd).

(** ** The calendar, and what the statements below are phrased with *)

(** Days of a month of the Gregorian calendar. *)
Definition days_in_month (y m : Z) : Z :=
  if py_in m [4; 6; 9; 11] then 30
  else if m =? 2 then (if isleapyear y then 29 else 28)
  else 31.

(** One when the year of the date is not a leap year. *)
Definition nonleap (d : Date) : Z :=
  if isleapyear (year d) then 0 else 1.

(** What [count_missing] subtracts from the raw count of a month row. *)
Definition monthly_correction (d : Date) : Z :=
  (if py_in (month d) [4; 6; 9; 11] then 1 else 0)
  + (if month d =? 2 then 2 + nonleap d else 0).

(** The three tuples of quarterly codes in [count_missing], by the month
    that leads each. *)
Inductive qclass : Type := QJAN | QFEB | QMAR.

Definition qtr_class (c : const) (freq : Z) : option qclass :=
  if py_in freq [FR_QTREJAN c; FR_QTRSJAN c; FR_QTREAPR c; FR_QTRSAPR c;
                 FR_QTREOCT c; FR_QTRSOCT c; FR_QTREOCT c; FR_QTRSOCT c]
  then Some QJAN
  else if py_in freq [FR_QTREFEB c; FR_QTRSFEB c; FR_QTREMAY c; FR_QTRSMAY c;
                      FR_QTREAUG c; FR_QTRSAUG c; FR_QTRENOV c; FR_QTRSNOV c]
  then Some QFEB
  else if py_in freq [FR_QTREMAR c; FR_QTRSMAR c; FR_QTREJUN c; FR_QTRSJUN c;
                      FR_QTRESEP c; FR_QTRSSEP c; FR_QTREDEC c; FR_QTRSDEC c]
  then Some QMAR
  else None.

(** What [count_missing] subtracts from the raw count of a quarter row. *)
Definition quarterly_correction (cls : qclass) (d : Date) : Z :=
  match cls with
  | QJAN => if month d =? 4 then 2 + nonleap d else 0
  | QFEB => (if py_in (month d) [2; 11] then 1 else 0)
            + (if month d =? 2 then nonleap d else 0)
  | QMAR => (if py_in (month d) [3; 6] then 1 else 0)
            + (if month d =? 3 then nonleap d else 0)
  end.

(** The calendar correction of a rank-2 series, by trailing width and
    frequency, or the exception the combination raises. *)
Definition correction (c : const) (freq period : Z) : result (Date → Z) :=
  if (period =? 366) && (freq / FR_ANN c =? 1) then Ok nonleap
  else if (period =? 31) && (freq / FR_MTH c =? 1) then Ok monthly_correction
  else if (period =? 92) && (freq / FR_QTR c =? 1) then
    match qtr_class c freq with
    | Some cls => Ok (quarterly_correction cls)
    | None => Raise UnboundLocalError
    end
  else if negb (py_in period [12; 7]) then Raise NotImplementedError
  else Ok (fun _ => 0).

(** The raw count of a row: slots that are masked. *)
Definition raw_missing {V} (ncols : nat) (r : Date * list (cell V)) : Z :=
  Z.of_nat ncols - count r.2.

(** The last month of each quarter of a class, and the length in days of
    the quarter that ends with month [m] of year [y]. *)
Definition quarter_ends (cls : qclass) : list Z :=
  match cls with
  | QJAN => [1; 4; 7; 10]
  | QFEB => [2; 5; 8; 11]
  | QMAR => [3; 6; 9; 12]
  end.

Definition quarter_length (y m : Z) : Z :=
  days_in_month y ((m - 3) mod 12 + 1)
  + days_in_month y ((m - 2) mod 12 + 1)
  + days_in_month y m.

(** A month row that holds all its data: the slots of the days the month
    has are unmasked, the slots past its end are masked. *)
Definition full_month {V} (r : Date * list (cell V)) : Prop :=
  1 ≤ month r.1 ≤ 12
  ∧ map mask r.2 =
      repeat false (Z.to_nat (days_in_month (year r.1) (month r.1)))
      ++ repeat true (Z.to_nat (31 - days_in_month (year r.1) (month r.1))).

(** The specification's reading of the monthly case: the count it says
    [count_missing] returns for a month row that holds all its data. *)
Definition claimed_monthly_count (d : Date) : Z :=
  if py_in (month d) [4; 6; 9; 11] then 1
  else if month d =? 2 then (if isleapyear (year d) then 2 else 3)
  else 0.

(** The specification's reading of the quarterly case: one formula for
    every class, from the slot [feb] of the variable-length month and the
    slot [thirty] of the 30-day month. *)
Definition claimed_quarterly_correction (feb thirty : Z) (d : Date) : Z :=
  (if month d =? thirty then 1 else 0)
  + (if month d =? feb then 2 + nonleap d else 0).

(** A width and a frequency for which [count_missing] has a branch: years
    of 366 days, months of 31, quarters of 92, and the widths 12 and 7 that
    need no correction.  The category of a frequency is what the code tests:
    the quotient of the code by the first code of the category is one. *)
Definition has_correction (c : const) (freq period : Z) : bool :=
  (period =? 366) && (freq / FR_ANN c =? 1)
  || (period =? 31) && (freq / FR_MTH c =? 1)
  || (period =? 92) && (freq / FR_QTR c =? 1)
  || py_in period [12; 7].

(** The coarse categories of frequencies for which [count_missing] has a
    correction. *)
Inductive category : Type := Annual | Quarterly | Monthly.

(** The specification's reading of a combination of width and frequency
    with a defined calendar correction: annual with 366, monthly with 31,
    quarterly with 92, and the widths 12 and 7.  [in_category] tells
    whether a frequency code is of a category, which is a matter of the
    frequency table. *)
Definition defined_correction (in_category : category → Z → bool)
    (freq period : Z) : bool :=
  (period =? 366) && in_category Annual freq
  || (period =? 31) && in_category Monthly freq
  || (period =? 92) && in_category Quarterly freq
  || py_in period [12; 7].

(** The test [count_missing] makes of the frequency at a width tells its
    category. *)
Definition tests_agree (c : const) (in_category : category → Z → bool)
    (freq period : Z) : Prop :=
  (period = 366 → (freq / FR_ANN c =? 1) = in_category Annual freq)
  ∧ (period = 31 → (freq / FR_MTH c =? 1) = in_category Monthly freq)
  ∧ (period = 92 → (freq / FR_QTR c =? 1) = in_category Quarterly freq).

(** The number of slots of a day at the frequencies that
    [convert_to_annual] reshapes itself. *)
Definition subday_multiplier (c : const) (freq : Z) : option Z :=
  if freq =? FR_DAY c then Some 1
  else if freq =? FR_HR c then Some 24
  else if freq =? FR_MIN c then Some 1440
  else if freq =? FR_SEC c then Some 86400
  else None.

(** The month and the day of the month of day [n] of a year, counted from
    0 at the first of January. *)
Fixpoint date_of_day_from (y m : Z) (months : nat) (n : Z) : option (Z * Z) :=
  match months with
  | O => None
  | S months' =>
      if n <? days_in_month y m then Some (m, n + 1)
      else date_of_day_from y (m + 1) months' (n - days_in_month y m)
  end.

Definition date_of_day (y n : Z) : option (Z * Z) :=
  if n <? 0 then None else date_of_day_from y 1 12 n.

(** The specification's reading of the sub-day branch of [guess_freq]:
    hourly when the minimum exceeds 3599 and not all gaps are exact
    multiples of one hour, second when the minimum is below 59, minute
    otherwise. *)
Definition claimed_subday_freq (c : const) (gaps : list Z) (mingap : Z) : Z :=
  if (mingap >? 3599) && negb (forallb (fun g => g mod 3600 =? 0) gaps)
  then FR_HR c
  else if mingap <? 59 then FR_SEC c
  else FR_MIN c.

(** The date a slot stands for in a row laid out from the first of
    January of year [y], with [m] slots a day: the month and the day, and
    the position within the day. *)
Definition slot_date (y m k : Z) : option (Z * Z) * Z :=
  (date_of_day y (k / m), k mod m).

(** Days of a year of the Gregorian calendar. *)
Definition days_in_year (y : Z) : Z := if isleapyear y then 366 else 365.

(** The number of masked slots of a row. *)
Definition masked_count {V} (cells : list (cell V)) : Z :=
  Z.of_nat (length (filter (fun x => mask x = true) cells)).

(** The dated rows of a series; an entry of a series of rank 1 is a row of
    one slot. *)
Definition rows_of {V} (s : TimeSeries V) : list (Date * list (cell V)) :=
  match series s with
  | TS0 d x => [(d, [x])]
  | TS1 xs => map (fun x => (x.1, [x.2])) xs
  | TS2 _ rows => rows
  | TSN _ _ => []
  end.

(** A row and what became of it: same date, same stored values, and no
    slot that was masked is unmasked. *)
Definition row_kept {V} (r r' : Date * list (cell V)) : Prop :=
  r'.1 = r.1
  ∧ map data r'.2 = map data r.2
  ∧ Forall2 (fun x x' => mask x = true → mask x' = true) r.2 r'.2.

(** The letters of a name in lower case, and the names that contain
    [date]. *)
Definition lower_name (name : string) : list ascii :=
  map lower (list_ascii_of_string name).

Definition contains_date (name : string) : Prop :=
  ∃ pre post, lower_name name = pre ++ ["d"; "a"; "t"; "e"]%char ++ post.

(** A row of [366 * m] slots as [convert_to_annual] returns it, with [m]
    slots a day. *)
Definition annual_row {V} (m : Z) (r : Date * list (cell V)) : Date * list (cell V) :=
  if isleapyear (year r.1) then r
  else (r.1, take (Z.to_nat (59 * m)) r.2
             ++ map masked (take (Z.to_nat m) (drop (Z.to_nat (59 * m)) r.2))
             ++ take (Z.to_nat (306 * m)) (drop (Z.to_nat (59 * m)) r.2)).

(** ** Example data *)

(** A row of [n] observed slots followed by [k] masked ones. *)
Definition row_of (n k : nat) : list (cell Z) :=
  repeat (mkCell 0 false) n ++ repeat (mkCell 0 true) k.

(** Four months laid out on 31 day slots, with all their data: April and
    February 2001, February and January 2004. *)
Definition ex_months : list (Date * list (cell Z)) :=
  [(mkDate 2001 4 0, row_of 30 1); (mkDate 2001 2 1, row_of 28 3);
   (mkDate 2004 2 2, row_of 29 2); (mkDate 2004 1 3, row_of 31 0)].

(** The first quarter of 2004 (91 days) and the second quarter of 2001
    (91 days) on 92 day slots, with all their data. *)
Definition ex_quarters : list (Date * list (cell Z)) :=
  [(mkDate 2004 3 0, row_of 91 1); (mkDate 2001 6 1, row_of 91 1)].

(** The categories of the codes of [table]: a thousand codes each. *)
Definition ex_in_category (cat : category) (freq : Z) : bool :=
  freq / 1000 =? match cat with Annual => 1 | Quarterly => 2 | Monthly => 3 end.

(** A February without a masked slot on 31 slots, at weekly frequency, and
    the quarters of [ex_quarters] at monthly frequency. *)
Definition ex_weekly : TimeSeries Z :=
  mkTimeSeries (FR_WK table) (TS2 31 [(mkDate 2001 2 0, row_of 31 0)]).

Definition ex_monthly_92 : TimeSeries Z :=
  mkTimeSeries (FR_MTH table) (TS2 92 ex_quarters).

(** A series of rank 0: one dated observation. *)
Definition ex_scalar : TimeSeries Z :=
  mkTimeSeries (FR_DAY table) (TS0 (mkDate 2001 1 0) (mkCell 0 false)).

(** A parser that returns two columns named [a] and [b]. *)
Definition ex_parser_ab (_ : kwargs) : result (mrec_t Z) :=
  Ok (mkMrec (Some ["a"; "b"]%string) [[3; 30]; [1; 10]]).

(** The converter that reads a date from a single field. *)
Definition ex_dateconv (fields : list Z) : result Z :=
  match fields with
  | [x] => Ok x
  | _ => Raise TypeError
  end.

(** Two years of daily data as [convert] lays them out: 2001 and 2004 on
    366 slots, slot [k] holding the value [k]. *)
Definition ex_years : list (Date * list (cell Z)) :=
  [(mkDate 2001 1 0, map (fun k => mkCell k false) (seqZ 0 366));
   (mkDate 2004 1 1, map (fun k => mkCell k false) (seqZ 0 366))].

Definition ex_convert (s : TimeSeries Z) : result (TimeSeries Z) :=
  Ok (mkTimeSeries (FR_ANN table) (TS2 366 ex_years)).

(** A pivot table of two rows and twelve columns: half of the first row is
    missing, three quarters of the second. *)
Definition ex_pivot : TimeSeries Z :=
  mkTimeSeries (FR_MTH table)
    (TS2 12 [(mkDate 2001 1 0, row_of 6 6); (mkDate 2001 2 1, row_of 3 9)]).

(** A parser that returns three lines out of order, the date in the
    column named [dates], and one that returns three lines out of order of
    which two have the same date. *)
Definition ex_parser (_ : kwargs) : result (mrec_t Z) :=
  Ok (mkMrec (Some ["dates"; "a"]%string) [[3; 30]; [1; 10]; [2; 20]]).

Definition ex_parser_dup (_ : kwargs) : result (mrec_t Z) :=
  Ok (mkMrec (Some ["dates"; "a"]%string) [[2; 20]; [1; 30]; [1; 10]]).

(** A view that re-types nothing, as the view to the type the records have
    already. *)
Definition ex_view (_ : view_arg) (out : loaded Z) : result (loaded Z) := Ok out.

(** No object of the store refers to a buffer that is not there. *)
Definition store_wf {V} (σ : store V) : Prop :=
  ∀ o t, objs σ !! o = Some (VSeries t) →
         is_Some (bufs σ !! o_data t)
         ∧ ∀ lm, o_mask t = Some lm → is_Some (bufs σ !! lm).

(** The buffers of an object have the sizes its shape announces. *)
Definition laid_out {V} (σ : store V) (t : tsobj) : Prop :=
  ∃ values,
    bufs σ !! o_data t = Some (DataBuf values)
    ∧ (∀ lm, o_mask t = Some lm →
             ∃ bits, bufs σ !! lm = Some (MaskBuf bits)
                     ∧ length bits = length values)
    ∧ match o_shape t with
      | Sh0 => length (o_dates t) = 1%nat ∧ length values = 1%nat
      | Sh1 n => length (o_dates t) = n ∧ length values = n
      | Sh2 nrows ncols =>
          length (o_dates t) = nrows ∧ length values = (nrows * ncols)%nat
      | ShN _ _ => True
      end.

(** Two series objects over one mask: the pivot table [ex_pivot] and a view
    of it. *)
Definition ex_obj : tsobj :=
  mkObj (FR_MTH table) [mkDate 2001 1 0; mkDate 2001 2 1] (Sh2 2 12)
    1%positive (Some 2%positive) false.

Definition ex_store : store Z :=
  mkStore {[ 1%positive := VSeries ex_obj;
             2%positive := VSeries ex_obj ]}
          {[ 1%positive := DataBuf (repeat 0 24);
             2%positive := MaskBuf (repeat false 6 ++ repeat true 6
                                    ++ repeat false 3 ++ repeat true 9) ]}.

(** Two years of hourly data as [convert] lays them out on 366 days of 24
    slots: 2001 with its 365 days first, and 2004. *)
Definition ex_hours : list (Date * list (cell Z)) :=
  [(mkDate 2001 1 0, row_of (Z.to_nat 8760) 24);
   (mkDate 2004 1 1, row_of (Z.to_nat 8784) 0)].

Definition ex_convert_hours (s : TimeSeries Z) : result (TimeSeries Z) :=
  Ok (mkTimeSeries (FR_ANN table) (TS2 (Z.to_nat 8784) ex_hours)).

(** A structured dtype of a float and an integer field, and one with a
    field of Python objects. *)
Definition ex_dtype : dtype_t :=
  mkDtype (Some [("a"%string, "f"%char); ("b"%string, "i"%char)]).

Definition ex_dtype_object : dtype_t :=
  mkDtype (Some [("a"%string, "f"%char); ("b"%string, "O"%char)]).

(** The structured dtype of the records the parser builds with the
    converters [float] and [int]: a field of doubles and one of long
    integers. *)
Definition ex_dtype_dl : dtype_t :=
  mkDtype (Some [("a"%string, "d"%char); ("b"%string, "l"%char)]).

(** A parser that returns two lines of three columns, the first named
    [dates]. *)
Definition ex_parser_dab (_ : kwargs) : result (mrec_t Z) :=
  Ok (mkMrec (Some ["dates"; "a"; "b"]%string) [[3; 30; 300]; [1; 10; 100]]).

(** A plotting script of three lines, the second [plt.show()]. *)
Definition ex_script : string :=
  ("import pylab"
   ++ String newline ("plt.show()" ++ String newline "pylab.plot()"))%string.

(** * Properties *)

(** ** Arrays *)

Lemma sub_where_map {A} (f : A → bool) (g : A → Z) (k : Z) (l : list A) :
  sub_where (map f l) k (map g l)
  = map (fun a => if f a then g a - k else g a) l.
Proof. induction l as [|a l IH]; simpl; [done|]. by rewrite IH. Qed.

Lemma and_map {A} (f g : A → bool) (l : list A) :
  and_ (map f l) (map g l) = map (fun a => f a && g a) l.
Proof. induction l as [|a l IH]; simpl; [done|]. by rewrite IH. Qed.

Lemma not_map {A} (f : A → bool) (l : list A) :
  not_ (map f l) = map (fun a => negb (f a)) l.
Proof. unfold not_. by rewrite map_map. Qed.

Lemma isleapyear_seq_map {A} (f : A → Z) (l : list A) :
  isleapyear_seq (map f l) = map (fun a => isleapyear (f a)) l.
Proof. unfold isleapyear_seq. by rewrite map_map. Qed.

Lemma count_nonneg {V} (cells : list (cell V)) : 0 ≤ count cells.
Proof. unfold count. lia. Qed.

Lemma count_le_length {V} (cells : list (cell V)) :
  count cells ≤ Z.of_nat (length cells).
Proof. unfold count. pose proof (length_filter (fun x => mask x = false) cells). lia. Qed.

Lemma count_mask_row {V} (cells : list (cell V)) : count (mask_row cells) = 0.
Proof.
  unfold count, mask_row. induction cells as [|x cells IH]; [done|].
  rewrite map_cons, filter_cons_False; [done|]. by simpl.
Qed.

Lemma count_by_mask {V} (cells : list (cell V)) :
  count cells = Z.of_nat (length (filter (fun b => b = false) (map mask cells))).
Proof.
  unfold count. f_equal. induction cells as [|x cells IH]; [done|].
  rewrite map_cons, !filter_cons. destruct (decide (mask x = false)); simpl; lia.
Qed.

Lemma count_full {V} (cells : list (cell V)) (n k : nat) :
  map mask cells = repeat false n ++ repeat true k →
  count cells = Z.of_nat n.
Proof.
  intros H. rewrite count_by_mask, H, filter_app, length_app. clear H.
  assert (Hf : ∀ m, length (filter (fun b => b = false) (repeat false m)) = m).
  { induction m; [done|]. change (repeat false (S m)) with (false :: repeat false m).
    rewrite filter_cons. simpl. lia. }
  assert (Ht : ∀ m, length (filter (fun b => b = false) (repeat true m)) = 0%nat).
  { induction m; [done|]. change (repeat true (S m)) with (true :: repeat true m).
    by rewrite filter_cons. }
  rewrite Hf, Ht. lia.
Qed.

Lemma masked_count_count {V} (cells : list (cell V)) :
  masked_count cells = Z.of_nat (length cells) - count cells.
Proof.
  unfold masked_count, count. induction cells as [|x cells IH]; [done|].
  rewrite !filter_cons. simpl length.
  destruct (mask x); simpl; repeat case_decide; simpl; try done; lia.
Qed.

Lemma raw_missing_masked_count {V} (ncols : nat) (r : Date * list (cell V)) :
  length r.2 = ncols → raw_missing ncols r = masked_count r.2.
Proof. intros H. unfold raw_missing. rewrite masked_count_count, H. done. Qed.

(** ** [count_missing] *)

Lemma count_missing_quarterly_eq {A} (c : const) (freq : Z)
    (mo yr g : A → Z) (l : list A) :
  count_missing_quarterly c freq (map mo l) (map yr l) (map g l)
  = match qtr_class c freq with
    | Some cls =>
        Ok (map (fun a => g a - quarterly_correction cls (mkDate (yr a) (mo a) 0)) l)
    | None => Raise UnboundLocalError
    end.
Proof.
  unfold count_missing_quarterly, qtr_class.
  repeat case_match; simplify_eq; simpl; try done;
    rewrite ?map_map, ?sub_where_map, ?isleapyear_seq_map, ?not_map, ?and_map,
            ?sub_where_map; f_equal;
    apply map_ext; intros a; unfold quarterly_correction, nonleap; simpl;
    repeat case_match; simpl in *; lia.
Qed.

(** For a rank-2 series [count_missing] is the raw count of each row less
    the calendar correction of its date, or the exception of the
    combination of width and frequency. *)
Lemma count_missing_TS2 {V} (c : const) (s : TimeSeries V) ncols rows :
  series s = TS2 ncols rows →
  count_missing c (PySeries s)
  = (corr ← correction c (freq s) (Z.of_nat ncols);
     Ok (MArray (map (fun r => raw_missing ncols r - corr r.1) rows))).
Proof.
  intros Hs. unfold count_missing, correction. rewrite Hs.
  destruct ((Z.of_nat ncols =? 366) && (freq s / FR_ANN c =? 1)).
  { simpl. rewrite isleapyear_seq_map, not_map, sub_where_map.
    do 2 f_equal. apply map_ext. intros r. unfold raw_missing, nonleap.
    destruct (isleapyear _); simpl; lia. }
  destruct ((Z.of_nat ncols =? 31) && (freq s / FR_MTH c =? 1)).
  { simpl. rewrite isleapyear_seq_map, not_map, ?map_map, and_map.
    rewrite !sub_where_map. do 2 f_equal. apply map_ext. intros r.
    unfold raw_missing, monthly_correction, nonleap.
    repeat case_match; simpl in *; lia. }
  destruct ((Z.of_nat ncols =? 92) && (freq s / FR_QTR c =? 1)).
  { rewrite (count_missing_quarterly_eq c (freq s)
               (fun r : Date * list (cell V) => month r.1)
               (fun r : Date * list (cell V) => year r.1)).
    by destruct (qtr_class c (freq s)) as [cls|]. }
  destruct (py_in (Z.of_nat ncols) [12; 7]); simpl; [|done].
  do 2 f_equal. apply map_ext. intros r. unfold raw_missing. lia.
Qed.

(** The corrections of the quarterly classes are those of the calendar: a
    quarter that ends with month [m] lacks [92 - quarter_length] of the 92
    slots. *)
Lemma quarterly_correction_calendar (cls : qclass) (d : Date) :
  month d ∈ quarter_ends cls →
  quarterly_correction cls d = 92 - quarter_length (year d) (month d).
Proof.
  intros Hm. unfold quarterly_correction, quarter_length, days_in_month, nonleap.
  destruct cls; simpl in Hm;
    repeat (apply elem_of_cons in Hm as [->|Hm]);
    try (by apply elem_of_nil in Hm); simpl;
    destruct (isleapyear (year d)); reflexivity.
Qed.

(** So is the correction of a month row. *)
Lemma monthly_correction_calendar (d : Date) :
  monthly_correction d = 31 - days_in_month (year d) (month d).
Proof.
  unfold monthly_correction, days_in_month, nonleap.
  repeat case_match; simpl in *; lia.
Qed.

(** The classes of the codes of the table: the end- and start-based codes
    of January, April and October; of February, May, August and November; of
    March, June, September and December; the codes of July are in none. *)
Lemma qtr_class_table :
  map (qtr_class table)
    [FR_QTREJAN table; FR_QTRSJAN table; FR_QTREAPR table; FR_QTRSAPR table;
     FR_QTREOCT table; FR_QTRSOCT table]
  = repeat (Some QJAN) 6
  ∧ map (qtr_class table)
      [FR_QTREFEB table; FR_QTRSFEB table; FR_QTREMAY table; FR_QTRSMAY table;
       FR_QTREAUG table; FR_QTRSAUG table; FR_QTRENOV table; FR_QTRSNOV table]
    = repeat (Some QFEB) 8
  ∧ map (qtr_class table)
      [FR_QTREMAR table; FR_QTRSMAR table; FR_QTREJUN table; FR_QTRSJUN table;
       FR_QTRESEP table; FR_QTRSSEP table; FR_QTREDEC table; FR_QTRSDEC table]
    = repeat (Some QMAR) 8
  ∧ map (qtr_class table) [FR_QTREJUL table; FR_QTRSJUL table] = [None; None].
Proof. by repeat split. Qed.

(** C1, as the code has it: for a rank-2 series of width 92 whose frequency
    passes the quarterly test and is in one of the three tuples of codes,
    [count_missing] subtracts from the raw count of each row the correction
    of the tuple: 2 for a row of month 4 in the first; 1 for a row of month
    2 or 11 in the second; 1 for a row of month 3 or 6 in the third; and 1
    more for the row of month 4, 2 or 3 respectively when the year of the
    row is not a leap year.  For a row dated by the last month of its
    quarter that is the number of slots the quarter does not fill. *)
Theorem count_missing_quarterly_rows {V} (c : const) (s : TimeSeries V)
    (rows : list (Date * list (cell V))) (cls : qclass) :
  series s = TS2 92 rows →
  freq s / FR_QTR c = 1 →
  qtr_class c (freq s) = Some cls →
  count_missing c (PySeries s)
  = Ok (MArray (map (fun r => raw_missing 92 r - quarterly_correction cls r.1) rows))
  ∧ (∀ d, month d ∈ quarter_ends cls →
          quarterly_correction cls d = 92 - quarter_length (year d) (month d)).
Proof.
  intros Hs Hq Hcls. split.
  - rewrite (count_missing_TS2 c s 92 rows Hs).
    unfold correction. rewrite Hq, Hcls. reflexivity.
  - intros d. apply quarterly_correction_calendar.
Qed.

Lemma count_missing_quarterly_rows_witness :
  count_missing table (PySeries (mkTimeSeries (FR_QTREDEC table) (TS2 92 ex_quarters)))
  = Ok (MArray (map (fun r => raw_missing 92 r - quarterly_correction QMAR r.1)
                  ex_quarters)).
Proof.
  apply (count_missing_quarterly_rows table
           (mkTimeSeries (FR_QTREDEC table) (TS2 92 ex_quarters)) ex_quarters QMAR);
    reflexivity.
Defined.

(** C1 as stated fails twice.  The codes of July are in none of the three
    tuples, and a series of such a frequency is not processed: the call
    raises.  And for the codes of December the row of the variable-length
    quarter (month 3) of a leap year loses 1, where the stated rule takes 2
    for the variable-length month. *)
Lemma count_missing_quarterly_counterexample :
  qtr_class table (FR_QTREJUL table) = None
  ∧ count_missing table
      (PySeries (mkTimeSeries (FR_QTREJUL table) (TS2 92 ex_quarters)))
    = Raise UnboundLocalError
  ∧ count_missing table
      (PySeries (mkTimeSeries (FR_QTREDEC table) (TS2 92 ex_quarters)))
    = Ok (MArray [0; 0])
  ∧ map (fun r => raw_missing 92 r - claimed_quarterly_correction 3 6 r.1)
      ex_quarters = [-1; 0].
Proof. by repeat split. Qed.

(** C2, as the code has it: for a rank-2 series of width 31 whose frequency
    passes the monthly test, [count_missing] returns for each row the number
    of masked slots less 1 for a month of 30 days, less 2 for a February of
    a leap year and less 3 for a February of another year.  When every row
    holds all its data, the number of masked slots of a row is exactly that
    number (1, 2, 3, or 0 for a month of 31 days), and [count_missing]
    returns 0 for every row. *)
Theorem count_missing_monthly_full {V} (c : const) (s : TimeSeries V)
    (rows : list (Date * list (cell V))) :
  series s = TS2 31 rows →
  freq s / FR_MTH c = 1 →
  well_shaped 31 rows →
  count_missing c (PySeries s)
  = Ok (MArray (map (fun r => masked_count r.2 - claimed_monthly_count r.1) rows))
  ∧ (Forall full_month rows →
     Forall (fun r => masked_count r.2 = claimed_monthly_count r.1) rows
     ∧ count_missing c (PySeries s) = Ok (MArray (map (fun _ => 0) rows))).
Proof.
  intros Hs Hm Hshape.
  assert (Hcm : count_missing c (PySeries s)
                = Ok (MArray (map (fun r => masked_count r.2
                                            - claimed_monthly_count r.1) rows))).
  { rewrite (count_missing_TS2 c s 31 rows Hs). unfold correction.
    rewrite Hm. simpl. do 2 f_equal. apply Forall_fmap_ext_1.
    eapply Forall_impl; [exact Hshape|]. intros r Hr. simpl in Hr |- *.
    rewrite (raw_missing_masked_count 31 r Hr).
    unfold claimed_monthly_count, monthly_correction, nonleap.
    repeat case_match; simpl in *; lia. }
  split; [exact Hcm|]. intros Hfull.
  assert (Hrows : Forall (fun r => masked_count r.2 = claimed_monthly_count r.1) rows).
  { pose proof (conj Hshape Hfull) as H. unfold well_shaped in H.
    rewrite <- Forall_and in H.
    eapply Forall_impl; [exact H|]. intros [d cells] [Hlen [Hrange Hmask]].
    simpl in *. rewrite masked_count_count, Hlen, (count_full _ _ _ Hmask).
    unfold claimed_monthly_count, days_in_month.
    repeat case_match; simpl in *; lia. }
  split; [exact Hrows|].
  rewrite Hcm. do 2 f_equal. apply Forall_fmap_ext_1.
  eapply Forall_impl; [exact Hrows|]. intros r H. simpl in H |- *. lia.
Qed.

Lemma count_missing_monthly_full_witness :
  count_missing table (PySeries (mkTimeSeries (FR_MTH table) (TS2 31 ex_months)))
  = Ok (MArray (map (fun r => masked_count r.2 - claimed_monthly_count r.1) ex_months))
  ∧ Forall (fun r => masked_count r.2 = claimed_monthly_count r.1) ex_months
  ∧ count_missing table (PySeries (mkTimeSeries (FR_MTH table) (TS2 31 ex_months)))
    = Ok (MArray (map (fun _ => 0) ex_months)).
Proof.
  destruct (count_missing_monthly_full table
              (mkTimeSeries (FR_MTH table) (TS2 31 ex_months)) ex_months
              eq_refl eq_refl ltac:(repeat constructor)) as [Hcm Hfull].
  split; [exact Hcm|]. apply Hfull.
  repeat constructor; simpl; lia.
Defined.

(** C2 as stated fails: for months that hold all their data the counts
    returned are 0, not the 1, 3, 2 and 0 of the structural pad slots; and
    for the same months without a single masked slot they are the negated
    pads. *)
Lemma count_missing_monthly_counterexample :
  Forall full_month ex_months
  ∧ count_missing table (PySeries (mkTimeSeries (FR_MTH table) (TS2 31 ex_months)))
    = Ok (MArray [0; 0; 0; 0])
  ∧ map (fun r => claimed_monthly_count r.1) ex_months = [1; 3; 2; 0]
  ∧ count_missing table
      (PySeries (mkTimeSeries (FR_MTH table)
                   (TS2 31 (map (fun r => (r.1, row_of 31 0)) ex_months))))
    = Ok (MArray [-1; -3; -2; 0]).
Proof.
  split; [repeat constructor; simpl; lia|]. by repeat split.
Qed.

(** ** Exceptions of [count_missing] and [tsfromtxt] *)

Lemma correction_has (c : const) (fq period : Z) :
  correction c fq period = Raise NotImplementedError
  ↔ has_correction c fq period = false.
Proof.
  unfold correction, has_correction.
  destruct ((period =? 366) && (fq / FR_ANN c =? 1)); simpl; [done|].
  destruct ((period =? 31) && (fq / FR_MTH c =? 1)); simpl; [done|].
  destruct ((period =? 92) && (fq / FR_QTR c =? 1)); simpl.
  { by destruct (qtr_class c fq). }
  by destruct (_ || _).
Qed.

Lemma correction_not_TypeError (c : const) (fq period : Z) :
  correction c fq period ≠ Raise TypeError.
Proof. unfold correction. repeat case_match; done. Qed.

Lemma no_date_column (names : list string) (idx : list nat) :
  Forall (fun n => datespattern_search n = false) names →
  filter (fun ix : nat * string => datespattern_search ix.2 = true) (zip idx names) = [].
Proof.
  intros H. revert idx. induction H as [|n names Hn _ IH]; intros [|i idx]; try done.
  simpl. rewrite filter_cons_False; [apply IH|]. simpl. by rewrite Hn.
Qed.

Lemma defined_correction_tests (c : const) (in_category : category → Z → bool)
    (fq period : Z) :
  tests_agree c in_category fq period →
  has_correction c fq period = defined_correction in_category fq period.
Proof.
  intros (Hann & Hmth & Hqtr). unfold has_correction, defined_correction.
  destruct (Z.eqb_spec period 366) as [H366|_]; [rewrite (Hann H366)|]; simpl;
    (destruct (Z.eqb_spec period 31) as [H31|_]; [rewrite (Hmth H31)|]); simpl;
    (destruct (Z.eqb_spec period 92) as [H92|_]; [rewrite (Hqtr H92)|]); done.
Qed.

(** C8, as the code has it: [count_missing] raises [TypeError] exactly for
    an argument that is no series, and [NotImplementedError] exactly for a
    series whose rank is neither 1 nor 2, or is 2 with a width and a
    frequency that have no defined correction (not annual with 366, monthly
    with 31, quarterly with 92, and a width that is not 12 or 7), for every
    series of rank 2 at whose width the test of the code tells the category
    of the frequency; [tsfromtxt] raises [TypeError] when a dtype comes
    without date columns, whatever the parser would do, and when no date
    column is given and no name of the parsed records matches the pattern.
    A call that raises returns nothing. *)
Theorem exceptions_raised {V F} (c : const) :
  (∀ x : pyobj V, count_missing c x = Raise TypeError ↔ x = PyOther)
  ∧ (∀ (in_category : category → Z → bool) (s : TimeSeries V),
        (ndim s = 2%nat → tests_agree c in_category (freq s) (last_dim s)) →
        count_missing c (PySeries s) = Raise NotImplementedError
        ↔ (ndim s ≠ 1 ∧ ndim s ≠ 2)%nat
          ∨ (ndim s = 2%nat
             ∧ defined_correction in_category (freq s) (last_dim s) = false))
  ∧ (∀ (genfromtxt : kwargs → result (mrec_t F)) view dt converters usecols dateconv,
        tsfromtxt genfromtxt view (Some dt) converters None usecols dateconv
        = Raise TypeError)
  ∧ (∀ (genfromtxt : kwargs → result (mrec_t F)) view converters usecols dateconv mrec,
        genfromtxt (mkKwargs None converters) = Ok mrec →
        Forall (fun n => datespattern_search n = false) (default [] (mr_names mrec)) →
        tsfromtxt genfromtxt view None converters None usecols dateconv
        = Raise TypeError).
Proof.
  split; [|split; [|split]].
  - intros x. split; [|by intros ->].
    destruct x as [|s]; [done|]. intros H. exfalso. revert H.
    destruct s as [fq [d x|xs|ncols rows|extra n]]; try done.
    rewrite (count_missing_TS2 c (mkTimeSeries fq (TS2 ncols rows)) ncols rows eq_refl). simpl.
    pose proof (correction_not_TypeError c fq (Z.of_nat ncols)).
    by destruct (correction c fq (Z.of_nat ncols)) as [corr|[]].
  - intros in_category s Hagree.
    destruct s as [fq [d x|xs|ncols rows|extra n]].
    + split; [intros _; left; unfold ndim; simpl; lia|done].
    + split; [done|]. unfold ndim. simpl. intros [[? _]|[? _]]; lia.
    + specialize (Hagree eq_refl). simpl in Hagree.
      change (last_dim (mkTimeSeries fq (TS2 ncols rows))) with (Z.of_nat ncols).
      change (freq (mkTimeSeries fq (TS2 ncols rows))) with fq.
      rewrite <- (defined_correction_tests c in_category fq (Z.of_nat ncols) Hagree).
      rewrite (count_missing_TS2 c (mkTimeSeries fq (TS2 ncols rows)) ncols rows eq_refl).
      change (freq (mkTimeSeries fq (TS2 ncols rows))) with fq.
      rewrite <- correction_has. unfold ndim. simpl. split.
      * intros H. right. split; [done|].
        destruct (correction c fq (Z.of_nat ncols)) as [corr|e]; simpl in H; [done|].
        by injection H as ->.
      * intros [[_ ?]|[_ H]]; [lia|]. by rewrite H.
    + split; [intros _; left; unfold ndim; simpl; lia|done].
  - intros genfromtxt view dt converters usecols dateconv. reflexivity.
  - intros genfromtxt view converters usecols dateconv mrec Hg Hnames.
    unfold tsfromtxt. simpl. rewrite Hg. simpl.
    by rewrite no_date_column.
Qed.

Lemma exceptions_raised_witness :
  tsfromtxt ex_parser_ab ex_view None ∅ None None ex_dateconv = Raise TypeError
  ∧ (count_missing table (PySeries (mkTimeSeries (FR_MTH table) (TS2 31 ex_months)))
     = Raise NotImplementedError
     ↔ (ndim (mkTimeSeries (FR_MTH table) (TS2 31 ex_months)) ≠ 1
        ∧ ndim (mkTimeSeries (FR_MTH table) (TS2 31 ex_months)) ≠ 2)%nat
       ∨ (ndim (mkTimeSeries (FR_MTH table) (TS2 31 ex_months)) = 2%nat
          ∧ defined_correction ex_in_category (FR_MTH table) 31 = false))
  ∧ count_missing table
      (PySeries (mkTimeSeries (FR_MTH table) (TS2 5 [(mkDate 2001 1 0, row_of 5 0)])))
    = Raise NotImplementedError.
Proof.
  split; [|split].
  - apply (proj2 (proj2 (proj2 (@exceptions_raised Z Z table)))
             ex_parser_ab ex_view ∅ None ex_dateconv
             (mkMrec (Some ["a"; "b"]%string) [[3; 30]; [1; 10]])).
    + reflexivity.
    + by repeat constructor.
  - apply (proj1 (proj2 (@exceptions_raised Z Z table)) ex_in_category
             (mkTimeSeries (FR_MTH table) (TS2 31 ex_months))).
    intros _. repeat split; intros H; vm_compute in H |- *; done.
  - apply (proj1 (proj2 (@exceptions_raised Z Z table)) ex_in_category
             (mkTimeSeries (FR_MTH table) (TS2 5 [(mkDate 2001 1 0, row_of 5 0)]))).
    + intros _. repeat split; intros H; vm_compute in H; discriminate.
    + right. by split.
Defined.

(** C8 as stated fails for a series of rank 0: its rank does not exceed 2
    and is not 2, and [count_missing] raises [NotImplementedError].  It
    fails also where the test of the code takes a frequency for one of
    another category: a weekly series of width 31 has no defined correction
    and gets the correction of the months, and a monthly series of width 92
    has none either and raises [UnboundLocalError]. *)
Lemma count_missing_rank0_counterexample :
  count_missing table (PySeries ex_scalar) = Raise NotImplementedError
  ∧ ¬ (2 < ndim ex_scalar)%nat
  ∧ ndim ex_scalar ≠ 2%nat
  ∧ ndim ex_weekly = 2%nat
  ∧ defined_correction ex_in_category (freq ex_weekly) (last_dim ex_weekly) = false
  ∧ count_missing table (PySeries ex_weekly) = Ok (MArray [-3])
  ∧ ndim ex_monthly_92 = 2%nat
  ∧ defined_correction ex_in_category (freq ex_monthly_92) (last_dim ex_monthly_92)
    = false
  ∧ count_missing table (PySeries ex_monthly_92) = Raise UnboundLocalError.
Proof. repeat split; unfold ndim; simpl; lia. Qed.

(** ** The error monad on lists *)

Lemma mapM_Ok {A B} (f : A → result B) (l : list A) (k : list B) :
  mapM f l = Ok k ↔ Forall2 (fun x y => f x = Ok y) l k.
Proof.
  split.
  - revert k. induction l as [|x l IH]; intros k H; simpl in H.
    + injection H as <-. constructor.
    + destruct (f x) as [y|e] eqn:Hx; simpl in H; [|done].
      destruct (mapM f l) as [k'|e] eqn:Hl; simpl in H; [|done].
      injection H as <-. constructor; [done|]. by apply IH.
  - induction 1 as [|x y l k Hx _ IH]; simpl; [done|].
    rewrite Hx. simpl. rewrite IH. done.
Qed.

Lemma mapM_Ok_lookup {A B} (f : A → result B) (l : list A) (k : list B) :
  mapM f l = Ok k →
  length k = length l
  ∧ ∀ i x, l !! i = Some x → ∃ y, k !! i = Some y ∧ f x = Ok y.
Proof.
  intros H%mapM_Ok. split; [symmetry; by eapply Forall2_length|].
  intros i x Hi. destruct (Forall2_lookup_l _ _ _ _ _ H Hi) as (y & ? & ?). eauto.
Qed.

Lemma mapM_total {A B} (f : A → result B) (l : list A) :
  Forall (fun x => ∃ y, f x = Ok y) l → ∃ k, mapM f l = Ok k.
Proof.
  induction 1 as [|x l [y Hx] _ [k IH]].
  - by exists [].
  - exists (y :: k). simpl. rewrite Hx. simpl. by rewrite IH.
Qed.

(** ** [convert_to_annual] *)

Lemma feb_indices_multiplier (c : const) (fq : Z) :
  feb_indices c fq = (fun m => (59 * m, 60 * m)) <$> subday_multiplier c fq.
Proof.
  unfold feb_indices, subday_multiplier. repeat case_match; done.
Qed.

Lemma subday_multiplier_pos (c : const) (fq : Z) (m : Z) :
  subday_multiplier c fq = Some m → 0 < m.
Proof.
  unfold subday_multiplier. repeat case_match; intros; simplify_eq; lia.
Qed.

(** The two slices of the assignment have the same length whatever the
    width of the row: the assignment never fails on shapes. *)
Lemma shift_row_total {V} (m : Z) (cells : list (cell V)) :
  0 < m →
  ∃ cells', shift_row (59 * m) (60 * m) cells = Ok cells'.
Proof.
  intros Hm. unfold shift_row, set_slice_from, py_slice, py_index. simpl.
  rewrite decide_True; [by eexists|].
  rewrite length_take, length_drop.
  repeat match goal with
         | |- context [?a <? ?b] => destruct (Z.ltb_spec a b)
         end; lia.
Qed.

Lemma bind_Ok {A B} (a : A) (f : A → result B) : (Ok a ≫= f) = f a.
Proof. reflexivity. Qed.

Lemma py_index_nonneg (n i : Z) : 0 ≤ i ≤ n → py_index n i = i.
Proof. intros H. unfold py_index. destruct (Z.ltb_spec i 0); lia. Qed.

Lemma py_index_neg (n i : Z) : i < 0 → 0 ≤ i + n → py_index n i = i + n.
Proof. intros H1 H2. unfold py_index. destruct (Z.ltb_spec i 0); lia. Qed.

(** On a row of [366 * m] slots the assignments move the slots from
    [59 * m] on by one day and mask the day they leave. *)
Lemma shift_row_full {V} (m : Z) (cells : list (cell V)) :
  0 < m →
  length cells = Z.to_nat (366 * m) →
  shift_row (59 * m) (60 * m) cells
  = Ok (take (Z.to_nat (59 * m)) cells
        ++ map masked (take (Z.to_nat m) (drop (Z.to_nat (59 * m)) cells))
        ++ take (Z.to_nat (306 * m)) (drop (Z.to_nat (59 * m)) cells)).
Proof.
  intros Hm Hlen. unfold shift_row, set_slice_from, py_slice.
  unfold default. rewrite Hlen.
  rewrite (py_index_nonneg _ (59 * m)) by lia.
  rewrite (py_index_nonneg _ (60 * m)) by lia.
  rewrite (py_index_neg _ (59 * m - 60 * m)) by lia.
  replace (Z.to_nat (59 * m - 60 * m + Z.of_nat (Z.to_nat (366 * m)) - 59 * m))
    with (Z.to_nat (306 * m)) by lia.
  set (src := take (Z.to_nat (306 * m)) (drop (Z.to_nat (59 * m)) cells)).
  assert (Hsrc : length src = Z.to_nat (306 * m)).
  { unfold src. rewrite length_take, length_drop. lia. }
  rewrite decide_True by lia.
  rewrite bind_Ok. f_equal. unfold mask_slice.
  rewrite length_app, length_take, Hsrc, Hlen.
  rewrite (py_index_nonneg _ (59 * m)) by lia.
  rewrite (py_index_nonneg _ (60 * m)) by lia.
  replace (Z.to_nat (60 * m - 59 * m)) with (Z.to_nat m) by lia.
  replace (Z.to_nat (59 * m) + Z.to_nat m)%nat with (Z.to_nat (60 * m)) by lia.
  rewrite take_app_le by (rewrite length_take; lia).
  rewrite take_take.
  replace (Z.to_nat (59 * m) `min` Z.to_nat (60 * m))%nat
    with (Z.to_nat (59 * m)) by lia.
  f_equal. f_equal.
  - f_equal. rewrite drop_app_le by (rewrite length_take; lia).
    rewrite take_app_le by (rewrite length_drop, length_take; lia).
    rewrite !take_drop_commute, take_take. do 2 f_equal. lia.
  - rewrite drop_app_length'; [done|]. rewrite length_take. lia.
Qed.

Lemma shift_row_lookup {V} (m : Z) (cells cells' : list (cell V)) :
  0 < m →
  length cells = Z.to_nat (366 * m) →
  shift_row (59 * m) (60 * m) cells = Ok cells' →
  length cells' = length cells
  ∧ ∀ k : nat,
      (Z.of_nat k < 59 * m → cells' !! k = cells !! k)
      ∧ (59 * m ≤ Z.of_nat k < 60 * m → cells' !! k = masked <$> cells !! k)
      ∧ (60 * m ≤ Z.of_nat k < 366 * m →
         cells' !! k = cells !! (k - Z.to_nat m)%nat).
Proof.
  intros Hm Hlen. rewrite (shift_row_full m cells Hm Hlen). intros [= <-].
  set (a := Z.to_nat (59 * m)). set (mn := Z.to_nat m).
  assert (Ha : length (take a cells) = a).
  { rewrite length_take. lia. }
  assert (Hb : length (map masked (take mn (drop a cells))) = mn).
  { rewrite length_map, length_take, length_drop. lia. }
  split.
  { rewrite !length_app, Ha, Hb, length_take, length_drop. lia. }
  intros k. repeat split; intros Hk.
  - rewrite lookup_app_l by lia. apply lookup_take_lt. lia.
  - rewrite lookup_app_r by lia. rewrite lookup_app_l by lia.
    rewrite list_lookup_fmap, lookup_take_lt by lia.
    rewrite lookup_drop, Ha. do 2 f_equal. lia.
  - rewrite lookup_app_r by lia. rewrite lookup_app_r by lia.
    rewrite lookup_take_lt by lia.
    rewrite lookup_drop, Ha, Hb. f_equal. lia.
Qed.

(** The calendar: a year that is not a leap year has the dates of a leap
    year, one day earlier from the first of March on; day 59 of a leap
    year is the 29th of February. *)
Lemma days_in_month_leap (y y' m : Z) :
  isleapyear y = isleapyear y' → days_in_month y m = days_in_month y' m.
Proof. intros H. unfold days_in_month. by rewrite H. Qed.

Lemma date_of_day_leap (y y' n : Z) :
  isleapyear y = isleapyear y' → date_of_day y n = date_of_day y' n.
Proof.
  intros H. unfold date_of_day. destruct (n <? 0); [done|].
  assert (Hfrom : ∀ months m k,
             date_of_day_from y m months k = date_of_day_from y' m months k).
  { induction months as [|months IH]; intros m k; simpl; [done|].
    rewrite (days_in_month_leap y y' m H). by rewrite IH. }
  apply Hfrom.
Qed.

Lemma calendar_alignment (y y' n : Z) :
  isleapyear y = false →
  isleapyear y' = true →
  (0 ≤ n < 59 → date_of_day y n = date_of_day y' n)
  ∧ (60 ≤ n < 366 → date_of_day y (n - 1) = date_of_day y' n)
  ∧ date_of_day y' 59 = Some (2, 29).
Proof.
  intros Hy Hy'.
  rewrite (date_of_day_leap y' 2004 59) by (by rewrite Hy').
  split; [|split; [|done]]; intros Hn.
  - rewrite (date_of_day_leap y 2001), (date_of_day_leap y' 2004)
      by (by rewrite ?Hy, ?Hy').
    assert (H : Forall (fun i => date_of_day 2001 i = date_of_day 2004 i) (seqZ 0 59)).
    { eapply bool_decide_eq_true_1. vm_compute. reflexivity. }
    rewrite Forall_forall in H. apply H. apply elem_of_seqZ. lia.
  - rewrite (date_of_day_leap y 2001), (date_of_day_leap y' 2004)
      by (by rewrite ?Hy, ?Hy').
    assert (H : Forall (fun i => date_of_day 2001 (i - 1) = date_of_day 2004 i)
                  (seqZ 60 306)).
    { eapply bool_decide_eq_true_1. vm_compute. reflexivity. }
    rewrite Forall_forall in H. apply H. apply elem_of_seqZ. lia.
Qed.

Lemma slot_alignment (y y' m k : Z) :
  0 < m →
  isleapyear y = false →
  isleapyear y' = true →
  (0 ≤ k < 59 * m → slot_date y m k = slot_date y' m k)
  ∧ (60 * m ≤ k < 366 * m → slot_date y m (k - m) = slot_date y' m k)
  ∧ (59 * m ≤ k < 60 * m → (slot_date y' m k).1 = Some (2, 29)).
Proof.
  intros Hm Hy Hy'. unfold slot_date.
  destruct (calendar_alignment y y' (k / m) Hy Hy') as (Hlo & Hhi & Hfeb).
  split; [|split]; intros Hk.
  - rewrite Hlo; [done|]. split; [apply Z.div_pos; lia|].
    apply Z.div_lt_upper_bound; lia.
  - replace (k - m) with (k + (-1) * m) by lia.
    rewrite Z.div_add, Z_mod_plus_full by lia.
    replace (k / m + -1) with (k / m - 1) by lia.
    rewrite Hhi; [done|]. split; [apply Z.div_le_lower_bound; lia|].
    apply Z.div_lt_upper_bound; lia.
  - simpl. replace (k / m) with 59; [done|].
    apply Z.div_unique with (k - 59 * m); lia.
Qed.

(** The multipliers of the table. *)
Lemma subday_multiplier_table :
  subday_multiplier table (FR_DAY table) = Some 1
  ∧ subday_multiplier table (FR_HR table) = Some 24
  ∧ subday_multiplier table (FR_MIN table) = Some 1440
  ∧ subday_multiplier table (FR_SEC table) = Some 86400.
Proof. by repeat split. Qed.

(** C3: for a series of daily or finer frequency, with [m] slots a day,
    that [convert] reshapes into rows of [366 * m] slots,
    [convert_to_annual] leaves the rows of leap years as they are and, in
    the rows of the other years, keeps the slots before [59 * m], sets the
    mask bit of the slots from [59 * m] to [60 * m], whose stored values
    stay, and puts into each slot from [60 * m] on what was [m] slots
    earlier.  With the calendar, a slot then holds
    the same date in every row: the dates of a year that is not a leap
    year are those of a leap year one day earlier from the first of March
    on, and the masked day is the 29th of February. *)
Theorem convert_to_annual_rows {V} (c : const)
    (convert : TimeSeries V → result (TimeSeries V))
    (s aseries : TimeSeries V) (m : Z) (rows : list (Date * list (cell V))) :
  FR_DAY c ≤ freq s →
  subday_multiplier c (freq s) = Some m →
  convert s = Ok aseries →
  series aseries = TS2 (Z.to_nat (366 * m)) rows →
  well_shaped (Z.to_nat (366 * m)) rows →
  ∃ rows',
    convert_to_annual c convert s
    = Ok (mkTimeSeries (freq aseries) (TS2 (Z.to_nat (366 * m)) rows'))
    ∧ length rows' = length rows
    ∧ (∀ i d cells,
          rows !! i = Some (d, cells) →
          ∃ cells',
            rows' !! i = Some (d, cells')
            ∧ length cells' = length cells
            ∧ (isleapyear (year d) = true → cells' = cells)
            ∧ (isleapyear (year d) = false →
               ∀ k : nat,
                 (Z.of_nat k < 59 * m → cells' !! k = cells !! k)
                 ∧ (59 * m ≤ Z.of_nat k < 60 * m →
                    ∃ x, cells !! k = Some x
                         ∧ cells' !! k = Some {| data := data x; mask := true |})
                 ∧ (60 * m ≤ Z.of_nat k < 366 * m →
                    cells' !! k = cells !! (k - Z.to_nat m)%nat)))
    ∧ (∀ y y' k,
          isleapyear y = false →
          isleapyear y' = true →
          (0 ≤ k < 59 * m → slot_date y m k = slot_date y' m k)
          ∧ (60 * m ≤ k < 366 * m → slot_date y m (k - m) = slot_date y' m k)
          ∧ (59 * m ≤ k < 60 * m → (slot_date y' m k).1 = Some (2, 29))).
Proof.
  intros Hfreq Hm Hconv Hser Hshape.
  pose proof (subday_multiplier_pos c (freq s) m Hm) as Hpos.
  set (f := fun r : Date * list (cell V) =>
              if isleapyear (year r.1) then Ok r
              else cells ← shift_row (59 * m) (60 * m) r.2; Ok (r.1, cells)).
  assert (Hrows : ∃ rows', mapM f rows = Ok rows').
  { apply mapM_total. apply Forall_forall. intros r _. unfold f.
    destruct (isleapyear (year r.1)); [by eexists|].
    destruct (shift_row_total m r.2 Hpos) as [cells' ->]. by eexists. }
  destruct Hrows as [rows' Hrows]. exists rows'.
  destruct (mapM_Ok_lookup f rows rows' Hrows) as [Hlen Hlook].
  repeat split.
  - unfold convert_to_annual.
    destruct (Z.ltb_spec (freq s) (FR_DAY c)); [lia|].
    rewrite Hconv, bind_Ok, feb_indices_multiplier, Hm. simpl.
    rewrite Hser. fold f. by rewrite Hrows.
  - done.
  - intros i d cells Hi.
    destruct (Hlook i (d, cells) Hi) as ([d' cells'] & Hi' & Hf).
    unfold f in Hf. simpl in Hf.
    assert (Hcells : length cells = Z.to_nat (366 * m)).
    { unfold well_shaped in Hshape. rewrite Forall_lookup in Hshape.
      apply (Hshape i (d, cells) Hi). }
    destruct (isleapyear (year d)) eqn:Hleap.
    + injection Hf as <- <-. exists cells.
      split; [done|]. split; [done|]. split; [done|]. done.
    + destruct (shift_row (59 * m) (60 * m) cells) as [cells''|e] eqn:Hshift;
        [|done].
      simpl in Hf. injection Hf as <- <-. exists cells''.
      destruct (shift_row_lookup m cells cells'' Hpos Hcells Hshift) as [Hl Hk].
      split; [done|]. split; [done|]. split; [done|]. intros _ k.
      destruct (Hk k) as (Hlo & Hfeb & Hhi).
      split; [exact Hlo|]. split; [|exact Hhi].
      intros Hin. destruct (lookup_lt_is_Some_2 cells k) as [x Hx]; [lia|].
      exists x. split; [exact Hx|]. by rewrite (Hfeb Hin), Hx.
  - by apply slot_alignment.
  - by apply slot_alignment.
  - by eapply slot_alignment.
Qed.

Lemma convert_to_annual_rows_witness :
  ∃ rows',
    convert_to_annual table ex_convert (mkTimeSeries (FR_DAY table) (TS1 []))
    = Ok (mkTimeSeries (FR_ANN table) (TS2 (Z.to_nat (366 * 1)) rows'))
    ∧ length rows' = length ex_years
    ∧ (∀ i d cells,
          ex_years !! i = Some (d, cells) →
          ∃ cells',
            rows' !! i = Some (d, cells')
            ∧ length cells' = length cells
            ∧ (isleapyear (year d) = true → cells' = cells)
            ∧ (isleapyear (year d) = false →
               ∀ k : nat,
                 (Z.of_nat k < 59 * 1 → cells' !! k = cells !! k)
                 ∧ (59 * 1 ≤ Z.of_nat k < 60 * 1 →
                    ∃ x, cells !! k = Some x
                         ∧ cells' !! k = Some {| data := data x; mask := true |})
                 ∧ (60 * 1 ≤ Z.of_nat k < 366 * 1 →
                    cells' !! k = cells !! (k - Z.to_nat 1)%nat)))
    ∧ (∀ y y' k,
          isleapyear y = false →
          isleapyear y' = true →
          (0 ≤ k < 59 * 1 → slot_date y 1 k = slot_date y' 1 k)
          ∧ (60 * 1 ≤ k < 366 * 1 → slot_date y 1 (k - 1) = slot_date y' 1 k)
          ∧ (59 * 1 ≤ k < 60 * 1 → (slot_date y' 1 k).1 = Some (2, 29))).
Proof.
  apply (convert_to_annual_rows table ex_convert
           (mkTimeSeries (FR_DAY table) (TS1 []))
           (mkTimeSeries (FR_ANN table) (TS2 366 ex_years)) 1 ex_years).
  - simpl. lia.
  - reflexivity.
  - reflexivity.
  - reflexivity.
  - repeat constructor.
Defined.

(** ** [guess_freq] *)

Lemma insert_sorted_perm (x : Z) (l : list Z) : insert_sorted x l ≡ₚ x :: l.
Proof.
  induction l as [|y l IH]; simpl; [done|].
  destruct (x <=? y); [done|]. rewrite IH. apply Permutation_swap.
Qed.

Lemma insert_sorted_sorted (x : Z) (l : list Z) :
  Sorted Z.le l → Sorted Z.le (insert_sorted x l).
Proof.
  induction 1 as [|y l Hl IH Hy]; simpl; [by repeat constructor|].
  destruct (Z.leb_spec x y).
  - by repeat constructor.
  - constructor; [done|]. destruct Hy as [|z l Hz]; simpl.
    + constructor. lia.
    + destruct (x <=? z); constructor; lia.
Qed.

Lemma np_sort_perm (l : list Z) : np_sort l ≡ₚ l.
Proof.
  induction l as [|x l IH]; simpl; [done|].
  by rewrite insert_sorted_perm, IH.
Qed.

Lemma np_sort_sorted (l : list Z) : Sorted Z.le (np_sort l).
Proof.
  induction l as [|x l IH]; simpl; [constructor|]. by apply insert_sorted_sorted.
Qed.

Lemma np_sort_id (l : list Z) : Sorted Z.le l → np_sort l = l.
Proof.
  induction 1 as [|x l Hl IH Hx]; simpl; [done|]. rewrite IH.
  destruct Hx as [|y l Hy]; simpl; [done|].
  destruct (Z.leb_spec x y); [done|lia].
Qed.

Lemma foldl_min_spec (l : list Z) (x : Z) :
  (foldl Z.min x l = x ∨ In (foldl Z.min x l) l)
  ∧ foldl Z.min x l ≤ x
  ∧ ∀ y, In y l → foldl Z.min x l ≤ y.
Proof.
  revert x. induction l as [|z l IH]; intros x; simpl.
  - split; [by left|]. split; [lia|]. intros y [].
  - destruct (IH (Z.min x z)) as (Hin & Hle & Hall). split; [|split].
    + destruct Hin as [Hin|Hin]; [|by right; right].
      rewrite Hin. destruct (Z.min_spec x z) as [[_ ->]|[_ ->]]; [by left|].
      right. by left.
    + lia.
    + intros y [<-|Hy]; [lia|]. by apply Hall.
Qed.

Lemma py_min_spec (l : list Z) (m : Z) :
  py_min l = Ok m → In m l ∧ ∀ y, In y l → m ≤ y.
Proof.
  destruct l as [|x l]; [done|]. simpl. intros [= <-].
  destruct (foldl_min_spec l x) as (Hin & Hle & Hall). split.
  - destruct Hin as [->|Hin]; [by left|by right].
  - intros y [<-|Hy]; [done|]. by apply Hall.
Qed.

(** The branch of [guess_freq] for gaps with a part of a day, on the parts
    of a day of the gaps ([d.seconds]). *)
Lemma guess_freq_seconds (c : const) (dates : list Z) :
  Exists (fun d => seconds d ≠ 0) (np_diff (np_sort dates)) →
  (Sorted Z.le dates → np_sort dates = dates)
  ∧ ∃ minincs,
      py_min (map seconds (np_diff (np_sort dates))) = Ok minincs
      ∧ In minincs (map seconds (np_diff (np_sort dates)))
      ∧ (∀ d, In d (np_diff (np_sort dates)) → minincs ≤ seconds d)
      ∧ (3599 < minincs →
         Exists (fun d => seconds d mod 3600 = 0) (np_diff (np_sort dates)) →
         guess_freq c dates = Ok (FR_HR c))
      ∧ (minincs < 59 → guess_freq c dates = Ok (FR_SEC c))
      ∧ (59 ≤ minincs →
         ¬ (3599 < minincs
            ∧ Exists (fun d => seconds d mod 3600 = 0) (np_diff (np_sort dates))) →
         guess_freq c dates = Ok (FR_MIN c)).
Proof.
  intros Hex. split; [apply np_sort_id|].
  set (ddif := np_diff (np_sort dates)) in *.
  assert (Hany : existsb (fun i => negb (i =? 0)) (map seconds ddif) = true).
  { apply existsb_exists. apply Exists_exists in Hex as (d & Hd & Hnz).
    exists (seconds d). split.
    - apply in_map. by apply list_elem_of_In.
    - apply negb_true_iff. by apply Z.eqb_neq. }
  destruct (py_min (map seconds ddif)) as [minincs|e] eqn:Hmin.
  2:{ destruct ddif; [by inversion Hex|done]. }
  exists minincs. destruct (py_min_spec _ _ Hmin) as [Hin Hall].
  split; [done|]. split; [done|].
  split; [intros d Hd; apply Hall; by apply in_map|].
  assert (Hhr : negb (forallb (fun i => i mod 3600 >? 0) (map seconds ddif)) = true
                ↔ Exists (fun d => seconds d mod 3600 = 0) ddif).
  { rewrite negb_true_iff, <- not_true_iff_false, forallb_forall, Exists_exists.
    split.
    - intros Hn.
      destruct (decide (Exists (fun d => seconds d mod 3600 = 0) ddif)) as [He|He];
        [by apply Exists_exists in He|].
      exfalso. apply Hn. intros i Hi. apply in_map_iff in Hi as (d & <- & Hd).
      apply Z.gtb_gt.
      assert (seconds d mod 3600 ≠ 0).
      { intros Hz. apply He. apply Exists_exists. exists d.
        split; [by apply list_elem_of_In|done]. }
      pose proof (Z.mod_pos_bound (seconds d) 3600 ltac:(lia)). lia.
    - intros (d & Hd & Hz) Hall'.
      specialize (Hall' (seconds d) (in_map _ _ _ (proj1 (list_elem_of_In _ _) Hd))).
      apply Z.gtb_gt in Hall'. lia. }
  unfold guess_freq. fold ddif. rewrite Hany, Hmin, bind_Ok.
  repeat split.
  - intros Hgt Hmult. apply Hhr in Hmult. rewrite Hmult.
    destruct (Z.gtb_spec minincs 3599); [done|lia].
  - intros Hlt. destruct (Z.gtb_spec minincs 3599); [lia|]. simpl.
    destruct (Z.ltb_spec minincs 59); [done|lia].
  - intros Hge Hnot.
    destruct (Z.ltb_spec minincs 59); [lia|].
    destruct (Z.gtb_spec minincs 3599); simpl; [|done].
    destruct (negb (forallb _ _)) eqn:Hn; [|done].
    exfalso. apply Hnot. split; [done|]. by apply Hhr.
Qed.

Lemma np_diff_nonneg (l : list Z) : Sorted Z.le l → Forall (fun d => 0 ≤ d) (np_diff l).
Proof.
  induction 1 as [|x l Hl IH Hx]; [constructor|].
  destruct Hx as [|y l Hy]; [constructor|].
  simpl. constructor; [lia|exact IH].
Qed.

(** C4, as the code has it: when the gaps between consecutive dates, in
    chronological order, are all shorter than one day and not all zero,
    [guess_freq] returns hourly when the smallest gap exceeds 3599 seconds
    and some gap is an exact multiple of one hour, second when the smallest
    gap is below 59 seconds, and minute otherwise.  For dates given in
    order the gaps are those of the input. *)
Theorem guess_freq_subday (c : const) (dates : list Z) :
  Forall (fun d => d < 86400) (np_diff (np_sort dates)) →
  Exists (fun d => d ≠ 0) (np_diff (np_sort dates)) →
  (Sorted Z.le dates → np_sort dates = dates)
  ∧ ∃ mingap,
      py_min (np_diff (np_sort dates)) = Ok mingap
      ∧ In mingap (np_diff (np_sort dates))
      ∧ (∀ d, In d (np_diff (np_sort dates)) → mingap ≤ d)
      ∧ (3599 < mingap →
         Exists (fun d => d mod 3600 = 0) (np_diff (np_sort dates)) →
         guess_freq c dates = Ok (FR_HR c))
      ∧ (mingap < 59 → guess_freq c dates = Ok (FR_SEC c))
      ∧ (59 ≤ mingap →
         ¬ (3599 < mingap
            ∧ Exists (fun d => d mod 3600 = 0) (np_diff (np_sort dates))) →
         guess_freq c dates = Ok (FR_MIN c)).
Proof.
  intros Hday Hex.
  pose proof (np_diff_nonneg _ (np_sort_sorted dates)) as Hnn.
  set (gaps := np_diff (np_sort dates)) in *.
  assert (Hsec : Forall (fun d => seconds d = d) gaps).
  { pose proof (conj Hnn Hday) as H. rewrite <- Forall_and in H.
    eapply Forall_impl; [exact H|]. intros d [H0 H1]. simpl in *.
    unfold seconds. apply Z.mod_small. lia. }
  assert (Hmap : map seconds gaps = gaps).
  { rewrite <- (map_id gaps) at 2. by apply Forall_fmap_ext_1. }
  assert (Hhour : Exists (fun d => seconds d mod 3600 = 0) gaps
                  ↔ Exists (fun d => d mod 3600 = 0) gaps).
  { rewrite !Exists_exists. rewrite Forall_forall in Hsec.
    split; intros (d & Hd & Hz); exists d; (split; [done|]);
      [by rewrite <- (Hsec d Hd)|by rewrite (Hsec d Hd)]. }
  destruct (guess_freq_seconds c dates) as (Hid & minincs & Hmin & Hin & Hle & Hhr & Hs & Hm).
  { fold gaps. rewrite Exists_exists in Hex |- *. rewrite Forall_forall in Hsec.
    destruct Hex as (d & Hd & Hnz). exists d. split; [done|].
    by rewrite (Hsec d Hd). }
  fold gaps in Hmin, Hin, Hle, Hhr, Hm. rewrite Hmap in Hmin, Hin.
  split; [exact Hid|]. exists minincs.
  split; [exact Hmin|]. split; [exact Hin|]. split.
  { intros d Hd. rewrite Forall_forall in Hsec.
    rewrite <- (Hsec d (proj2 (list_elem_of_In _ _) Hd)). by apply Hle. }
  split; [intros H1 H2; apply Hhr; [done|by apply Hhour]|].
  split; [exact Hs|].
  intros H1 H2. apply Hm; [done|]. intros [H3 H4]. apply H2. split; [done|].
  by apply Hhour.
Qed.

Lemma guess_freq_subday_witness :
  (Sorted Z.le [0; 5400; 10800] → np_sort [0; 5400; 10800] = [0; 5400; 10800])
  ∧ ∃ mingap,
      py_min (np_diff (np_sort [0; 5400; 10800])) = Ok mingap
      ∧ In mingap (np_diff (np_sort [0; 5400; 10800]))
      ∧ (∀ d, In d (np_diff (np_sort [0; 5400; 10800])) → mingap ≤ d)
      ∧ (3599 < mingap →
         Exists (fun d => d mod 3600 = 0) (np_diff (np_sort [0; 5400; 10800])) →
         guess_freq table [0; 5400; 10800] = Ok (FR_HR table))
      ∧ (mingap < 59 → guess_freq table [0; 5400; 10800] = Ok (FR_SEC table))
      ∧ (59 ≤ mingap →
         ¬ (3599 < mingap
            ∧ Exists (fun d => d mod 3600 = 0)
                (np_diff (np_sort [0; 5400; 10800]))) →
         guess_freq table [0; 5400; 10800] = Ok (FR_MIN table)).
Proof.
  apply (guess_freq_subday table [0; 5400; 10800]).
  - repeat constructor.
  - apply Exists_cons_hd. vm_compute. discriminate.
Defined.

(** C4 as stated fails on hourly data: three dates one hour apart have
    gaps that are all exact multiples of one hour, so the stated rule
    gives minute, and [guess_freq] returns hourly.  It fails also where a
    gap reaches one day, since the code looks at the part of a day of each
    gap: after hourly dates and one gap of a day the smallest gap is one
    hour and [guess_freq] returns second, as it does for two dates a day
    and thirty seconds apart. *)
Lemma guess_freq_subday_counterexample :
  Sorted Z.le [0; 3600; 7200]
  ∧ np_diff [0; 3600; 7200] = [3600; 3600]
  ∧ guess_freq table [0; 3600; 7200] = Ok (FR_HR table)
  ∧ claimed_subday_freq table [3600; 3600] 3600 = FR_MIN table
  ∧ FR_HR table ≠ FR_MIN table
  ∧ Sorted Z.le [0; 3600; 7200; 93600]
  ∧ np_diff [0; 3600; 7200; 93600] = [3600; 3600; 86400]
  ∧ py_min [3600; 3600; 86400] = Ok 3600
  ∧ guess_freq table [0; 3600; 7200; 93600] = Ok (FR_SEC table)
  ∧ claimed_subday_freq table [3600; 3600; 86400] 3600 = FR_MIN table
  ∧ np_diff [0; 86430] = [86430]
  ∧ guess_freq table [0; 86430] = Ok (FR_SEC table)
  ∧ claimed_subday_freq table [86430] 86430 = FR_HR table
  ∧ FR_SEC table ≠ FR_MIN table
  ∧ FR_SEC table ≠ FR_HR table.
Proof.
  split; [repeat constructor; lia|].
  do 4 (split; [done|]).
  split; [repeat constructor; lia|]. by repeat split.
Qed.

(** ** [isleapyear] *)

Lemma isleapyear_spec (year : Z) :
  isleapyear year = true
  ↔ year mod 400 = 0 ∨ (year mod 4 = 0 ∧ year mod 100 ≠ 0).
Proof.
  unfold isleapyear.
  rewrite orb_true_iff, andb_true_iff, !Z.eqb_eq, Z.gtb_gt.
  pose proof (Z.mod_pos_bound year 100 ltac:(lia)).
  lia.
Qed.

(** C10: [isleapyear] is the rule of the Gregorian calendar, for one year
    and, element by element, for a sequence of years; 2000 and 2004 are
    leap years, 1900 and 2001 are not. *)
Theorem isleapyear_gregorian :
  (∀ year : Z,
      isleapyear year = true
      ↔ year mod 400 = 0 ∨ (year mod 4 = 0 ∧ year mod 100 ≠ 0))
  ∧ (∀ (years : list Z) (i : nat),
        isleapyear_seq years !! i = isleapyear <$> years !! i)
  ∧ (∀ years : list Z, length (isleapyear_seq years) = length years)
  ∧ isleapyear 2000 = true ∧ isleapyear 1900 = false
  ∧ isleapyear 2004 = true ∧ isleapyear 2001 = false.
Proof.
  split; [exact isleapyear_spec|].
  split; [intros years i; apply list_lookup_fmap|].
  split; [intros years; apply length_map|].
  by repeat split.
Qed.

(** ** [accept_atmost_missing] *)

Lemma np_round_nearest (x : Q) :
  (inject_Z (np_round x) - (1 # 2) <= x <= inject_Z (np_round x) + (1 # 2))%Q.
Proof.
  unfold np_round.
  pose proof (Qfloor_le x) as Hlo. pose proof (Qlt_floor x) as Hhi.
  rewrite inject_Z_plus in Hhi. change (inject_Z 1) with 1%Q in Hhi.
  destruct (Qcompare_spec (x - inject_Z (Qfloor x)) (1 # 2)) as [H|H|H].
  - destruct (Z.even (Qfloor x)); rewrite ?inject_Z_plus;
      change (inject_Z 1) with 1%Q; lra.
  - lra.
  - rewrite inject_Z_plus. change (inject_Z 1) with 1%Q. lra.
Qed.

Lemma np_round_integer (x : Q) (z : Z) : (x == inject_Z z)%Q → np_round x = z.
Proof.
  intros H. unfold np_round.
  assert (Hf : Qfloor x = z) by (by rewrite H, Qfloor_Z).
  rewrite Hf.
  destruct (Qcompare_spec (x - inject_Z z) (1 # 2)) as [H'|H'|H']; [lra|done|lra].
Qed.

Lemma exceeds_spec (strict : bool) (thr : Q) (m : Z) :
  exceeds strict thr m = true
  ↔ if strict then (thr < inject_Z m)%Q else (thr <= inject_Z m)%Q.
Proof.
  unfold exceeds. destruct strict.
  - rewrite negb_true_iff, <- not_true_iff_false, Qle_bool_iff.
    split; [apply Qnot_le_lt|apply Qlt_not_le].
  - apply Qle_bool_iff.
Qed.

Lemma exceeds_mono (strict : bool) (thr : Q) (m m' : Z) :
  m ≤ m' → exceeds strict thr m = true → exceeds strict thr m' = true.
Proof.
  intros Hm. rewrite !exceeds_spec. rewrite Zle_Qle in Hm.
  destruct strict; intros; lra.
Qed.

Lemma mask_rows_lookup {V} (cond : list bool) (rows : list (Date * list (cell V)))
    (i : nat) :
  mask_rows cond rows !! i
  = (fun r => if default false (cond !! i) then (r.1, mask_row r.2) else r)
      <$> rows !! i.
Proof.
  revert rows i. induction cond as [|b cond IH]; intros rows i.
  - rewrite lookup_nil. simpl. replace (mask_rows [] rows) with rows by (by destruct rows).
    by destruct (rows !! i).
  - destruct rows as [|r rows]; [done|]. destruct i as [|i]; simpl; [done|].
    apply IH.
Qed.

Lemma mask_rows_map {V} (f : Date * list (cell V) → bool)
    (rows : list (Date * list (cell V))) :
  mask_rows (map f rows) rows
  = map (fun r => if f r then (r.1, mask_row r.2) else r) rows.
Proof. induction rows as [|r rows IH]; simpl; [done|]. by rewrite IH. Qed.

Lemma length_mask_rows {V} (cond : list bool) (rows : list (Date * list (cell V))) :
  length (mask_rows cond rows) = length rows.
Proof.
  revert rows. induction cond as [|b cond IH]; intros [|r rows]; simpl; try done.
  by rewrite IH.
Qed.

Lemma mask_row_idemp {V} (cells : list (cell V)) :
  mask_row (mask_row cells) = mask_row cells.
Proof. unfold mask_row. rewrite map_map. by apply map_ext. Qed.

(** The counts of a rank-2 series are as many as its rows. *)
Lemma count_missing_length {V} (c : const) (s : TimeSeries V) ncols rows ms :
  series s = TS2 ncols rows →
  count_missing c (PySeries s) = Ok (MArray ms) →
  length ms = length rows.
Proof.
  intros Hs. rewrite (count_missing_TS2 c s ncols rows Hs).
  destruct (correction c (freq s) (Z.of_nat ncols)); simpl; [|done].
  intros [= <-]. by rewrite length_map.
Qed.

Lemma Qpower2_pos (e : Z) : (0 < 2 ^ e)%Q.
Proof. by apply Qpower_0_lt. Qed.

Lemma Qpower2_Z (e : Z) : 0 ≤ e → (2 ^ e == inject_Z (2 ^ e))%Q.
Proof. intros He. by rewrite (Zpower_Qpower 2 e He). Qed.

Lemma Qpower2_neg (e : Z) : 0 ≤ e → (2 ^ (- e) * inject_Z (2 ^ e) == 1)%Q.
Proof.
  intros He. rewrite Qpower_opp, (Qpower2_Z e He).
  rewrite Qmult_comm. apply Qmult_inv_r. intros H.
  assert (0 < 2 ^ e) by (apply Z.pow_pos_nonneg; lia).
  apply (Qlt_irrefl 0). rewrite <- H at 2. change 0%Q with (inject_Z 0).
  by rewrite <- Zlt_Qlt.
Qed.

(** An integer of 53 bits is a double. *)
Lemma fl_integer (x : Q) (z : Z) :
  (x == inject_Z z)%Q → Z.abs z ≤ 2 ^ 53 → (fl x == inject_Z z)%Q.
Proof.
  intros Hx Hz. destruct x as [n0 d].
  assert (Hn0 : n0 = z * Z.pos d).
  { unfold Qeq in Hx. simpl in Hx. lia. }
  unfold fl. simpl Qnum. simpl Qden.
  destruct (Z.eqb_spec (Z.abs n0) 0) as [H0|H0].
  { assert (z = 0) by nia. subst z. reflexivity. }
  set (a := Z.abs z).
  assert (Ha : 0 < a) by (unfold a; nia).
  assert (Habs : Z.abs n0 = a * Z.pos d) by (unfold a; nia).
  assert (Hnd : (Z.abs n0 # d == inject_Z a)%Q).
  { unfold Qeq. simpl. lia. }
  set (L := Z.log2 a).
  assert (HL : 0 ≤ L ≤ 53).
  { split; [apply Z.log2_nonneg|].
    unfold L. rewrite <- (Z.log2_pow2 53) by lia. apply Z.log2_le_mono. unfold a. lia. }
  destruct (Z.log2_spec a Ha) as [Hlo Hhi]. fold L in Hlo, Hhi.
  set (e0 := Z.log2 (Z.abs n0) - Z.log2 (Z.pos d)).
  assert (He0 : e0 = L ∨ e0 = L + 1).
  { unfold e0. rewrite Habs.
    pose proof (Z.log2_mul_below a (Z.pos d) Ha ltac:(lia)).
    pose proof (Z.log2_mul_above a (Z.pos d) ltac:(lia) ltac:(lia)).
    fold L in H, H1. lia. }
  assert (He1 : (if Qle_bool (2 ^ e0) (Z.abs n0 # d) then e0 else e0 - 1) = L).
  { destruct (Qle_bool (2 ^ e0) (Z.abs n0 # d)) eqn:Hle.
    - apply Qle_bool_iff in Hle. rewrite Hnd in Hle.
      destruct He0 as [->| ->]; [done|]. exfalso.
      rewrite (Qpower2_Z (L + 1)) in Hle by lia.
      rewrite <- Zle_Qle in Hle. replace (Z.succ L) with (L + 1) in Hhi by lia. lia.
    - destruct He0 as [->| ->]; [|lia]. exfalso.
      apply not_true_iff_false in Hle. apply Hle. apply Qle_bool_iff.
      rewrite Hnd, (Qpower2_Z L) by lia. by rewrite <- Zle_Qle. }
  rewrite He1.
  replace (Z.max (L - 52) (-1074)) with (L - 52) by lia.
  assert (Hsgn : Z.sgn n0 * a = z) by (unfold a; nia).
  destruct (Z_le_gt_dec L 52) as [H52|H53].
  - (* the mantissa is [a] shifted left *)
    assert (Hm : (((Z.abs n0 # d) / 2 ^ (L - 52)) == inject_Z (a * 2 ^ (52 - L)))%Q).
    { rewrite Hnd. unfold Qdiv. rewrite <- Qpower_opp.
      replace (- (L - 52)) with (52 - L) by lia.
      rewrite (Qpower2_Z (52 - L)) by lia. by rewrite inject_Z_mult. }
    rewrite (np_round_integer _ _ Hm).
    replace (Z.sgn n0 * (a * 2 ^ (52 - L))) with (z * 2 ^ (52 - L)) by nia.
    rewrite inject_Z_mult, <- Qmult_assoc.
    replace (L - 52) with (- (52 - L)) by lia.
    rewrite (Qmult_comm (inject_Z (2 ^ (52 - L)))), Qpower2_neg by lia.
    apply Qmult_1_r.
  - (* [a] is [2 ^ 53] *)
    assert (HL53 : L = 53) by lia. rewrite HL53 in *. clear HL.
    assert (Ha53 : a = 2 ^ 53) by (unfold a in *; lia).
    assert (Hm : (((Z.abs n0 # d) / 2 ^ (53 - 52)) == inject_Z (2 ^ 52))%Q).
    { rewrite Hnd, Ha53. reflexivity. }
    rewrite (np_round_integer _ _ Hm).
    rewrite <- Hsgn, Ha53.
    destruct (Z.sgn n0) as [|p|p] eqn:Hs; try reflexivity;
      pose proof (Z.sgn_spec n0) as Hspec;
      assert (p = 1%positive) as -> by lia; reflexivity.
Qed.

Lemma Qpower2_plus (a b : Z) : (2 ^ (a + b) == 2 ^ a * 2 ^ b)%Q.
Proof. by apply Qpower_plus. Qed.

(** The exponent of the first bit of a positive fraction. *)
Lemma first_bit (n : Z) (d : positive) :
  0 < n →
  let e0 := Z.log2 n - Z.log2 (Z.pos d) in
  let e1 := if Qle_bool (2 ^ e0) (n # d) then e0 else e0 - 1 in
  (2 ^ e1 <= n # d)%Q ∧ (n # d < 2 ^ (e1 + 1))%Q.
Proof.
  intros Hn e0 e1.
  destruct (Z.log2_spec n Hn) as [Hnlo Hnhi].
  destruct (Z.log2_spec (Z.pos d) ltac:(lia)) as [Hdlo Hdhi].
  pose proof (Z.log2_nonneg n) as Hln. pose proof (Z.log2_nonneg (Z.pos d)) as Hld.
  set (ln := Z.log2 n) in *. set (ld := Z.log2 (Z.pos d)) in *.
  assert (Hnd : (n # d == inject_Z n / inject_Z (Z.pos d))%Q) by apply Qmake_Qdiv.
  assert (Hdpos : (0 < inject_Z (Z.pos d))%Q).
  { change 0%Q with (inject_Z 0). rewrite <- Zlt_Qlt. lia. }
  assert (Qnlo : (2 ^ ln <= inject_Z n)%Q).
  { rewrite Qpower2_Z by lia. by rewrite <- Zle_Qle. }
  assert (Qnhi : (inject_Z n < 2 ^ (ln + 1))%Q).
  { rewrite Qpower2_Z by lia. rewrite <- Zlt_Qlt. lia. }
  assert (Qdlo : (2 ^ ld <= inject_Z (Z.pos d))%Q).
  { rewrite Qpower2_Z by lia. by rewrite <- Zle_Qle. }
  assert (Qdhi : (inject_Z (Z.pos d) <= 2 ^ (ld + 1))%Q).
  { rewrite Qpower2_Z by lia. rewrite <- Zle_Qle. lia. }
  assert (Hlow : (2 ^ (e0 - 1) <= n # d)%Q).
  { rewrite Hnd. apply Qle_shift_div_l; [done|].
    apply Qle_trans with (2 ^ (e0 - 1) * 2 ^ (ld + 1))%Q.
    - apply Qmult_le_l; [apply Qpower2_pos|done].
    - rewrite <- Qpower2_plus.
      replace (e0 - 1 + (ld + 1)) with ln by (unfold e0; lia). done. }
  assert (Hhigh : (n # d < 2 ^ (e0 + 1))%Q).
  { rewrite Hnd. apply Qlt_shift_div_r; [done|].
    apply Qlt_le_trans with (2 ^ (ln + 1))%Q; [done|].
    replace (ln + 1) with (e0 + 1 + ld) by (unfold e0; lia). rewrite Qpower2_plus.
    apply Qmult_le_l; [apply Qpower2_pos|done]. }
  unfold e1. destruct (Qle_bool (2 ^ e0) (n # d)) eqn:Hle.
  - apply Qle_bool_iff in Hle. by split.
  - split; [done|]. replace (e0 - 1 + 1) with e0 by lia.
    apply Qnot_le_lt. intros H. apply Qle_bool_iff in H. congruence.
Qed.

(** [fl x] is a double, and a nearest one: a mantissa of at most 53 bits,
    of exactly 53 unless the exponent is the least one, and within half a
    unit of the last place of [x]. *)
Lemma fl_nearest (x : Q) :
  ∃ m e : Z,
    (fl x == inject_Z m * 2 ^ e)%Q
    ∧ Z.abs m ≤ 2 ^ 53
    ∧ -1074 ≤ e
    ∧ (e = -1074 ∨ 2 ^ 52 ≤ Z.abs m)
    ∧ (fl x - 2 ^ e * (1 # 2) <= x <= fl x + 2 ^ e * (1 # 2))%Q.
Proof.
  destruct x as [n0 d]. unfold fl. simpl Qnum. simpl Qden.
  destruct (Z.eqb_spec (Z.abs n0) 0) as [H0|H0].
  { exists 0, (-1074). assert (n0 = 0) by lia. subst n0.
    pose proof (Qpower2_pos (-1074)) as Hp.
    assert (Hz : (0 # d == 0)%Q) by reflexivity.
    split; [by rewrite Qmult_0_l|]. split; [done|]. split; [done|].
    split; [by left|]. rewrite Hz. lra. }
  set (n := Z.abs n0). assert (Hn : 0 < n) by lia.
  destruct (first_bit n d Hn) as [Hlo Hhi]. cbv zeta in Hlo, Hhi.
  set (e1 := if Qle_bool (2 ^ (Z.log2 n - Z.log2 (Z.pos d))) (n # d)
             then Z.log2 n - Z.log2 (Z.pos d)
             else Z.log2 n - Z.log2 (Z.pos d) - 1) in *.
  set (e := Z.max (e1 - 52) (-1074)).
  set (q := ((n # d) / 2 ^ e)%Q).
  pose proof (np_round_nearest q) as [Hmlo Hmhi].
  set (m := np_round q) in *.
  pose proof (Qpower2_pos e) as He.
  assert (Hne : ¬ (2 ^ e == 0)%Q).
  { intros H. rewrite H in He. by apply Qlt_irrefl in He. }
  assert (Ha : (n # d == q * 2 ^ e)%Q).
  { unfold q. by field. }
  assert (Hq53 : (q < inject_Z (2 ^ 53))%Q).
  { unfold q. apply Qlt_shift_div_r; [done|]. eapply Qlt_le_trans; [exact Hhi|].
    rewrite <- (Qpower2_Z 53) by lia. rewrite <- Qpower2_plus.
    apply Qpower_le_compat_l; [lia|lra]. }
  assert (Hq0 : (0 < q)%Q).
  { unfold q. apply Qlt_shift_div_l; [done|]. rewrite Qmult_0_l.
    eapply Qlt_le_trans; [apply (Qpower2_pos e1)|done]. }
  assert (Hm0 : 0 ≤ m).
  { assert (-1 < m); [|lia]. rewrite Zlt_Qlt. change (inject_Z (-1)) with (-1)%Q. lra. }
  assert (Hm53 : m ≤ 2 ^ 53).
  { assert (m < 2 ^ 53 + 1); [|lia].
    rewrite Zlt_Qlt, inject_Z_plus. change (inject_Z 1) with 1%Q. lra. }
  assert (Hm52 : e = e1 - 52 → 2 ^ 52 ≤ m).
  { intros Hee.
    assert (Hq52 : (inject_Z (2 ^ 52) <= q)%Q).
    { unfold q. apply Qle_shift_div_l; [done|].
      rewrite <- (Qpower2_Z 52) by lia. rewrite <- Qpower2_plus.
      replace (52 + e) with e1 by lia. done. }
    assert (2 ^ 52 + -1 < m); [|lia].
    rewrite Zlt_Qlt, inject_Z_plus. change (inject_Z (-1)) with (-1)%Q. lra. }
  assert (Hsgn : Z.abs (Z.sgn n0) = 1) by lia.
  exists (Z.sgn n0 * m), e.
  split; [reflexivity|].
  split; [rewrite Z.abs_mul, Hsgn; lia|].
  split; [lia|].
  split.
  { destruct (Z.max_spec (e1 - 52) (-1074)) as [[_ Hmax]|[_ Hmax]]; [by left|].
    right. rewrite Z.abs_mul, Hsgn. specialize (Hm52 Hmax). lia. }
  destruct (Z.sgn_spec n0) as [[Hpos ->]|[[Hz _]|[Hneg ->]]]; [|lia|].
  - replace n0 with n by lia. rewrite Z.mul_1_l, Ha. nra.
  - assert (Hx : (n0 # d == - (q * 2 ^ e))%Q).
    { rewrite <- Ha. replace n0 with (- n) by lia. reflexivity. }
    assert (Hm : (inject_Z (-1 * m) == - inject_Z m)%Q).
    { replace (-1 * m) with (- m) by lia. by rewrite inject_Z_opp. }
    rewrite Hx, Hm. nra.
Qed.

(** An even width of at most 53 bits and its half are doubles, and so is
    their product with one half. *)
Lemma threshold_half (k : nat) :
  Z.of_nat (2 * k) ≤ 2 ^ 53 →
  threshold (1 # 2) (Z.of_nat (2 * k)) = inject_Z (Z.of_nat k).
Proof.
  intros Hk. unfold threshold. destruct (Qlt_le_dec (1 # 2) 1) as [_|H]; [|lra].
  f_equal. apply np_round_integer.
  assert (Hw : (fl (inject_Z (Z.of_nat (2 * k))) == inject_Z (Z.of_nat (2 * k)))%Q).
  { apply fl_integer; [reflexivity|lia]. }
  apply fl_integer; [|lia].
  rewrite Hw, Nat2Z.inj_mul, inject_Z_mult. change (inject_Z (Z.of_nat 2)) with 2%Q.
  field.
Qed.

(** The product of doubles is the double product: with 5.5 / 12 for
    [max_missing] and twelve columns the exact product is below five and a
    half and would round to five, the product of the code is five and a
    half and rounds to six. *)
Lemma threshold_double_product :
  threshold (fl (11 # 24)) 12 = inject_Z 6
  ∧ (fl (11 # 24) * inject_Z 12 < 11 # 2)%Q
  ∧ np_round (fl (11 # 24) * inject_Z 12) = 5
  ∧ (fl (fl (11 # 24) * fl (inject_Z 12)) == 11 # 2)%Q.
Proof. by vm_compute. Qed.

(** C5: the threshold is [max_missing] itself, or, below one, the product
    of [max_missing] and the trailing width rounded to a nearest integer.
    The product is a product of doubles: a double nearest to the exact
    product, and the exact product itself when that is an integer of at most
    53 bits.  A row of the result is the row of the input with the mask
    bit of every slot set and the stored values kept when its count, as
    [count_missing] gives it, is above the threshold ([strict]) or not below
    it (otherwise), and the row of the input unchanged if not.  A series of
    rank 1 is one such row.  With [max_missing] one half and an even width,
    a row whose count is half the width is masked without [strict] and
    unchanged with it. *)
Theorem accept_atmost_missing_masks {V} (c : const) (s : TimeSeries V)
    (max_missing : Q) (strict : bool) (missing : missing_t) :
  count_missing c (PySeries s) = Ok missing →
  let thr := threshold max_missing (last_dim s) in
  let product := fl (max_missing * fl (inject_Z (last_dim s))) in
  let reached (m : Z) :=
    if strict then (thr < inject_Z m)%Q else (thr <= inject_Z m)%Q in
  ((max_missing < 1)%Q →
   thr = inject_Z (np_round product)
   ∧ (thr - (1 # 2) <= product <= thr + (1 # 2))%Q
   ∧ (last_dim s ≤ 2 ^ 53 →
      ∃ m e : Z,
        (product == inject_Z m * 2 ^ e)%Q
        ∧ Z.abs m ≤ 2 ^ 53
        ∧ -1074 ≤ e
        ∧ (e = -1074 ∨ 2 ^ 52 ≤ Z.abs m)
        ∧ (product - 2 ^ e * (1 # 2)
           <= max_missing * inject_Z (last_dim s)
           <= product + 2 ^ e * (1 # 2))%Q)
   ∧ ∀ p : Z,
       (max_missing * inject_Z (last_dim s) == inject_Z p)%Q →
       last_dim s ≤ 2 ^ 53 → Z.abs p ≤ 2 ^ 53 →
       thr = inject_Z p)
  ∧ (¬ (max_missing < 1)%Q → thr = max_missing)
  ∧ (∀ ncols rows ms,
        series s = TS2 ncols rows →
        missing = MArray ms →
        ∃ rows',
          accept_atmost_missing c (PySeries s) max_missing strict
          = Ok (mkTimeSeries (freq s) (TS2 ncols rows'))
          ∧ length rows' = length rows
          ∧ ∀ i r,
              rows !! i = Some r →
              ∃ m r',
                ms !! i = Some m
                ∧ rows' !! i = Some r'
                ∧ (reached m →
                   r' = (r.1, map (fun x => {| data := data x; mask := true |}) r.2))
                ∧ (¬ reached m → r' = r))
  ∧ (∀ xs m,
        series s = TS1 xs →
        missing = MScalar m →
        ∃ xs',
          accept_atmost_missing c (PySeries s) max_missing strict
          = Ok (mkTimeSeries (freq s) (TS1 xs'))
          ∧ (reached m →
             xs' = map (fun x => (x.1, {| data := data x.2; mask := true |})) xs)
          ∧ (¬ reached m → xs' = xs))
  ∧ (∀ k rows ms i r,
        series s = TS2 (2 * k) rows →
        Z.of_nat (2 * k) ≤ 2 ^ 53 →
        missing = MArray ms →
        rows !! i = Some r →
        ms !! i = Some (Z.of_nat k) →
        (∃ rows',
            accept_atmost_missing c (PySeries s) (1 # 2) false
            = Ok (mkTimeSeries (freq s) (TS2 (2 * k) rows'))
            ∧ rows' !! i
              = Some (r.1, map (fun x => {| data := data x; mask := true |}) r.2))
        ∧ (∃ rows',
              accept_atmost_missing c (PySeries s) (1 # 2) true
              = Ok (mkTimeSeries (freq s) (TS2 (2 * k) rows'))
              ∧ rows' !! i = Some r)).
Proof.
  intros Hcm thr product reached.
  assert (Hreached : ∀ m, exceeds strict thr m = true ↔ reached m).
  { intros m. apply exceeds_spec. }
  assert (Hrank2 : ∀ mm st ncols rows ms,
             series s = TS2 ncols rows →
             missing = MArray ms →
             accept_atmost_missing c (PySeries s) mm st
             = Ok (mkTimeSeries (freq s)
                     (TS2 ncols (mask_rows
                                   (map (exceeds st (threshold mm (Z.of_nat ncols))) ms)
                                   rows)))).
  { intros mm st ncols rows ms Hs ->. unfold accept_atmost_missing.
    rewrite Hcm, bind_Ok. unfold last_dim. by rewrite Hs. }
  split; [|split; [|split; [|split]]].
  - intros Hlt. unfold thr, threshold.
    destruct (Qlt_le_dec max_missing 1) as [_|H]; [|lra].
    split; [done|]. split; [apply np_round_nearest|].
    assert (Hwidth : last_dim s ≤ 2 ^ 53 →
                     (fl (inject_Z (last_dim s)) == inject_Z (last_dim s))%Q).
    { intros Hw. apply fl_integer; [reflexivity|].
      assert (0 ≤ last_dim s) by (unfold last_dim; destruct (series s); lia).
      lia. }
    split.
    + intros Hw. specialize (Hwidth Hw).
      destruct (fl_nearest (max_missing * fl (inject_Z (last_dim s))))
        as (m & e & Hm & Hm53 & He & Hm52 & Hnear).
      exists m, e. fold product in Hm, Hnear.
      do 4 (split; [done|]). clearbody product. by rewrite Hwidth in Hnear.
    + intros p Hp Hw Hpb. f_equal. apply np_round_integer.
      apply fl_integer; [|done]. by rewrite (Hwidth Hw).
  - intros Hge. unfold thr, threshold.
    by destruct (Qlt_le_dec max_missing 1).
  - intros ncols rows ms Hs Hms.
    eexists. split; [by apply Hrank2|].
    split; [apply length_mask_rows|].
    intros i r Hi.
    assert (Hlen : length ms = length rows).
    { subst missing. by eapply count_missing_length. }
    destruct (lookup_lt_is_Some_2 ms i) as [m Hm].
    { rewrite Hlen. by eapply lookup_lt_Some. }
    exists m. eexists. split; [done|].
    rewrite mask_rows_lookup, Hi, list_lookup_fmap, Hm. simpl.
    split; [done|].
    replace (threshold max_missing (Z.of_nat ncols)) with thr
      by (unfold thr, last_dim; by rewrite Hs).
    destruct (exceeds strict thr m) eqn:Hex.
    + split; [done|]. intros Hn. destruct Hn. by apply Hreached.
    + split; [|done]. intros Hr. apply Hreached in Hr. congruence.
  - intros xs m Hs ->. unfold accept_atmost_missing.
    rewrite Hcm, bind_Ok. rewrite Hs. fold thr.
    destruct (exceeds strict thr m) eqn:Hex.
    + eexists. split; [done|]. split; [done|].
      intros Hn. destruct Hn. by apply Hreached.
    + exists xs. split; [|split; [|done]].
      * destruct s as [fq ser]. simpl in Hs. by subst ser.
      * intros Hr. apply Hreached in Hr. congruence.
  - intros k rows ms i r Hs Hk Hms Hi Hm. split.
    + eexists. split; [by apply Hrank2|].
      rewrite mask_rows_lookup, Hi, list_lookup_fmap, Hm, threshold_half by done.
      simpl.
      replace (exceeds false (inject_Z (Z.of_nat k)) (Z.of_nat k)) with true; [done|].
      symmetry. apply exceeds_spec. lra.
    + eexists. split; [by apply Hrank2|].
      rewrite mask_rows_lookup, Hi, list_lookup_fmap, Hm, threshold_half by done.
      simpl.
      replace (exceeds true (inject_Z (Z.of_nat k)) (Z.of_nat k)) with false; [done|].
      symmetry. apply not_true_iff_false. rewrite exceeds_spec. lra.
Qed.

Lemma accept_atmost_missing_masks_witness :
  ∃ rows',
    accept_atmost_missing table (PySeries ex_pivot) (1 # 2) false
    = Ok (mkTimeSeries (freq ex_pivot) (TS2 12 rows'))
    ∧ rows' !! 0%nat
      = Some (mkDate 2001 1 0,
              map (fun x => {| data := data x; mask := true |}) (row_of 6 6)).
Proof.
  destruct (proj1 (proj2 (proj2 (proj2 (proj2
              (accept_atmost_missing_masks table ex_pivot (1 # 2) false
                 (MArray [6; 9]) eq_refl))))
              6%nat _ [6; 9] 0%nat _ eq_refl ltac:(vm_compute; discriminate)
              eq_refl eq_refl eq_refl)) as (rows' & Hret & Hrow).
  exists rows'. by split.
Defined.

(** What [accept_atmost_missing] makes of a row, given the correction of
    its date. *)
Lemma accept_atmost_missing_TS2 {V} (c : const) (fq : Z) (ncols : nat)
    (rows : list (Date * list (cell V))) (max_missing : Q) (strict : bool) :
  accept_atmost_missing c (PySeries (mkTimeSeries fq (TS2 ncols rows)))
    max_missing strict
  = (corr ← correction c fq (Z.of_nat ncols);
     Ok (mkTimeSeries fq
           (TS2 ncols
              (map (fun r =>
                      if exceeds strict (threshold max_missing (Z.of_nat ncols))
                           (raw_missing ncols r - corr r.1)
                      then (r.1, mask_row r.2) else r) rows)))).
Proof.
  unfold accept_atmost_missing.
  rewrite (count_missing_TS2 c (mkTimeSeries fq (TS2 ncols rows)) ncols rows eq_refl).
  change (freq (mkTimeSeries fq (TS2 ncols rows))) with fq.
  destruct (correction c fq (Z.of_nat ncols)) as [corr|e]; [|done].
  rewrite !bind_Ok.
  change (series (mkTimeSeries fq (TS2 ncols rows))) with (TS2 ncols rows).
  cbv beta iota. rewrite map_map. unfold last_dim.
  change (series (mkTimeSeries fq (TS2 ncols rows))) with (TS2 ncols rows).
  cbv beta iota.
  by rewrite (mask_rows_map
                (fun r => exceeds strict (threshold max_missing (Z.of_nat ncols))
                            (raw_missing ncols r - corr r.1)) rows).
Qed.

Lemma accept_atmost_missing_TS1 {V} (c : const) (fq : Z)
    (xs : list (Date * cell V)) (max_missing : Q) (strict : bool) :
  accept_atmost_missing c (PySeries (mkTimeSeries fq (TS1 xs))) max_missing strict
  = Ok (if exceeds strict (threshold max_missing (Z.of_nat (length xs)))
             (Z.of_nat (length xs) - count (map snd xs))
        then mkTimeSeries fq (TS1 (map (fun x => (x.1, masked x.2)) xs))
        else mkTimeSeries fq (TS1 xs)).
Proof. reflexivity. Qed.

(** C7: applying [accept_atmost_missing] to its own result, with the same
    threshold and the same strictness, gives that result again; a call
    that raises has no result to apply it to. *)
Theorem accept_atmost_missing_idempotent {V} (c : const) (x : pyobj V)
    (max_missing : Q) (strict : bool) :
  (accept_atmost_missing c x max_missing strict
   ≫= fun s' => accept_atmost_missing c (PySeries s') max_missing strict)
  = accept_atmost_missing c x max_missing strict.
Proof.
  destruct x as [|[fq [d x|xs|ncols rows|extra n]]]; try done.
  - (* rank 1 *)
    rewrite accept_atmost_missing_TS1.
    set (thr := threshold max_missing (Z.of_nat (length xs))).
    destruct (exceeds strict thr (Z.of_nat (length xs) - count (map snd xs)))
      eqn:Hex; rewrite bind_Ok, accept_atmost_missing_TS1.
    + rewrite length_map. fold thr.
      assert (Hcount : count (map snd (map (fun x : Date * cell V => (x.1, masked x.2)) xs)) = 0).
      { rewrite map_map. simpl. rewrite <- (map_map snd masked).
        apply (count_mask_row (map snd xs)). }
      rewrite Hcount.
      assert (Hmore : Z.of_nat (length xs) - count (map snd xs)
                      ≤ Z.of_nat (length xs) - 0).
      { pose proof (count_nonneg (map snd xs)). lia. }
      rewrite (exceeds_mono strict thr _ _ Hmore Hex).
      do 3 f_equal. rewrite map_map. by apply map_ext.
    + fold thr. by rewrite Hex.
  - (* rank 2 *)
    rewrite accept_atmost_missing_TS2.
    destruct (correction c fq (Z.of_nat ncols)) as [corr|e] eqn:Hcorr; [|done].
    rewrite !bind_Ok, accept_atmost_missing_TS2, Hcorr, bind_Ok.
    do 3 f_equal. rewrite map_map. apply map_ext. intros r.
    set (thr := threshold max_missing (Z.of_nat ncols)).
    destruct (exceeds strict thr (raw_missing ncols r - corr r.1)) eqn:Hex.
    + simpl. rewrite mask_row_idemp.
      assert (Hmore : raw_missing ncols r - corr r.1
                      ≤ raw_missing ncols (r.1, mask_row r.2) - corr r.1).
      { unfold raw_missing. simpl. rewrite count_mask_row.
        pose proof (count_nonneg r.2). lia. }
      by rewrite (exceeds_mono strict thr _ _ Hmore Hex).
    + by rewrite Hex.
Qed.

(** ** [tsfromtxt] *)

Lemma bind_Ok_inv {A B} (r : result A) (f : A → result B) (b : B) :
  r ≫= f = Ok b → ∃ a, r = Ok a ∧ f a = Ok b.
Proof. destruct r as [a|e]; [|done]. intros H. by exists a. Qed.

Lemma take_idx_Ok {A} (l : list A) (idx : list nat) (l' : list A) :
  take_idx l idx = Ok l' ↔ Forall2 (fun i x => l !! i = Some x) idx l'.
Proof.
  unfold take_idx. rewrite mapM_Ok.
  split; intros H; (eapply Forall2_impl; [exact H|]); intros i x;
    unfold getitem; destruct (l !! i); congruence.
Qed.

Lemma zip_seq_lookup {A} (l : list A) (p : A * nat) :
  p ∈ zip l (seq 0 (length l)) → l !! p.2 = Some p.1.
Proof.
  intros (i & Hi)%list_elem_of_lookup_1.
  apply lookup_zip_with_Some in Hi as (x & j & -> & Hx & Hj).
  apply lookup_seq in Hj as [-> _]. done.
Qed.

Lemma argsort_perm (dates : list Z) :
  argsort dates ≡ₚ seq 0 (length dates).
Proof.
  unfold argsort. rewrite merge_sort_Permutation.
  rewrite snd_zip; [done|]. rewrite length_seq. lia.
Qed.

(** Indexing the dates by [argsort] succeeds and gives them in order. *)
Lemma take_idx_argsort (dates : list Z) :
  take_idx dates (argsort dates)
  = Ok (map fst (merge_sort date_le (zip dates (seq 0 (length dates))))).
Proof.
  apply take_idx_Ok. unfold argsort.
  apply Forall2_fmap, Forall_Forall2_diag, Forall_forall. intros p Hp.
  apply zip_seq_lookup. by rewrite <- merge_sort_Permutation.
Qed.

Lemma sorted_dates_perm (dates : list Z) :
  map fst (merge_sort date_le (zip dates (seq 0 (length dates)))) ≡ₚ dates.
Proof.
  rewrite merge_sort_Permutation. rewrite fst_zip; [done|].
  rewrite length_seq. lia.
Qed.

Lemma sorted_dates_sorted (dates : list Z) :
  Sorted Z.le (map fst (merge_sort date_le (zip dates (seq 0 (length dates))))).
Proof.
  pose proof (Sorted_merge_sort date_le (zip dates (seq 0 (length dates)))) as H.
  induction H as [|p l Hl IH Hp]; simpl; [constructor|].
  constructor; [done|]. destruct Hp; simpl; by constructor.
Qed.

Lemma Sorted_le_lt (l : list Z) : Sorted Z.le l → NoDup l → Sorted Z.lt l.
Proof.
  induction 1 as [|x l Hl IH Hx]; intros Hnd; [constructor|].
  apply NoDup_cons in Hnd as [Hx' Hnd]. constructor; [by apply IH|].
  destruct Hx as [|y l Hy]; constructor.
  assert (x ≠ y) by (intros ->; apply Hx'; by left). lia.
Qed.

Lemma column_Ok {F} (mrec : mrec_t F) (i : nat) (col : list F) :
  column mrec i = Ok col →
  Forall2 (fun row x => row !! i = Some x) (mr_rows mrec) col.
Proof.
  unfold column. intros (_ & _ & H)%bind_Ok_inv.
  apply mapM_Ok in H. eapply Forall2_impl; [exact H|].
  intros row x. unfold getitem. destruct (row !! i); congruence.
Qed.

Lemma omap_seq_Forall2 {A B} (P : A → B → Prop) (f : nat → option B) (l : list A) :
  (∀ k x, l !! k = Some x → ∃ y, f k = Some y ∧ P x y) →
  Forall2 P l (omap f (seq 0 (length l))).
Proof.
  induction l as [|x l IH] using rev_ind; intros H; [constructor|].
  replace (length (l ++ [x])) with (S (length l)) by (rewrite length_app; simpl; lia).
  rewrite seq_S, omap_app. simpl.
  destruct (H (length l) x) as (y & Hy & Hxy).
  { by rewrite lookup_app_r, Nat.sub_diag. }
  rewrite Hy. apply Forall2_app; [|by repeat constructor].
  apply IH. intros k x' Hk. apply H. rewrite lookup_app_l; [done|].
  by eapply lookup_lt_Some.
Qed.

(** The rows [zip] makes of the date columns are, line by line, the date
    fields of the parsed lines. *)
Lemma py_zip_star_rows {F} (rows : list (list F)) (cols : list nat)
    (dateinfo : list (list F)) :
  cols ≠ [] →
  Forall2 (fun c col => Forall2 (fun row x => row !! c = Some x) rows col)
    cols dateinfo →
  Forall2 (fun (row args : list F) => Forall2 (fun c x => row !! c = Some x) cols args)
    rows (py_zip_star dateinfo).
Proof.
  intros Hne Hcols. unfold py_zip_star.
  destruct Hcols as [|c col cols dateinfo Hc Hcols]; [done|]. clear Hne.
  rewrite <- (Forall2_length _ _ _ Hc).
  apply omap_seq_Forall2. intros k row Hk.
  assert (Hall : Forall2 (fun c col => Forall2 (fun (row : list F) x => row !! c = Some x) rows col)
                   (c :: cols) (col :: dateinfo)) by (by constructor).
  clear Hc Hcols. revert Hall. generalize (c :: cols) (col :: dateinfo).
  intros cs ds Hall. induction Hall as [|c' col' cs ds Hc' _ IH]; simpl.
  - exists []. split; [done|constructor].
  - destruct (Forall2_lookup_l _ _ _ _ _ Hc' Hk) as (x & Hx & Hrow).
    destruct IH as (args & Hargs & Hfields).
    exists (x :: args). split; [|by constructor].
    rewrite Hx. simpl. by rewrite Hargs.
Qed.

(** What a call of [tsfromtxt] that returns has done: [sorted] is the
    series it has built when it comes to the last step. *)
Lemma tsfromtxt_Ok {F} (genfromtxt : kwargs → result (mrec_t F))
    (view : view_arg → loaded F → result (loaded F))
    (dtype : option dtype_t) (converters : gmap nat conv_t)
    (datecols usecols : option (list nat))
    (dateconv : list F → result Z) (out : loaded F) :
  tsfromtxt genfromtxt view dtype converters datecols usecols dateconv = Ok out →
  ∃ kw mrec cols dateinfo dates sdates srows sorted,
    genfromtxt kw = Ok mrec
    ∧ (datecols = None → cols ≠ [])
    ∧ mapM (column mrec) cols = Ok dateinfo
    ∧ match dateinfo with
      | [col] => mapM (fun x => dateconv [x]) col
      | _ => mapM dateconv (py_zip_star dateinfo)
      end = Ok dates
    ∧ take_idx dates (argsort dates) = Ok sdates
    ∧ take_idx (mr_rows mrec) (argsort dates) = Ok srows
    ∧ sorted = mkLoaded sdates (data_fields cols <$> mr_names mrec)
                 (map (data_fields cols) srows)
    ∧ (dtype = None → out = sorted)
    ∧ (out = sorted ∨ ∃ arg, view arg sorted = Ok out).
Proof.
  unfold tsfromtxt.
  intros (kw & _ & H)%bind_Ok_inv.
  apply bind_Ok_inv in H as (mrec & Hg & H).
  apply bind_Ok_inv in H as (cols0 & Hcols0 & H).
  apply bind_Ok_inv in H as (cols & Hcols & H).
  apply bind_Ok_inv in H as (dateinfo & Hinfo & H).
  apply bind_Ok_inv in H as (dates & Hdates & H).
  apply bind_Ok_inv in H as (sdates & Hsd & H).
  apply bind_Ok_inv in H as (srows & Hsr & H).
  exists kw, mrec, cols, dateinfo, dates, sdates, srows. eexists.
  split; [done|]. split.
  { intros ->. simpl in Hcols0.
    assert (cols0 ≠ []) as Hne0.
    { destruct (map fst _) eqn:Hf in Hcols0; [done|]. by injection Hcols0 as <-. }
    destruct usecols as [usecols|]; [|by injection Hcols as <-].
    apply mapM_Ok, Forall2_length in Hcols. destruct cols0, cols; done. }
  do 5 (split; [done|]). split.
  - intros ->. destruct (mr_names mrec) as [[|name names]|]; by injection H as <-.
  - destruct (mr_names mrec) as [[|name names]|], dtype as [idtype|];
      try (left; by injection H as <-).
    right. eexists. exact H.
Qed.

(** C9, as the code has it: a call of [tsfromtxt] that returns has built
    one date per parsed line, from the date fields of the line, and a
    series, [sorted], of the dates in ascending order, strictly so when no
    two lines have the same date, together with the other fields of each
    line, dates and fields taken at the same indices, which are a
    permutation of the line numbers.  That series is returned as it is when
    no dtype is given, and is what the container's [view] is called on if
    not; a view that keeps the dates returns these dates. *)
Theorem tsfromtxt_sorted {F} (genfromtxt : kwargs → result (mrec_t F))
    (view : view_arg → loaded F → result (loaded F))
    (dtype : option dtype_t) (converters : gmap nat conv_t)
    (datecols usecols : option (list nat))
    (dateconv : list F → result Z) (out : loaded F) :
  tsfromtxt genfromtxt view dtype converters datecols usecols dateconv = Ok out →
  ∃ kw mrec cols dates sortidx sorted,
    genfromtxt kw = Ok mrec
    ∧ (datecols = None → cols ≠ [])
    ∧ (cols ≠ [] →
       Forall2 (fun row d =>
                  ∃ args, Forall2 (fun c x => row !! c = Some x) cols args
                          ∧ dateconv args = Ok d)
         (mr_rows mrec) dates)
    ∧ sortidx ≡ₚ seq 0 (length dates)
    ∧ Forall2 (fun i d => dates !! i = Some d) sortidx (out_dates sorted)
    ∧ Forall2 (fun i fields =>
                 data_fields cols <$> mr_rows mrec !! i = Some fields)
        sortidx (out_rows sorted)
    ∧ Sorted Z.le (out_dates sorted)
    ∧ (NoDup dates → Sorted Z.lt (out_dates sorted))
    ∧ (dtype = None → out = sorted)
    ∧ (out = sorted ∨ ∃ arg, view arg sorted = Ok out)
    ∧ ((∀ arg x y, view arg x = Ok y → out_dates y = out_dates x) →
       out_dates out = out_dates sorted).
Proof.
  intros (kw & mrec & cols & dateinfo & dates & sdates & srows & sorted
          & Hg & Hne & Hinfo & Hdates & Hsd & Hsr & -> & Hnone & Hview)%tsfromtxt_Ok.
  exists kw, mrec, cols, dates, (argsort dates),
    (mkLoaded sdates (data_fields cols <$> mr_names mrec)
       (map (data_fields cols) srows)).
  simpl.
  assert (Hsorted : sdates
                    = map fst (merge_sort date_le (zip dates (seq 0 (length dates))))).
  { rewrite take_idx_argsort in Hsd. by injection Hsd. }
  split; [done|]. split; [done|].
  split; [|split; [|split; [|split; [|split; [|split; [|split; [|split]]]]]]].
  - intros Hcols.
    assert (Hcolumns : Forall2 (fun c col =>
                Forall2 (fun (row : list F) x => row !! c = Some x) (mr_rows mrec) col)
              cols dateinfo).
    { apply mapM_Ok in Hinfo. eapply Forall2_impl; [exact Hinfo|].
      intros c col. apply column_Ok. }
    destruct dateinfo as [|col [|col2 rest]].
    + by inversion Hcolumns; subst.
    + inversion Hcolumns as [|c col' cols' l' Hc Hrest]; subst.
      inversion Hrest; subst. apply mapM_Ok in Hdates.
      eapply Forall2_trans; [|exact Hc|exact Hdates].
      intros row x d Hx Hd. exists [x]. split; [by repeat constructor|done].
    + apply mapM_Ok in Hdates.
      eapply Forall2_trans; [|exact (py_zip_star_rows _ _ _ Hcols Hcolumns)|exact Hdates].
      intros row args d Hargs Hd. by exists args.
  - apply argsort_perm.
  - by apply take_idx_Ok.
  - apply take_idx_Ok in Hsr. apply Forall2_fmap_r.
    eapply Forall2_impl; [exact Hsr|]. intros i row Hi. by rewrite Hi.
  - rewrite Hsorted. apply sorted_dates_sorted.
  - intros Hnd. apply Sorted_le_lt.
    + rewrite Hsorted. apply sorted_dates_sorted.
    + rewrite Hsorted. by rewrite sorted_dates_perm.
  - exact Hnone.
  - exact Hview.
  - intros Hkeep. destruct Hview as [->|[arg Harg]]; [done|].
    by apply Hkeep in Harg.
Qed.

Lemma tsfromtxt_sorted_witness :
  tsfromtxt ex_parser ex_view None ∅ None None ex_dateconv
  = Ok (mkLoaded [1; 2; 3] (Some ["a"]%string) [[10]; [20]; [30]])
  ∧ ∃ kw mrec cols dates sortidx sorted,
      ex_parser kw = Ok mrec
      ∧ (@None (list nat) = None → cols ≠ [])
      ∧ (cols ≠ [] →
         Forall2 (fun row d =>
                    ∃ args, Forall2 (fun c x => row !! c = Some x) cols args
                            ∧ ex_dateconv args = Ok d)
           (mr_rows mrec) dates)
      ∧ sortidx ≡ₚ seq 0 (length dates)
      ∧ Forall2 (fun i d => dates !! i = Some d) sortidx (out_dates sorted)
      ∧ Forall2 (fun i fields =>
                   data_fields cols <$> mr_rows mrec !! i = Some fields)
          sortidx (out_rows sorted)
      ∧ Sorted Z.le (out_dates sorted)
      ∧ (NoDup dates → Sorted Z.lt (out_dates sorted))
      ∧ (@None dtype_t = None
         → mkLoaded [1; 2; 3] (Some ["a"]%string) [[10]; [20]; [30]] = sorted)
      ∧ (mkLoaded [1; 2; 3] (Some ["a"]%string) [[10]; [20]; [30]] = sorted
         ∨ ∃ arg, ex_view arg sorted
                  = Ok (mkLoaded [1; 2; 3] (Some ["a"]%string) [[10]; [20]; [30]]))
      ∧ ((∀ arg (x y : loaded Z), ex_view arg x = Ok y
                                → out_dates y = out_dates x) →
         [1; 2; 3] = out_dates sorted).
Proof.
  split; [reflexivity|].
  apply (tsfromtxt_sorted ex_parser ex_view None ∅ None None ex_dateconv
           (mkLoaded [1; 2; 3] (Some ["a"]%string) [[10]; [20]; [30]])).
  reflexivity.
Defined.

(** C9 as stated fails when two lines carry the same date: of three lines
    out of chronological order, the last two of one date, the dates
    returned are in ascending order, but not strictly, and each date has
    the fields of a line of that date. *)
Lemma tsfromtxt_sorted_counterexample :
  (mr_rows <$> ex_parser_dup (mkKwargs None ∅)) = Ok [[2; 20]; [1; 30]; [1; 10]]
  ∧ ¬ Sorted Z.le [2; 1; 1]
  ∧ (∃ rows,
        tsfromtxt ex_parser_dup ex_view None ∅ None None ex_dateconv
        = Ok (mkLoaded [1; 1; 2] (Some ["a"]%string) rows)
        ∧ rows ≡ₚ [[20]; [30]; [10]]
        ∧ rows !! 2%nat = Some [20])
  ∧ ¬ Sorted Z.lt [1; 1; 2].
Proof.
  split; [reflexivity|]. split.
  { intros H. apply Sorted_inv in H as [_ H]. apply HdRel_inv in H. lia. }
  split.
  { eexists. split; [reflexivity|]. split; [|reflexivity].
    vm_compute. etrans; [apply perm_swap|]. symmetry.
    apply (Permutation_cons_append [[30]; [10]] [20]). }
  intros H. apply Sorted_inv in H as [_ H]. apply HdRel_inv in H. lia.
Qed.

(** ** Storage *)

Lemma fresh_obj {V} (σ : store V) : objs σ !! fresh (dom (objs σ)) = None.
Proof. apply not_elem_of_dom, is_fresh. Qed.

Lemma fresh_buf {V} (m : gmap positive (buffer V)) : m !! fresh (dom m) = None.
Proof. apply not_elem_of_dom, is_fresh. Qed.

Lemma M_bind_inv {V A B} (m : M V A) (f : A → M V B) (σ σ' : store V) (b : B) :
  (m ≫= f) σ = Ok (b, σ') → ∃ a σ1, m σ = Ok (a, σ1) ∧ f a σ1 = Ok (b, σ').
Proof.
  unfold mbind, M_bind. destruct (m σ) as [[a σ1]|e]; [|done].
  intros H. by exists a, σ1.
Qed.

(** What the copy on entry does to the store. *)
Lemma np_array_copy_series {V} (o o' : positive) (σ σ1 : store V) (t1 : tsobj) :
  np_array_copy o σ = Ok (o', σ1) →
  objs σ1 !! o' = Some (VSeries t1) →
  ∃ t b,
    objs σ !! o = Some (VSeries t)
    ∧ bufs σ !! o_data t = Some b
    ∧ o' = fresh (dom (objs σ))
    ∧ t1 = mkObj (o_freq t) (o_dates t) (o_shape t) (fresh (dom (bufs σ)))
             (o_mask t) true
    ∧ σ1 = mkStore (<[o' := VSeries t1]> (objs σ))
             (<[fresh (dom (bufs σ)) := b]> (bufs σ)).
Proof.
  unfold np_array_copy. intros (v & σ0 & Hget & H)%M_bind_inv.
  unfold get_obj in Hget. destruct (objs σ !! o) as [v'|] eqn:Ho; [|done].
  injection Hget as -> <-. destruct v as [|t].
  - unfold new_obj in H. injection H as <- <-. simpl.
    rewrite lookup_insert_eq. done.
  - apply M_bind_inv in H as (b & σa & Hb & H).
    unfold get_buf in Hb. destruct (bufs σ !! o_data t) as [b'|] eqn:Hd; [|done].
    injection Hb as -> <-.
    apply M_bind_inv in H as (l & σb & Hl & H).
    unfold new_buf in Hl. injection Hl as <- <-.
    unfold new_obj in H. injection H as <- <-. simpl.
    rewrite lookup_insert_eq. intros [= <-]. by exists t, b.
Qed.

(** The store after a call of [accept_atmost_missing] that returns: one
    new object, over one new buffer with the values of the argument and
    one new buffer with the mask of the result. *)
Lemma accept_atmost_missing_st_Ok {V} (c : const) (σ σ' : store V)
    (o o' : positive) (max_missing : Q) (strict : bool) :
  accept_atmost_missing_st c o max_missing strict σ = Ok (o', σ') →
  ∃ t b s s' l2,
    let l1 := fresh (dom (bufs σ)) in
    let t1 := mkObj (o_freq t) (o_dates t) (o_shape t) l1 (o_mask t) true in
    let t' := mkObj (o_freq t) (o_dates t) (o_shape t) l1 (Some l2) false in
    objs σ !! o = Some (VSeries t)
    ∧ bufs σ !! o_data t = Some b
    ∧ o' = fresh (dom (objs σ))
    ∧ view (mkStore (<[o' := VSeries t1]> (objs σ)) (<[l1 := b]> (bufs σ))) t1
      = Some s
    ∧ accept_atmost_missing c (PySeries s) max_missing strict = Ok s'
    ∧ l2 ≠ l1 ∧ bufs σ !! l2 = None
    ∧ objs σ' = <[o' := VSeries t']> (objs σ)
    ∧ bufs σ' = <[l2 := MaskBuf (flat_mask s')]> (<[l1 := b]> (bufs σ)).
Proof.
  intros Hrun.
  unfold accept_atmost_missing_st in Hrun.
  apply M_bind_inv in Hrun as (oc & σ1 & Hcopy & Hrun).
  apply M_bind_inv in Hrun as (v & σ1' & Hget & Hrun).
  unfold get_obj in Hget. destruct (objs σ1 !! oc) as [v'|] eqn:Hoc; [|done].
  injection Hget as -> <-. destruct v as [|t1]; [done|].
  destruct (np_array_copy_series o oc σ σ1 t1 Hcopy Hoc)
    as (t & b & Ho & Hb & -> & Ht1 & Hσ1).
  set (lo := fresh (dom (objs σ))) in *.
  set (l1 := fresh (dom (bufs σ))) in *.
  apply M_bind_inv in Hrun as (σv & σ1' & Hσv & Hrun).
  injection Hσv as <- <-.
  destruct (view σ1 t1) as [s|] eqn:Hview; [|done].
  apply M_bind_inv in Hrun as (s' & σ1' & Hpure & Hrun).
  unfold lift in Hpure.
  destruct (accept_atmost_missing c (PySeries s) max_missing strict) as [s''|e]
    eqn:Haccept; [|done].
  injection Hpure as -> <-.
  apply M_bind_inv in Hrun as (t2 & σ2 & Hun & Hrun).
  apply M_bind_inv in Hrun as ([] & σ3 & Hset & Hret).
  injection Hret as <- <-.
  set (l2 := fresh (dom (bufs σ1))).
  assert (Hl2 : bufs σ1 !! l2 = None) by apply fresh_buf.
  rewrite Hσ1 in Hl2. simpl in Hl2.
  apply lookup_insert_None in Hl2 as [Hl2 Hne].
  exists t, b, s, s', l2. simpl.
  rewrite <- Ht1, <- Hσ1.
  do 5 (split; [done|]). split; [done|]. split; [done|].
  unfold unshare_mask in Hun. rewrite Ht1 in Hun. simpl in Hun.
  destruct (o_mask t) as [lm|] eqn:Hmask.
  - apply M_bind_inv in Hun as (bm & σa & Hbm & Hun).
    unfold get_buf in Hbm. destruct (bufs σ1 !! lm) as [bm'|] eqn:Hlm; [|done].
    injection Hbm as -> <-.
    apply M_bind_inv in Hun as (l2' & σb & Hl2' & Hun).
    unfold new_buf in Hl2'. injection Hl2' as <- <-.
    apply M_bind_inv in Hun as ([] & σc & Hso & Hun).
    unfold set_obj in Hso. injection Hso as <-. simpl in Hun.
    injection Hun as <- <-.
    unfold setitem_masked, set_buf in Hset. simpl in Hset.
    injection Hset as <-. simpl. fold l2.
    rewrite Hσ1. simpl. by rewrite !insert_insert_eq.
  - unfold set_obj in Hun. simpl in Hun.
    injection Hun as <- <-.
    unfold setitem_masked in Hset. simpl in Hset.
    apply M_bind_inv in Hset as (l2' & σb & Hl2' & Hset).
    unfold new_buf in Hl2'. injection Hl2' as <- <-.
    unfold set_obj in Hset. simpl in Hset. injection Hset as <-. simpl.
    fold l2. rewrite Hσ1. simpl. by rewrite !insert_insert_eq.
Qed.

(** C6: a call of [accept_atmost_missing] that returns leaves every object
    and every buffer of the store as it found them, the argument, its mask
    and whatever else refers to that mask included; the result is a new
    object whose values and whose mask are in new buffers that no other
    object refers to, so that writing them afterwards changes nothing that
    existed before the call. *)
Theorem accept_atmost_missing_owns_mask {V} (c : const) (σ σ' : store V)
    (o o' : positive) (max_missing : Q) (strict : bool) :
  store_wf σ →
  accept_atmost_missing_st c o max_missing strict σ = Ok (o', σ') →
  objs σ !! o' = None
  ∧ (∀ i v, objs σ !! i = Some v → objs σ' !! i = Some v)
  ∧ (∀ l b, bufs σ !! l = Some b → bufs σ' !! l = Some b)
  ∧ (∀ i t, objs σ !! i = Some (VSeries t) → view σ' t = view σ t)
  ∧ ∃ t' ld lm,
      objs σ' !! o' = Some (VSeries t')
      ∧ o_data t' = ld ∧ o_mask t' = Some lm ∧ o_sharedmask t' = false
      ∧ ld ≠ lm
      ∧ bufs σ !! ld = None ∧ bufs σ !! lm = None
      ∧ (∀ i t, i ≠ o' → objs σ' !! i = Some (VSeries t) →
                o_data t ≠ ld ∧ o_data t ≠ lm
                ∧ o_mask t ≠ Some ld ∧ o_mask t ≠ Some lm)
      ∧ (∀ l b l0 b0, l = ld ∨ l = lm → bufs σ !! l0 = Some b0 →
                      <[l := b]> (bufs σ') !! l0 = Some b0).
Proof.
  intros Hwf Hrun.
  destruct (accept_atmost_missing_st_Ok c σ σ' o o' max_missing strict Hrun)
    as (t & b & s & s' & l2 & _ & _ & -> & _ & _ & Hne & Hl2 & Hobjs & Hbufs).
  set (lo := fresh (dom (objs σ))) in *.
  set (l1 := fresh (dom (bufs σ))) in *.
  assert (Hlo : objs σ !! lo = None) by apply fresh_obj.
  assert (Hl1 : bufs σ !! l1 = None) by apply fresh_buf.
  assert (Hkeep : ∀ l b0, bufs σ !! l = Some b0 → bufs σ' !! l = Some b0).
  { intros l b0 Hl. rewrite Hbufs, !lookup_insert_ne; [done| |]; congruence. }
  assert (Hold : ∀ i, i ≠ lo → objs σ' !! i = objs σ !! i).
  { intros i Hi. by rewrite Hobjs, lookup_insert_ne. }
  split; [done|].
  split; [intros i v Hi; rewrite Hold; [done|congruence]|].
  split; [done|].
  split.
  { intros i t0 Hi. destruct (Hwf i t0 Hi) as [[bd Hd] Hm].
    unfold view. rewrite (Hkeep _ _ Hd), Hd.
    destruct (o_mask t0) as [lm|]; [|done].
    destruct (Hm lm eq_refl) as [bm0 Hbm0]. by rewrite (Hkeep _ _ Hbm0), Hbm0. }
  eexists _, l1, l2.
  split; [by rewrite Hobjs, lookup_insert_eq|]. simpl.
  do 3 (split; [done|]). split; [congruence|]. do 2 (split; [done|]).
  split.
  - intros i t0 Hi Hi3. rewrite (Hold i Hi) in Hi3.
    destruct (Hwf i t0 Hi3) as [[bd Hd] Hm].
    repeat split; try congruence.
    + intros Hm1. destruct (Hm l1 Hm1). congruence.
    + intros Hm2. destruct (Hm l2 Hm2). congruence.
  - intros l b' l0 b0 Hl Hl0.
    rewrite lookup_insert_ne; [by apply Hkeep|].
    destruct Hl; congruence.
Qed.

(** *** The series the result denotes *)

Lemma cells_eta {V} (l : list (cell V)) :
  zip_with mkCell (map data l) (map mask l) = l.
Proof. induction l as [|[v b] l IH]; simpl; [done|]. by rewrite IH. Qed.

Lemma cells_of_data {V} (values : list V) (bits : option (list bool)) :
  (∀ bs, bits = Some bs → length bs = length values) →
  map data (cells_of values bits) = values.
Proof.
  intros Hlen. destruct bits as [bs|]; simpl.
  - specialize (Hlen bs eq_refl). revert bs Hlen.
    induction values as [|v values IH]; intros [|b bs] Hlen; simpl in *; try done.
    rewrite IH; [done|lia].
  - rewrite map_map. simpl. apply map_id.
Qed.

Lemma chunks_concat {A} (n : nat) (rs : list (list A)) :
  Forall (fun r => length r = n) rs →
  chunks n (length rs) (concat rs) = rs.
Proof.
  induction 1 as [|r rs Hr _ IH]; simpl; [done|].
  rewrite take_app_length', drop_app_length' by done. by rewrite IH.
Qed.

Lemma chunks_length {A} (n k : nat) (l : list A) : length (chunks n k l) = k.
Proof. revert l. induction k as [|k IH]; intros l; simpl; [done|]. by rewrite IH. Qed.

Lemma chunks_rows {A} (n k : nat) (l : list A) :
  length l = (k * n)%nat →
  Forall (fun r => length r = n) (chunks n k l) ∧ concat (chunks n k l) = l.
Proof.
  revert l. induction k as [|k IH]; intros l Hl; simpl.
  - split; [constructor|]. destruct l; [done|]. simpl in Hl. lia.
  - destruct (IH (drop n l)) as [Hall Hcat].
    { rewrite length_drop. lia. }
    split.
    + constructor; [|done]. rewrite length_take. lia.
    + rewrite Hcat. apply take_drop.
Qed.

(** Dated rows are rebuilt from their dates, their values and their mask
    bits in storage order. *)
Lemma rows_rebuilt {V} (n : nat) (rows : list (Date * list (cell V))) :
  Forall (fun r => length r.2 = n) rows →
  zip (map fst rows)
    (chunks n (length rows)
       (zip_with mkCell (concat (map (fun r => map data r.2) rows))
          (concat (map (fun r => map mask r.2) rows))))
  = rows.
Proof.
  induction 1 as [|[d r] rows Hr _ IH]; simpl; [done|]. simpl in Hr.
  rewrite zip_with_app by (by rewrite !length_map).
  rewrite cells_eta, take_app_length', drop_app_length' by done.
  by rewrite IH.
Qed.

Lemma cells_rebuilt {V} (xs : list (Date * cell V)) :
  zip (map fst xs)
    (zip_with mkCell (map (fun x => data x.2) xs) (map (fun x => mask x.2) xs))
  = xs.
Proof. induction xs as [|[d [v b]] xs IH]; simpl; [done|]. by rewrite IH. Qed.

(** The storage version of [accept_atmost_missing] returns an object that
    denotes the series [accept_atmost_missing] returns for the series its
    argument denotes. *)
Lemma accept_atmost_missing_st_refines {V} (c : const) (σ σ' : store V)
    (o o' : positive) (max_missing : Q) (strict : bool) :
  store_wf σ →
  (∀ t, objs σ !! o = Some (VSeries t) → laid_out σ t) →
  accept_atmost_missing_st c o max_missing strict σ = Ok (o', σ') →
  ∃ t s s' t',
    objs σ !! o = Some (VSeries t)
    ∧ view σ t = Some s
    ∧ accept_atmost_missing c (PySeries s) max_missing strict = Ok s'
    ∧ objs σ' !! o' = Some (VSeries t')
    ∧ view σ' t' = Some s'.
Proof.
  intros Hwf Hlaid Hrun.
  destruct (accept_atmost_missing_st_Ok c σ σ' o o' max_missing strict Hrun)
    as (t & b & s & s' & l2 & Ho & Hb & -> & Hview & Hacc & Hne & Hl2 & Hobjs & Hbufs).
  set (lo := fresh (dom (objs σ))) in *.
  set (l1 := fresh (dom (bufs σ))) in *.
  assert (Hl1 : bufs σ !! l1 = None) by apply fresh_buf.
  destruct (Hlaid t Ho) as (values & Hvalues & Hmask & Hshape).
  rewrite Hvalues in Hb. injection Hb as <-.
  (* the mask bits of the argument *)
  assert (Hbits : ∃ bits,
             (∀ bs, bits = Some bs → length bs = length values)
             ∧ match o_mask t with
               | None => Some None
               | Some lm => match bufs σ !! lm with
                            | Some (MaskBuf bs) => Some (Some bs)
                            | _ => None
                            end
               end = Some bits
             ∧ match o_mask t with
               | None => Some None
               | Some lm => match <[l1 := DataBuf values]> (bufs σ) !! lm with
                            | Some (MaskBuf bs) => Some (Some bs)
                            | _ => None
                            end
               end = Some bits).
  { destruct (o_mask t) as [lm|] eqn:Hm.
    - destruct (Hmask lm eq_refl) as (bs & Hbs & Hlen). exists (Some bs).
      rewrite lookup_insert_ne by congruence. rewrite Hbs.
      split; [by intros ? [= <-]|done].
    - exists None. by split. }
  destruct Hbits as (bits & Hlen & Hm0 & Hm1).
  set (cells := cells_of values bits).
  assert (Hdata : map data cells = values) by (by apply cells_of_data).
  assert (Hcells : length cells = length values).
  { rewrite <- (length_map data cells). by rewrite Hdata. }
  exists t, s, s'. eexists. split; [done|].
  (* the series the argument denotes *)
  unfold view in Hview. simpl in Hview.
  rewrite lookup_insert_eq in Hview. simpl in Hview.
  rewrite Hm1 in Hview. simpl in Hview. fold cells in Hview.
  assert (Hview0 : view σ t = Some s).
  { unfold view. rewrite Hvalues. simpl. rewrite Hm0. simpl. by fold cells. }
  split; [done|]. split; [done|].
  split; [by rewrite Hobjs, lookup_insert_eq|].
  (* the series the result denotes *)
  unfold view. simpl. rewrite Hbufs.
  rewrite (lookup_insert_ne _ l2 l1) by exact Hne.
  rewrite !lookup_insert_eq. simpl.
  destruct (o_shape t) as [|n|nrows ncols|extra n] eqn:Hsh.
  - (* rank 0 *)
    destruct (o_dates t) as [|d [|]]; try done. destruct cells as [|x [|]]; try done.
    simpl in Hview. injection Hview as <-. done.
  - (* rank 1 *)
    simpl in Hview. injection Hview as <-. destruct Hshape as [Hd Hv].
    rewrite accept_atmost_missing_TS1 in Hacc. injection Hacc as <-.
    assert (Hfst : map fst (zip (o_dates t) cells) = o_dates t).
    { apply fst_zip. lia. }
    assert (Hsnd : map snd (zip (o_dates t) cells) = cells).
    { apply snd_zip. lia. }
    assert (Hrebuild : ∀ xs' : list (Date * cell V),
               map fst xs' = o_dates t →
               map (fun x => data x.2) xs' = values →
               zip (o_dates t) (zip_with mkCell values (map (fun x => mask x.2) xs'))
               = xs').
    { intros xs' <- <-. apply cells_rebuilt. }
    assert (Hval : map (fun x : Date * cell V => data x.2) (zip (o_dates t) cells)
                   = values).
    { rewrite <- (map_map snd data), Hsnd. exact Hdata. }
    destruct (exceeds _ _ _); simpl; do 3 f_equal; apply Hrebuild.
    + rewrite map_map. simpl. exact Hfst.
    + rewrite map_map. simpl. exact Hval.
    + exact Hfst.
    + exact Hval.
  - (* rank 2 *)
    simpl in Hview. injection Hview as <-. destruct Hshape as [Hd Hv].
    destruct (chunks_rows ncols nrows cells) as [Hall Hcat]; [lia|].
    set (rows := zip (o_dates t) (chunks ncols nrows cells)) in *.
    assert (Hfst : map fst rows = o_dates t).
    { apply fst_zip. rewrite chunks_length. lia. }
    assert (Hsnd : map snd rows = chunks ncols nrows cells).
    { apply snd_zip. rewrite chunks_length. lia. }
    rewrite accept_atmost_missing_TS2 in Hacc.
    destruct (correction c (o_freq t) (Z.of_nat ncols)) as [corr|e]; [|done].
    rewrite bind_Ok in Hacc. injection Hacc as <-. simpl.
    set (h := fun r : Date * list (cell V) =>
                if exceeds strict (threshold max_missing (Z.of_nat ncols))
                     (raw_missing ncols r - corr r.1)
                then (r.1, mask_row r.2) else r).
    assert (Hh1 : ∀ r, (h r).1 = r.1) by (intros r; unfold h; by destruct (exceeds _ _ _)).
    assert (Hh2 : ∀ r, map data (h r).2 = map data r.2).
    { intros r. unfold h. destruct (exceeds _ _ _); [|done]. simpl.
      unfold mask_row. by rewrite map_map. }
    assert (Hrows : Forall (fun r => length r.2 = ncols) rows).
    { rewrite <- Hsnd in Hall. apply Forall_fmap in Hall. exact Hall. }
    assert (Hrows' : Forall (fun r => length r.2 = ncols) (map h rows)).
    { apply Forall_forall. intros r' (r & -> & Hr)%list_elem_of_fmap.
      rewrite Forall_forall in Hrows. specialize (Hrows r Hr). simpl in Hrows.
      rewrite <- Hrows, <- (length_map data), Hh2. by rewrite length_map. }
    do 3 f_equal.
    assert (Hnrows : length (map h rows) = nrows).
    { rewrite length_map, <- (length_map fst), Hfst. done. }
    assert (Hdates : map fst (map h rows) = o_dates t).
    { rewrite map_map, <- Hfst. apply map_ext. intros r. by rewrite Hh1. }
    assert (Hvals : concat (map (fun r : Date * list (cell V) => map data r.2)
                             (map h rows)) = values).
    { rewrite map_map, <- Hdata, <- Hcat, <- Hsnd.
      rewrite concat_map, map_map.
      f_equal. apply map_ext. intros r. by rewrite Hh2. }
    etrans; [|apply (rows_rebuilt ncols (map h rows) Hrows')].
    by rewrite Hnrows, Hdates, Hvals.
  - (* higher ranks *)
    simpl in Hview. injection Hview as <-. done.
Qed.

Lemma ex_store_wf : store_wf ex_store.
Proof.
  intros o t H. unfold ex_store in H. simpl in H.
  apply lookup_insert_Some in H as [[_ [= <-]]|[_ H]].
  - split; [by eexists|]. intros lm [= <-]. by eexists.
  - apply lookup_singleton_Some in H as [_ [= <-]].
    split; [by eexists|]. intros lm [= <-]. by eexists.
Qed.

Lemma accept_atmost_missing_owns_mask_witness :
  ∃ o' σ',
    accept_atmost_missing_st table 1%positive (1 # 2) false ex_store = Ok (o', σ')
    ∧ objs ex_store !! o' = None
    ∧ (∀ i v, objs ex_store !! i = Some v → objs σ' !! i = Some v)
    ∧ (∀ l b, bufs ex_store !! l = Some b → bufs σ' !! l = Some b).
Proof.
  destruct (accept_atmost_missing_st table 1%positive (1 # 2) false ex_store)
    as [[o' σ']|e] eqn:Hrun; [|vm_compute in Hrun; discriminate].
  exists o', σ'. split; [reflexivity|].
  destruct (accept_atmost_missing_owns_mask table ex_store σ' 1%positive o'
              (1 # 2) false ex_store_wf Hrun) as (H1 & H2 & H3 & _).
  split; [exact H1|]. split; [exact H2|exact H3].
Defined.

(** ** Remarks on the table *)

(** With a table numbered by thousands the tests of [count_missing] on the
    category of a frequency admit more than the category: the weekly code
    passes the monthly test, and the monthly code the quarterly one, where
    it is in none of the three tuples. *)
Remark category_tests_table :
  FR_WK table / FR_MTH table = 1
  ∧ has_correction table (FR_WK table) 31 = true
  ∧ FR_MTH table / FR_QTR table = 1
  ∧ correction table (FR_MTH table) 92 = Raise UnboundLocalError.
Proof. by repeat split. Qed.

(** * Further properties of the code *)

(** ** More on [count_missing] *)

Lemma nonleap_days_in_year (d : Date) : nonleap d = 366 - days_in_year (year d).
Proof. unfold nonleap, days_in_year. by destruct (isleapyear (year d)). Qed.

(** X1: for a rank-2 series of width 366 whose frequency passes the annual
    test, [count_missing] returns for each row the number of masked slots
    less one when the year of the row is not a leap year, that is less the
    slots the year does not fill; when every row holds as many values as
    its year has days, every count is 0. *)
Theorem count_missing_annual {V} (c : const) (s : TimeSeries V)
    (rows : list (Date * list (cell V))) :
  series s = TS2 366 rows →
  freq s / FR_ANN c = 1 →
  well_shaped 366 rows →
  count_missing c (PySeries s)
  = Ok (MArray (map (fun r => masked_count r.2 - (366 - days_in_year (year r.1))) rows))
  ∧ (Forall (fun r => count r.2 = days_in_year (year r.1)) rows →
     count_missing c (PySeries s) = Ok (MArray (map (fun _ => 0) rows))).
Proof.
  intros Hs Hf Hshape.
  assert (Hcm : count_missing c (PySeries s)
                = Ok (MArray (map (fun r => masked_count r.2
                                            - (366 - days_in_year (year r.1))) rows))).
  { rewrite (count_missing_TS2 c s 366 rows Hs). unfold correction.
    rewrite Hf. simpl. do 2 f_equal. apply Forall_fmap_ext_1.
    eapply Forall_impl; [exact Hshape|]. intros r Hr. simpl.
    by rewrite (raw_missing_masked_count 366 r Hr), nonleap_days_in_year. }
  split; [exact Hcm|]. intros Hfull. rewrite Hcm. do 2 f_equal.
  apply Forall_fmap_ext_1. unfold well_shaped in Hshape.
  pose proof (conj Hshape Hfull) as H. rewrite <- Forall_and in H.
  eapply Forall_impl; [exact H|]. intros r [Hr Hc]. simpl in *.
  rewrite masked_count_count, Hr, Hc. lia.
Qed.

Lemma count_missing_annual_witness :
  count_missing table (PySeries (mkTimeSeries (FR_ANN table) (TS2 366 ex_years)))
  = Ok (MArray [-1; 0]).
Proof.
  apply (proj1 (count_missing_annual table
           (mkTimeSeries (FR_ANN table) (TS2 366 ex_years)) ex_years
           eq_refl eq_refl ltac:(repeat constructor))).
Defined.

(** X2: for a series of rank 1 [count_missing] returns one number, the
    number of masked entries, whatever the frequency; it lies between 0 and
    the length of the series. *)
Theorem count_missing_rank1 {V} (c : const) (fq : Z) (xs : list (Date * cell V)) :
  count_missing c (PySeries (mkTimeSeries fq (TS1 xs)))
  = Ok (MScalar (masked_count (map snd xs)))
  ∧ 0 ≤ masked_count (map snd xs) ≤ Z.of_nat (length xs).
Proof.
  split.
  - simpl. by rewrite masked_count_count, length_map.
  - rewrite masked_count_count, length_map.
    pose proof (count_nonneg (map snd xs)).
    pose proof (count_le_length (map snd xs)). rewrite length_map in *. lia.
Qed.

(** X3: for a rank-2 series of width 12 or 7 [count_missing] returns the
    number of masked slots of each row, without any correction, whatever
    the frequency. *)
Theorem count_missing_uncorrected {V} (c : const) (s : TimeSeries V)
    (ncols : nat) (rows : list (Date * list (cell V))) :
  series s = TS2 ncols rows →
  ncols = 12%nat ∨ ncols = 7%nat →
  well_shaped ncols rows →
  count_missing c (PySeries s) = Ok (MArray (map (fun r => masked_count r.2) rows)).
Proof.
  intros Hs Hn Hshape. rewrite (count_missing_TS2 c s ncols rows Hs).
  assert (Hcorr : correction c (freq s) (Z.of_nat ncols) = Ok (fun _ => 0)).
  { unfold correction. by destruct Hn as [-> | ->]. }
  rewrite Hcorr. simpl. do 2 f_equal. apply Forall_fmap_ext_1.
  eapply Forall_impl; [exact Hshape|]. intros r Hr. simpl.
  rewrite (raw_missing_masked_count ncols r Hr). lia.
Qed.

Lemma count_missing_uncorrected_witness :
  count_missing table (PySeries ex_pivot) = Ok (MArray [6; 9]).
Proof.
  apply (count_missing_uncorrected table ex_pivot 12 _ eq_refl (or_introl eq_refl)).
  repeat constructor.
Defined.

(** X4: for a rank-2 series of width 92 whose frequency passes the
    quarterly test and is in none of the three tuples of codes,
    [count_missing] raises [UnboundLocalError]: no branch binds [isfeb]
    before the statement that reads it.  With the codes of the table that is
    the case of the quarters of July. *)
Theorem count_missing_quarterly_unlisted {V} (c : const) (s : TimeSeries V)
    (rows : list (Date * list (cell V))) :
  series s = TS2 92 rows →
  freq s / FR_QTR c = 1 →
  qtr_class c (freq s) = None →
  count_missing c (PySeries s) = Raise UnboundLocalError.
Proof.
  intros Hs Hq Hcls. rewrite (count_missing_TS2 c s 92 rows Hs).
  unfold correction. by rewrite Hq, Hcls.
Qed.

Lemma count_missing_quarterly_unlisted_witness :
  count_missing table
    (PySeries (mkTimeSeries (FR_QTRSJUL table) (TS2 92 ex_quarters)))
  = Raise UnboundLocalError.
Proof.
  apply (count_missing_quarterly_unlisted table
           (mkTimeSeries (FR_QTRSJUL table) (TS2 92 ex_quarters)) ex_quarters);
    reflexivity.
Defined.

Lemma correction_bounds (c : const) (fq period : Z) (corr : Date → Z) (d : Date) :
  correction c fq period = Ok corr → 0 ≤ corr d ≤ 3.
Proof.
  unfold correction, monthly_correction, quarterly_correction, nonleap.
  repeat case_match; intros [= <-]; repeat case_match; simpl in *; lia.
Qed.

(** X5: the counts [count_missing] returns for a rank-2 series whose rows
    have the announced width are one per row, and each is the number of
    masked slots of its row less a correction between 0 and 3; so a count
    is at most the width and never below -3, and it is negative when the
    slots past the end of a period hold data. *)
Theorem count_missing_bounds {V} (c : const) (s : TimeSeries V)
    (ncols : nat) (rows : list (Date * list (cell V))) (ms : list Z) :
  series s = TS2 ncols rows →
  well_shaped ncols rows →
  count_missing c (PySeries s) = Ok (MArray ms) →
  Forall2 (fun r m => masked_count r.2 - 3 ≤ m ≤ masked_count r.2) rows ms
  ∧ Forall (fun m => -3 ≤ m ≤ Z.of_nat ncols) ms.
Proof.
  intros Hs Hshape. rewrite (count_missing_TS2 c s ncols rows Hs).
  destruct (correction c (freq s) (Z.of_nat ncols)) as [corr|e] eqn:Hcorr; [|done].
  simpl. intros [= <-].
  assert (H : Forall2 (fun r m => masked_count r.2 - 3 ≤ m ≤ masked_count r.2)
                rows (map (fun r => raw_missing ncols r - corr r.1) rows)).
  { apply Forall2_fmap_r, Forall_Forall2_diag.
    eapply Forall_impl; [exact Hshape|]. intros r Hr. simpl.
    rewrite (raw_missing_masked_count ncols r Hr).
    pose proof (correction_bounds c _ _ corr r.1 Hcorr). lia. }
  split; [exact H|].
  apply Forall_fmap. eapply Forall_impl; [exact Hshape|]. intros r Hr.
  simpl in Hr |- *.
  rewrite (raw_missing_masked_count ncols r Hr), masked_count_count, Hr.
  pose proof (correction_bounds c _ _ corr r.1 Hcorr).
  pose proof (count_nonneg r.2). pose proof (count_le_length r.2). lia.
Qed.

Lemma count_missing_bounds_witness :
  Forall2 (fun (r : Date * list (cell Z)) m =>
             masked_count r.2 - 3 ≤ m ≤ masked_count r.2) ex_months [0; 0; 0; 0]
  ∧ Forall (fun m => -3 ≤ m ≤ Z.of_nat 31) [0; 0; 0; 0].
Proof.
  apply (count_missing_bounds table
           (mkTimeSeries (FR_MTH table) (TS2 31 ex_months)) 31 ex_months).
  - reflexivity.
  - repeat constructor.
  - reflexivity.
Defined.

(** ** More on [convert_to_annual] *)

Lemma py_index_le (n i : Z) : 0 ≤ n → 0 ≤ py_index n i ≤ n.
Proof. intros Hn. unfold py_index. destruct (Z.ltb_spec i 0); lia. Qed.

Lemma length_mask_slice {V} (l : list (cell V)) (start stop : Z) :
  length (mask_slice l start stop) = length l.
Proof.
  unfold mask_slice.
  pose proof (py_index_le (Z.of_nat (length l)) start ltac:(lia)).
  rewrite !length_app, length_map, !length_take, !length_drop. lia.
Qed.

Lemma shift_row_length {V} (a b : Z) (cells cells' : list (cell V)) :
  shift_row a b cells = Ok cells' → length cells' = length cells.
Proof.
  unfold shift_row, set_slice_from.
  pose proof (py_index_le (Z.of_nat (length cells)) b ltac:(lia)).
  case_decide as Hlen; [|done]. simpl. intros [= <-].
  rewrite length_mask_slice, length_app, length_take, Hlen. lia.
Qed.

(** What [convert_to_annual] does to each row, whatever the rows are. *)
Lemma convert_to_annual_Forall2 {V} (c : const)
    (convert : TimeSeries V → result (TimeSeries V))
    (s aseries : TimeSeries V) (m : Z) (ncols : nat)
    (rows : list (Date * list (cell V))) :
  FR_DAY c ≤ freq s →
  subday_multiplier c (freq s) = Some m →
  convert s = Ok aseries →
  series aseries = TS2 ncols rows →
  ∃ rows',
    convert_to_annual c convert s = Ok (mkTimeSeries (freq aseries) (TS2 ncols rows'))
    ∧ Forall2 (fun r r' =>
                 if isleapyear (year r.1) then r' = r
                 else ∃ cells', shift_row (59 * m) (60 * m) r.2 = Ok cells'
                                ∧ r' = (r.1, cells'))
        rows rows'.
Proof.
  intros Hfreq Hm Hconv Hser.
  pose proof (subday_multiplier_pos c (freq s) m Hm) as Hpos.
  set (f := fun r : Date * list (cell V) =>
              if isleapyear (year r.1) then Ok r
              else cells ← shift_row (59 * m) (60 * m) r.2; Ok (r.1, cells)).
  assert (Hrows : ∃ rows', mapM f rows = Ok rows').
  { apply mapM_total. apply Forall_forall. intros r _. unfold f.
    destruct (isleapyear (year r.1)); [by eexists|].
    destruct (shift_row_total m r.2 Hpos) as [cells' ->]. by eexists. }
  destruct Hrows as [rows' Hrows]. exists rows'. split.
  - unfold convert_to_annual.
    destruct (Z.ltb_spec (freq s) (FR_DAY c)); [lia|].
    rewrite Hconv, bind_Ok, feb_indices_multiplier, Hm. simpl.
    rewrite Hser. fold f. by rewrite Hrows.
  - apply mapM_Ok in Hrows. eapply Forall2_impl; [exact Hrows|].
    intros r r'. unfold f. destruct (isleapyear (year r.1)); [congruence|].
    destruct (shift_row (59 * m) (60 * m) r.2) as [cells'|e]; [|done].
    simpl. intros [= <-]. by exists cells'.
Qed.

(** X6: for a series of daily or finer frequency [convert_to_annual]
    returns whenever [convert] returns a series of rank 2, whatever the
    width of its rows: the two slices of the assignment always have the
    same length.  The result has the frequency, the width and the dates of
    what [convert] returned, every row keeps its length, and the rows of
    leap years are unchanged. *)
Theorem convert_to_annual_shape {V} (c : const)
    (convert : TimeSeries V → result (TimeSeries V))
    (s aseries : TimeSeries V) (m : Z) (ncols : nat)
    (rows : list (Date * list (cell V))) :
  FR_DAY c ≤ freq s →
  subday_multiplier c (freq s) = Some m →
  convert s = Ok aseries →
  series aseries = TS2 ncols rows →
  ∃ rows',
    convert_to_annual c convert s = Ok (mkTimeSeries (freq aseries) (TS2 ncols rows'))
    ∧ Forall2 (fun r r' =>
                 r'.1 = r.1 ∧ length r'.2 = length r.2
                 ∧ (isleapyear (year r.1) = true → r' = r))
        rows rows'.
Proof.
  intros Hfreq Hm Hconv Hser.
  destruct (convert_to_annual_Forall2 c convert s aseries m ncols rows
              Hfreq Hm Hconv Hser) as (rows' & Hret & Hrows).
  exists rows'. split; [exact Hret|].
  eapply Forall2_impl; [exact Hrows|]. intros r r' H.
  cbv beta in H. destruct (isleapyear (year r.1)).
  - by subst r'.
  - destruct H as (cells' & Hshift & ->). simpl.
    split; [done|]. split; [by eapply shift_row_length|done].
Qed.

Lemma convert_to_annual_shape_witness :
  ∃ rows',
    convert_to_annual table ex_convert_hours (mkTimeSeries (FR_HR table) (TS1 []))
    = Ok (mkTimeSeries (FR_ANN table) (TS2 (Z.to_nat 8784) rows'))
    ∧ Forall2 (fun r r' =>
                 r'.1 = r.1 ∧ length r'.2 = length r.2
                 ∧ (isleapyear (year r.1) = true → r' = r))
        ex_hours rows'.
Proof.
  apply (convert_to_annual_shape table ex_convert_hours
           (mkTimeSeries (FR_HR table) (TS1 []))
           (mkTimeSeries (FR_ANN table) (TS2 (Z.to_nat 8784) ex_hours)) 24 (Z.to_nat 8784) ex_hours).
  - simpl. lia.
  - reflexivity.
  - reflexivity.
  - reflexivity.
Defined.

(** X7: for a frequency that is not below the daily code and is none of
    the daily, hourly, minute and second codes, no test binds the two
    indices, and [convert_to_annual] raises [UnboundLocalError] once
    [convert] has returned. *)
Theorem convert_to_annual_unbound {V} (c : const)
    (convert : TimeSeries V → result (TimeSeries V))
    (s aseries : TimeSeries V) :
  FR_DAY c ≤ freq s →
  freq s ∉ [FR_DAY c; FR_HR c; FR_MIN c; FR_SEC c] →
  convert s = Ok aseries →
  convert_to_annual c convert s = Raise UnboundLocalError.
Proof.
  intros Hfreq Hnot Hconv. unfold convert_to_annual.
  destruct (Z.ltb_spec (freq s) (FR_DAY c)); [lia|].
  rewrite Hconv, bind_Ok.
  assert (Hnone : feb_indices c (freq s) = None).
  { rewrite !not_elem_of_cons in Hnot. destruct Hnot as (H1 & H2 & H3 & H4 & _).
    unfold feb_indices.
    by rewrite (proj2 (Z.eqb_neq _ _) H1), (proj2 (Z.eqb_neq _ _) H2),
               (proj2 (Z.eqb_neq _ _) H3), (proj2 (Z.eqb_neq _ _) H4). }
  by rewrite Hnone.
Qed.

Lemma convert_to_annual_unbound_witness :
  convert_to_annual table ex_convert (mkTimeSeries 6500 (TS1 []))
  = Raise UnboundLocalError.
Proof.
  apply (convert_to_annual_unbound table ex_convert (mkTimeSeries 6500 (TS1 []))
           (mkTimeSeries (FR_ANN table) (TS2 366 ex_years))).
  - simpl. lia.
  - simpl. rewrite !not_elem_of_cons. repeat split; try lia. apply not_elem_of_nil.
  - reflexivity.
Defined.

(** X8: for a frequency below the daily code, and whenever [convert]
    raises, [convert_to_annual] is [convert]: it returns what [convert]
    returns and raises what it raises. *)
Theorem convert_to_annual_delegates {V} (c : const)
    (convert : TimeSeries V → result (TimeSeries V)) (s : TimeSeries V) :
  freq s < FR_DAY c ∨ (∃ e, convert s = Raise e) →
  convert_to_annual c convert s = convert s.
Proof.
  intros [Hlt|[e He]]; unfold convert_to_annual.
  - destruct (Z.ltb_spec (freq s) (FR_DAY c)); [done|lia].
  - rewrite He. by destruct (freq s <? FR_DAY c).
Qed.

Lemma convert_to_annual_delegates_witness :
  convert_to_annual table ex_convert (mkTimeSeries (FR_MTH table) (TS1 []))
  = ex_convert (mkTimeSeries (FR_MTH table) (TS1 [])).
Proof.
  apply (convert_to_annual_delegates table ex_convert).
  left. simpl. lia.
Defined.

Lemma count_app {V} (l k : list (cell V)) : count (l ++ k) = count l + count k.
Proof. unfold count. rewrite filter_app, length_app. lia. Qed.

Lemma convert_to_annual_map {V} (c : const)
    (convert : TimeSeries V → result (TimeSeries V))
    (s aseries : TimeSeries V) (m : Z) (rows : list (Date * list (cell V))) :
  FR_DAY c ≤ freq s →
  subday_multiplier c (freq s) = Some m →
  convert s = Ok aseries →
  series aseries = TS2 (Z.to_nat (366 * m)) rows →
  well_shaped (Z.to_nat (366 * m)) rows →
  convert_to_annual c convert s
  = Ok (mkTimeSeries (freq aseries)
          (TS2 (Z.to_nat (366 * m)) (map (annual_row m) rows))).
Proof.
  intros Hfreq Hm Hconv Hser Hshape.
  pose proof (subday_multiplier_pos c (freq s) m Hm) as Hpos.
  destruct (convert_to_annual_Forall2 c convert s aseries m _ rows
              Hfreq Hm Hconv Hser) as (rows' & -> & Hrows).
  do 3 f_equal. unfold well_shaped in Hshape. clear Hser.
  induction Hrows as [|r r' rows rows' Hr _ IH]; [done|].
  apply Forall_cons in Hshape as [Hlen Hshape].
  simpl. f_equal; [|by apply IH].
  unfold annual_row. destruct (isleapyear (year r.1)); [done|].
  destruct Hr as (cells' & Hshift & ->).
  rewrite (shift_row_full m r.2 Hpos Hlen) in Hshift. by injection Hshift as <-.
Qed.

(** X9: [count_missing] after [convert_to_annual], for a daily series
    that [convert] lays out on rows of 366 slots of annual frequency: the
    count of a row is the number of masked slots among the slots the year
    fills before the shift, the first 365 for a year that is not a leap
    year and all 366 for a leap year.  The slot masked for the 29th of
    February is not counted. *)
Theorem count_missing_convert_to_annual {V} (c : const)
    (convert : TimeSeries V → result (TimeSeries V))
    (s aseries : TimeSeries V) (rows : list (Date * list (cell V))) :
  freq s = FR_DAY c →
  convert s = Ok aseries →
  series aseries = TS2 366 rows →
  well_shaped 366 rows →
  freq aseries / FR_ANN c = 1 →
  ∃ out,
    convert_to_annual c convert s = Ok out
    ∧ count_missing c (PySeries out)
      = Ok (MArray (map (fun r => masked_count
                                    (take (Z.to_nat (days_in_year (year r.1))) r.2))
                      rows)).
Proof.
  intros Hday Hconv Hser Hshape Hann.
  assert (Hm : subday_multiplier c (freq s) = Some 1).
  { unfold subday_multiplier. by rewrite Hday, Z.eqb_refl. }
  eexists. split.
  { apply (convert_to_annual_map c convert s aseries 1 rows); try done. lia. }
  change (Z.to_nat (366 * 1)) with 366%nat.
  rewrite (count_missing_TS2 c
             (mkTimeSeries (freq aseries) (TS2 366 (map (annual_row 1) rows)))
             366 (map (annual_row 1) rows) eq_refl).
  unfold correction. simpl freq. rewrite Hann. simpl.
  do 2 f_equal. rewrite map_map. apply Forall_fmap_ext_1.
  eapply Forall_impl; [exact Hshape|]. intros [d cells] Hlen. simpl in Hlen.
  unfold annual_row, nonleap, days_in_year, raw_missing. simpl.
  destruct (isleapyear (year d)) eqn:Hleap; simpl; rewrite Hleap.
  - rewrite take_ge by lia. rewrite masked_count_count, Hlen. lia.
  - rewrite !count_app.
    change (map masked ?l) with (mask_row l). rewrite count_mask_row.
    rewrite masked_count_count, length_take, Hlen.
    change (Z.to_nat 365) with (59 + 306)%nat.
    rewrite <- (take_take_drop cells 59 306), count_app.
    change (Z.to_nat (59 * 1)) with 59%nat.
    change (Z.to_nat (306 * 1)) with 306%nat. lia.
Qed.

Lemma count_missing_convert_to_annual_witness :
  ∃ out,
    convert_to_annual table ex_convert (mkTimeSeries (FR_DAY table) (TS1 [])) = Ok out
    ∧ count_missing table (PySeries out)
      = Ok (MArray (map (fun r => masked_count
                                    (take (Z.to_nat (days_in_year (year r.1))) r.2))
                      ex_years)).
Proof.
  apply (count_missing_convert_to_annual table ex_convert
           (mkTimeSeries (FR_DAY table) (TS1 []))
           (mkTimeSeries (FR_ANN table) (TS2 366 ex_years)) ex_years).
  - reflexivity.
  - reflexivity.
  - reflexivity.
  - repeat constructor.
  - reflexivity.
Defined.

(** X10: for an hourly, minute or second series [convert_to_annual]
    returns rows of 366 days of slots, a width for which [count_missing] has
    no branch: applied to the result it raises [NotImplementedError]. *)
Theorem count_missing_subdaily_annual {V} (c : const)
    (convert : TimeSeries V → result (TimeSeries V))
    (s aseries : TimeSeries V) (m : Z) (rows : list (Date * list (cell V))) :
  FR_DAY c ≤ freq s →
  subday_multiplier c (freq s) = Some m →
  m ≠ 1 →
  convert s = Ok aseries →
  series aseries = TS2 (Z.to_nat (366 * m)) rows →
  ∃ out,
    convert_to_annual c convert s = Ok out
    ∧ count_missing c (PySeries out) = Raise NotImplementedError.
Proof.
  intros Hfreq Hm Hne Hconv Hser.
  destruct (convert_to_annual_Forall2 c convert s aseries m _ rows
              Hfreq Hm Hconv Hser) as (rows' & Hret & _).
  eexists. split; [exact Hret|].
  rewrite (count_missing_TS2 c
             (mkTimeSeries (freq aseries) (TS2 (Z.to_nat (366 * m)) rows'))
             (Z.to_nat (366 * m)) rows' eq_refl).
  assert (Hwidth : Z.of_nat (Z.to_nat (366 * m)) ∈ [8784; 527040; 31622400]).
  { unfold subday_multiplier in Hm.
    repeat case_match; simplify_eq; rewrite Z2Nat.id by lia; set_solver. }
  unfold correction.
  repeat (apply elem_of_cons in Hwidth as [->|Hwidth]; [done|]).
  by apply elem_of_nil in Hwidth.
Qed.

Lemma count_missing_subdaily_annual_witness :
  ∃ out,
    convert_to_annual table ex_convert_hours (mkTimeSeries (FR_HR table) (TS1 []))
    = Ok out
    ∧ count_missing table (PySeries out) = Raise NotImplementedError.
Proof.
  apply (count_missing_subdaily_annual table ex_convert_hours
           (mkTimeSeries (FR_HR table) (TS1 []))
           (mkTimeSeries (FR_ANN table) (TS2 (Z.to_nat 8784) ex_hours)) 24 ex_hours).
  - simpl. lia.
  - reflexivity.
  - lia.
  - reflexivity.
  - reflexivity.
Defined.

(** ** More on [accept_atmost_missing] *)

(** X11: [accept_atmost_missing] raises exactly when [count_missing]
    raises on the same argument, and then the same exception, whatever the
    threshold and the strictness. *)
Theorem accept_atmost_missing_raises {V} (c : const) (x : pyobj V)
    (max_missing : Q) (strict : bool) (e : exn) :
  accept_atmost_missing c x max_missing strict = Raise e
  ↔ count_missing c x = Raise e.
Proof.
  destruct x as [|[fq [d x|xs|ncols rows|extra n]]];
    try (split; intros H; simpl in *; congruence).
  rewrite accept_atmost_missing_TS2.
  rewrite (count_missing_TS2 c (mkTimeSeries fq (TS2 ncols rows)) ncols rows eq_refl).
  simpl. destruct (correction c fq (Z.of_nat ncols)); simpl; split; congruence.
Qed.

Lemma row_kept_refl {V} (r : Date * list (cell V)) : row_kept r r.
Proof.
  split; [done|]. split; [done|]. by apply Forall_Forall2_diag, Forall_forall.
Qed.

Lemma row_kept_mask_row {V} (r : Date * list (cell V)) :
  row_kept r (r.1, mask_row r.2).
Proof.
  split; [done|]. split.
  - simpl. unfold mask_row. rewrite map_map. by apply map_ext.
  - simpl. unfold mask_row. apply Forall2_fmap_r, Forall_Forall2_diag, Forall_forall.
    done.
Qed.

(** X12: a call of [accept_atmost_missing] that returns gives a series of
    the same frequency, rank and trailing width, with the same dates and
    the same stored values; no slot that was masked is unmasked. *)
Theorem accept_atmost_missing_keeps {V} (c : const) (s s' : TimeSeries V)
    (max_missing : Q) (strict : bool) :
  accept_atmost_missing c (PySeries s) max_missing strict = Ok s' →
  freq s' = freq s
  ∧ ndim s' = ndim s
  ∧ last_dim s' = last_dim s
  ∧ Forall2 row_kept (rows_of s) (rows_of s').
Proof.
  destruct s as [fq [d x|xs|ncols rows|extra n]]; try done.
  - rewrite accept_atmost_missing_TS1.
    destruct (exceeds _ _ _); intros [= <-].
    + repeat split; unfold last_dim, rows_of; simpl.
      * by rewrite length_map.
      * rewrite map_map. apply Forall2_fmap, Forall_Forall2_diag, Forall_forall.
        intros x _. apply (row_kept_mask_row (x.1, [x.2])).
    + repeat split. apply Forall_Forall2_diag, Forall_forall.
      intros r _. apply row_kept_refl.
  - rewrite accept_atmost_missing_TS2.
    destruct (correction c fq (Z.of_nat ncols)) as [corr|e]; [|done].
    simpl. intros [= <-]. repeat split. unfold rows_of. simpl.
    apply Forall2_fmap_r, Forall_Forall2_diag, Forall_forall. intros r _.
    unfold compose.
    destruct (exceeds strict _ _); [apply row_kept_mask_row|apply row_kept_refl].
Qed.

Lemma accept_atmost_missing_keeps_witness :
  ∃ s',
    accept_atmost_missing table (PySeries ex_pivot) (1 # 2) true = Ok s'
    ∧ freq s' = freq ex_pivot
    ∧ ndim s' = ndim ex_pivot
    ∧ last_dim s' = last_dim ex_pivot
    ∧ Forall2 row_kept (rows_of ex_pivot) (rows_of s').
Proof.
  eexists. split; [reflexivity|].
  apply (accept_atmost_missing_keeps table ex_pivot _ (1 # 2) true). reflexivity.
Defined.

Lemma threshold_zero (width : Z) : threshold 0 width = 0%Q.
Proof.
  unfold threshold. destruct (Qlt_le_dec 0 1) as [_|H]; [|lra].
  reflexivity.
Qed.

(** X13: with [max_missing] 0 on a rank-2 series of width 12 or 7: without
    [strict] every row is masked, the rows without a missing value too;
    with [strict] the rows without a missing value are kept and all others
    masked.  A masked row has the mask bit of every slot set and its stored
    values kept. *)
Theorem accept_atmost_missing_zero {V} (c : const) (s : TimeSeries V)
    (ncols : nat) (rows : list (Date * list (cell V))) :
  series s = TS2 ncols rows →
  ncols = 12%nat ∨ ncols = 7%nat →
  well_shaped ncols rows →
  accept_atmost_missing c (PySeries s) 0 false
  = Ok (mkTimeSeries (freq s)
          (TS2 ncols
             (map (fun r => (r.1, map (fun x => {| data := data x; mask := true |}) r.2))
                rows)))
  ∧ accept_atmost_missing c (PySeries s) 0 true
    = Ok (mkTimeSeries (freq s)
            (TS2 ncols
               (map (fun r =>
                       if decide (masked_count r.2 = 0) then r
                       else (r.1, map (fun x => {| data := data x; mask := true |}) r.2))
                  rows))).
Proof.
  intros Hs Hn Hshape. destruct s as [fq payload]. simpl in Hs. subst payload.
  assert (Hcorr : correction c fq (Z.of_nat ncols) = Ok (fun _ => 0)).
  { unfold correction. by destruct Hn as [-> | ->]. }
  rewrite !accept_atmost_missing_TS2, Hcorr, !bind_Ok, threshold_zero. simpl.
  split; do 3 f_equal; apply Forall_fmap_ext_1;
    (eapply Forall_impl; [exact Hshape|]); intros r Hr; simpl in Hr |- *;
    rewrite (raw_missing_masked_count ncols r Hr), Z.sub_0_r;
    assert (0 ≤ masked_count r.2) as Hnn by (unfold masked_count; lia).
  - replace (exceeds false 0 (masked_count r.2)) with true; [done|].
    symmetry. apply exceeds_spec. rewrite Zle_Qle in Hnn. exact Hnn.
  - case_decide as Hz.
    + replace (exceeds true 0 (masked_count r.2)) with false; [done|].
      symmetry. apply not_true_iff_false. rewrite exceeds_spec, Hz.
      apply Qlt_irrefl.
    + replace (exceeds true 0 (masked_count r.2)) with true; [done|].
      symmetry. apply exceeds_spec. change 0%Q with (inject_Z 0).
      rewrite <- Zlt_Qlt. lia.
Qed.

Lemma accept_atmost_missing_zero_witness :
  accept_atmost_missing table (PySeries ex_pivot) 0 false
  = Ok (mkTimeSeries (freq ex_pivot)
          (TS2 12 (map (fun r => (r.1, map (fun x => {| data := data x; mask := true |})
                                          r.2))
                     [(mkDate 2001 1 0, row_of 6 6); (mkDate 2001 2 1, row_of 3 9)])))
  ∧ accept_atmost_missing table (PySeries ex_pivot) 0 true
    = Ok (mkTimeSeries (freq ex_pivot)
            (TS2 12 (map (fun r => if decide (masked_count r.2 = 0) then r
                                   else (r.1, map (fun x => {| data := data x; mask := true |})
                                                   r.2))
                       [(mkDate 2001 1 0, row_of 6 6); (mkDate 2001 2 1, row_of 3 9)]))).
Proof.
  apply (accept_atmost_missing_zero table ex_pivot 12
           [(mkDate 2001 1 0, row_of 6 6); (mkDate 2001 2 1, row_of 3 9)]).
  - reflexivity.
  - left. reflexivity.
  - repeat constructor.
Defined.

Lemma exceeds_masked {V} (strict : bool) (thr : Q) (ncols : nat)
    (corr : Date → Z) (r : Date * list (cell V)) :
  (if exceeds strict thr (raw_missing ncols (r.1, mask_row r.2) - corr r.1)
   then (r.1, mask_row (mask_row r.2)) else (r.1, mask_row r.2))
  = (r.1, mask_row r.2).
Proof. rewrite mask_row_idemp. by destruct (exceeds _ _ _). Qed.

(** X14: two calls of [accept_atmost_missing] in a row, with any two
    thresholds and strictnesses, give the same result in either order. *)
Theorem accept_atmost_missing_commutes {V} (c : const) (x : pyobj V)
    (max_missing max_missing' : Q) (strict strict' : bool) :
  (accept_atmost_missing c x max_missing strict
   ≫= fun s' => accept_atmost_missing c (PySeries s') max_missing' strict')
  = (accept_atmost_missing c x max_missing' strict'
     ≫= fun s' => accept_atmost_missing c (PySeries s') max_missing strict).
Proof.
  destruct x as [|[fq [d x|xs|ncols rows|extra n]]]; try done.
  - (* rank 1 *)
    rewrite !accept_atmost_missing_TS1.
    set (n := Z.of_nat (length xs)).
    set (masked_xs := map (fun x : Date * cell V => (x.1, masked x.2)) xs).
    assert (Hlen : Z.of_nat (length masked_xs) = n).
    { unfold masked_xs. by rewrite length_map. }
    assert (Hagain : map (fun x : Date * cell V => (x.1, masked x.2)) masked_xs
                     = masked_xs).
    { unfold masked_xs. rewrite map_map. by apply map_ext. }
    assert (Hmasked : ∀ mm st,
               accept_atmost_missing c (PySeries (mkTimeSeries fq (TS1 masked_xs))) mm st
               = Ok (mkTimeSeries fq (TS1 masked_xs))).
    { intros mm st. rewrite accept_atmost_missing_TS1, Hagain.
      by destruct (exceeds _ _ _). }
    destruct (exceeds strict _ _) eqn:H1; destruct (exceeds strict' _ _) eqn:H2;
      rewrite !bind_Ok, ?Hmasked, ?accept_atmost_missing_TS1; fold n;
      rewrite ?H1, ?H2; done.
  - (* rank 2 *)
    rewrite !accept_atmost_missing_TS2.
    destruct (correction c fq (Z.of_nat ncols)) as [corr|e] eqn:Hcorr; [|done].
    rewrite !bind_Ok, !accept_atmost_missing_TS2, Hcorr, !bind_Ok.
    do 3 f_equal. rewrite !map_map. apply map_ext. intros r.
    destruct (exceeds strict _ (raw_missing ncols r - corr r.1)) eqn:H1;
      destruct (exceeds strict' _ (raw_missing ncols r - corr r.1)) eqn:H2;
      simpl; rewrite ?exceeds_masked, ?H1, ?H2; done.
Qed.

Lemma exceeds_strict (thr : Q) (m : Z) :
  exceeds true thr m = true → exceeds false thr m = true.
Proof. rewrite !exceeds_spec. apply Qlt_le_weak. Qed.

(** X15: a row masked with [strict] is masked without it: applying
    [accept_atmost_missing] with [strict] and then without, at the same
    threshold, gives what the call without [strict] gives alone. *)
Theorem accept_atmost_missing_strict_first {V} (c : const) (x : pyobj V)
    (max_missing : Q) :
  (accept_atmost_missing c x max_missing true
   ≫= fun s' => accept_atmost_missing c (PySeries s') max_missing false)
  = accept_atmost_missing c x max_missing false.
Proof.
  destruct x as [|[fq [d x|xs|ncols rows|extra n]]]; try done.
  - rewrite !accept_atmost_missing_TS1.
    set (n := Z.of_nat (length xs)).
    set (masked_xs := map (fun x : Date * cell V => (x.1, masked x.2)) xs).
    destruct (exceeds true _ _) eqn:H1.
    + rewrite (exceeds_strict _ _ H1), bind_Ok, accept_atmost_missing_TS1.
      assert (Hagain : map (fun x : Date * cell V => (x.1, masked x.2)) masked_xs
                       = masked_xs).
      { unfold masked_xs. rewrite map_map. by apply map_ext. }
      rewrite Hagain. by destruct (exceeds false _ _).
    + rewrite bind_Ok, accept_atmost_missing_TS1. done.
  - rewrite !accept_atmost_missing_TS2.
    destruct (correction c fq (Z.of_nat ncols)) as [corr|e] eqn:Hcorr; [|done].
    rewrite !bind_Ok, !accept_atmost_missing_TS2, Hcorr, !bind_Ok.
    do 3 f_equal. rewrite !map_map. apply map_ext. intros r.
    destruct (exceeds true _ (raw_missing ncols r - corr r.1)) eqn:H1.
    + simpl. by rewrite exceeds_masked, (exceeds_strict _ _ H1).
    + done.
Qed.

(** ** More on [guess_freq] *)

Lemma insert_sorted_shift (k x : Z) (l : list Z) :
  insert_sorted (x + k) (map (fun d => d + k) l)
  = map (fun d => d + k) (insert_sorted x l).
Proof.
  induction l as [|y l IH]; simpl; [done|].
  replace (x + k <=? y + k) with (x <=? y)
    by (destruct (Z.leb_spec x y), (Z.leb_spec (x + k) (y + k)); lia).
  destruct (x <=? y); simpl; [done|]. by rewrite IH.
Qed.

Lemma np_sort_shift (k : Z) (l : list Z) :
  np_sort (map (fun d => d + k) l) = map (fun d => d + k) (np_sort l).
Proof.
  induction l as [|x l IH]; simpl; [done|].
  by rewrite IH, insert_sorted_shift.
Qed.

Lemma np_diff_shift (k : Z) (l : list Z) :
  np_diff (map (fun d => d + k) l) = np_diff l.
Proof.
  induction l as [|x [|y l] IH]; simpl; try done.
  simpl in IH. rewrite IH. f_equal. lia.
Qed.

(** X16: [guess_freq] does not depend on where the dates start: moving
    every date by the same number of seconds leaves the result unchanged. *)
Theorem guess_freq_shift (c : const) (dates : list Z) (k : Z) :
  guess_freq c (map (fun d => d + k) dates) = guess_freq c dates.
Proof. unfold guess_freq. by rewrite np_sort_shift, np_diff_shift. Qed.

Lemma np_sort_Permutation (l l' : list Z) : l ≡ₚ l' → np_sort l = np_sort l'.
Proof.
  intros H. apply (Sorted_unique Z.le); try apply np_sort_sorted.
  by rewrite !np_sort_perm.
Qed.

(** X17: [guess_freq] does not depend on the order in which the dates
    are given. *)
Theorem guess_freq_order (c : const) (dates dates' : list Z) :
  dates ≡ₚ dates' → guess_freq c dates = guess_freq c dates'.
Proof. intros H. unfold guess_freq. by rewrite (np_sort_Permutation _ _ H). Qed.

Lemma guess_freq_order_witness :
  guess_freq table [172800; 0; 86400] = guess_freq table [0; 86400; 172800].
Proof.
  apply (guess_freq_order table [172800; 0; 86400] [0; 86400; 172800]).
  apply (Permutation_cons_append [0; 86400] 172800).
Defined.

(** X18: with fewer than two dates there is no gap to take a minimum of,
    and [guess_freq] raises [ValueError]. *)
Theorem guess_freq_too_few (c : const) (dates : list Z) :
  (length dates ≤ 1)%nat → guess_freq c dates = Raise ValueError.
Proof.
  destruct dates as [|x [|y dates]]; simpl; [done|done|lia].
Qed.

Lemma guess_freq_too_few_witness :
  guess_freq table [86400] = Raise ValueError.
Proof. apply (guess_freq_too_few table [86400]). simpl. lia. Defined.

(** The whole-day branch of [guess_freq], on gaps given in days. *)
Lemma guess_freq_whole_days (c : const) (dates ds : list Z) :
  np_diff (np_sort dates) = map (fun d => 86400 * d) ds →
  ds ≠ [] →
  ∃ mindays,
    In mindays (map (fun d => d mod 365) ds)
    ∧ (∀ i, In i (map (fun d => d mod 365) ds) → mindays ≤ i)
    ∧ guess_freq c dates
      = Ok (if mindays >? 360 then FR_ANN c
            else if mindays >? 88 then
              if forallb (fun i => py_in (i mod 365)
                                     [89; 90; 91; 92; 273; 274; 275; 276; 277])
                   (map (fun d => d mod 365) ds)
              then FR_QTR c
              else FR_MTH c
            else if mindays >? 27 then FR_MTH c
            else if (mindays mod 7 =? 0)
                    && forallb (fun i => i mod 7 =? 0) (map (fun d => d mod 365) ds)
            then FR_WK c
            else FR_DAY c).
Proof.
  intros Hgaps Hne. unfold guess_freq. rewrite Hgaps, !map_map.
  assert (Hsec : existsb (fun i => negb (i =? 0))
                   (map (fun d => seconds (86400 * d)) ds) = false).
  { apply not_true_iff_false. rewrite existsb_exists.
    intros (i & Hi & Hnz). apply in_map_iff in Hi as (d & <- & _).
    unfold seconds in Hnz. rewrite Z.mul_comm, Z.mod_mul in Hnz by lia. done. }
  rewrite Hsec.
  assert (Hdays : map (fun d => days (86400 * d) mod 365) ds
                  = map (fun d => d mod 365) ds).
  { apply map_ext. intros d. unfold days.
    by rewrite Z.mul_comm, Z.div_mul by lia. }
  rewrite Hdays.
  destruct (py_min (map (fun d => d mod 365) ds)) as [mindays|e] eqn:Hmin.
  2:{ by destruct ds. }
  destruct (py_min_spec _ _ Hmin) as [Hin Hall].
  exists mindays. split; [done|]. split; [done|].
  rewrite bind_Ok.
  destruct (py_max (map (fun d => d mod 365) ds)) as [maxdays|e] eqn:Hmax.
  2:{ by destruct ds. }
  by rewrite bind_Ok.
Qed.

Lemma forallb_map_Forall {A} (f : A → Z) (p : Z → bool) (P : A → Prop) (l : list A) :
  (∀ a, P a → p (f a) = true) → Forall P l → forallb p (map f l) = true.
Proof.
  intros Hp. induction 1 as [|a l Ha _ IH]; simpl; [done|].
  by rewrite (Hp a Ha), IH.
Qed.

(** X19: when every gap between consecutive dates is a whole number of
    days, [guess_freq] returns daily when all gaps are of 1 to 6 days,
    weekly when all are of 0, 7, 14 or 21 days (so for dates that are all
    the same), monthly when all are of 28 to 31 days, and quarterly when all
    are of 89 to 92 days. *)
Theorem guess_freq_regular (c : const) (dates ds : list Z) :
  np_diff (np_sort dates) = map (fun d => 86400 * d) ds →
  ds ≠ [] →
  (Forall (fun d => 1 ≤ d ≤ 6) ds → guess_freq c dates = Ok (FR_DAY c))
  ∧ (Forall (fun d => d ∈ [0; 7; 14; 21]) ds → guess_freq c dates = Ok (FR_WK c))
  ∧ (Forall (fun d => 28 ≤ d ≤ 31) ds → guess_freq c dates = Ok (FR_MTH c))
  ∧ (Forall (fun d => 89 ≤ d ≤ 92) ds → guess_freq c dates = Ok (FR_QTR c)).
Proof.
  intros Hgaps Hne.
  destruct (guess_freq_whole_days c dates ds Hgaps Hne) as (mindays & Hin & _ & ->).
  apply in_map_iff in Hin as (d0 & <- & Hd0%list_elem_of_In).
  split; [|split; [|split]]; intros Hall;
    pose proof (proj1 (Forall_forall _ _) Hall d0 Hd0) as H0; simpl in H0.
  - rewrite (Z.mod_small d0 365) by lia.
    destruct (Z.gtb_spec d0 360); [lia|]. destruct (Z.gtb_spec d0 88); [lia|].
    destruct (Z.gtb_spec d0 27); [lia|].
    replace (d0 mod 7 =? 0) with false; [done|].
    symmetry. apply Z.eqb_neq. rewrite Z.mod_small; lia.
  - assert (Hd : 0 ≤ d0 ≤ 21 ∧ d0 mod 7 = 0).
    { repeat (apply elem_of_cons in H0 as [->|H0]; [done|]).
      by apply elem_of_nil in H0. }
    rewrite (Z.mod_small d0 365) by lia.
    destruct (Z.gtb_spec d0 360); [lia|]. destruct (Z.gtb_spec d0 88); [lia|].
    destruct (Z.gtb_spec d0 27); [lia|].
    rewrite (proj2 (Z.eqb_eq _ _) (proj2 Hd)). simpl.
    rewrite (forallb_map_Forall (fun d => d mod 365) (fun i => i mod 7 =? 0)
               (fun d => d ∈ [0; 7; 14; 21])); [done| |done].
    intros a Ha. repeat (apply elem_of_cons in Ha as [->|Ha]; [done|]).
    by apply elem_of_nil in Ha.
  - rewrite (Z.mod_small d0 365) by lia.
    destruct (Z.gtb_spec d0 360); [lia|]. destruct (Z.gtb_spec d0 88); [lia|].
    destruct (Z.gtb_spec d0 27); [done|lia].
  - rewrite (Z.mod_small d0 365) by lia.
    destruct (Z.gtb_spec d0 360); [lia|]. destruct (Z.gtb_spec d0 88); [|lia].
    rewrite (forallb_map_Forall (fun d => d mod 365)
               (fun i => py_in (i mod 365) [89; 90; 91; 92; 273; 274; 275; 276; 277])
               (fun d => 89 ≤ d ≤ 92)); [done| |done].
    intros a Ha. rewrite Z.mod_mod, Z.mod_small by lia.
    assert (a = 89 ∨ a = 90 ∨ a = 91 ∨ a = 92) as [->|[->|[->| ->]]] by lia; done.
Qed.

Lemma guess_freq_regular_witness :
  guess_freq table [0; 2678400; 5097600; 7776000] = Ok (FR_MTH table).
Proof.
  apply (proj1 (proj2 (proj2
           (guess_freq_regular table [0; 2678400; 5097600; 7776000] [31; 28; 31]
              eq_refl ltac:(discriminate))))).
  repeat constructor; lia.
Defined.

(** X20: the gaps are taken modulo 365 days, so dates one year apart are
    not guessed annual: when every gap is of 365 or 366 days [guess_freq]
    returns weekly if all are of 365 days and daily otherwise.  It returns
    annual when every gap is of 361 to 364 days. *)
Theorem guess_freq_years (c : const) (dates ds : list Z) :
  np_diff (np_sort dates) = map (fun d => 86400 * d) ds →
  ds ≠ [] →
  (Forall (fun d => d = 365 ∨ d = 366) ds →
   guess_freq c dates
   = Ok (if forallb (fun d => d =? 365) ds then FR_WK c else FR_DAY c))
  ∧ (Forall (fun d => 361 ≤ d ≤ 364) ds → guess_freq c dates = Ok (FR_ANN c)).
Proof.
  intros Hgaps Hne.
  destruct (guess_freq_whole_days c dates ds Hgaps Hne) as (mindays & Hin & Hmin & ->).
  apply in_map_iff in Hin as (d0 & <- & Hd0%list_elem_of_In).
  split; intros Hall;
    pose proof (proj1 (Forall_forall _ _) Hall d0 Hd0) as H0; simpl in H0.
  - assert (Hd : d0 mod 365 = 0 ∨ d0 mod 365 = 1) by (by destruct H0 as [-> | ->]; [left|right]).
    destruct (Z.gtb_spec (d0 mod 365) 360); [lia|].
    destruct (Z.gtb_spec (d0 mod 365) 88); [lia|].
    destruct (Z.gtb_spec (d0 mod 365) 27); [lia|].
    destruct (forallb (fun d => d =? 365) ds) eqn:Hall365.
    + rewrite forallb_forall in Hall365.
      assert (H365 : Forall (fun d => d = 365) ds).
      { apply Forall_forall. intros d Hd'. apply Z.eqb_eq, Hall365.
        by apply list_elem_of_In. }
      rewrite (proj1 (Forall_forall _ _) H365 d0 Hd0). simpl.
      rewrite (forallb_map_Forall (fun d => d mod 365) (fun i => i mod 7 =? 0)
                 (fun d => d = 365)); [done| |done].
      by intros a ->.
    + replace ((d0 mod 365 mod 7 =? 0)
               && forallb (fun i => i mod 7 =? 0) (map (fun d => d mod 365) ds))
        with false; [done|].
      symmetry. apply not_true_iff_false. intros [_ H7]%andb_true_iff.
      apply not_true_iff_false in Hall365. apply Hall365.
      apply forallb_forall. intros d Hd'.
      rewrite forallb_forall in H7.
      specialize (H7 (d mod 365) (in_map _ _ _ Hd')).
      pose proof (proj1 (Forall_forall _ _) Hall d (proj2 (list_elem_of_In _ _) Hd')) as Hd''.
      simpl in Hd''. destruct Hd'' as [-> | ->]; [done|]. done.
  - rewrite (Z.mod_small d0 365) by lia.
    destruct (Z.gtb_spec d0 360); [done|lia].
Qed.

Lemma guess_freq_years_witness :
  guess_freq table [0; 31536000; 63072000; 94608000] = Ok (FR_WK table)
  ∧ guess_freq table [0; 31536000; 63072000; 94694400] = Ok (FR_DAY table).
Proof.
  split.
  - apply (proj1 (guess_freq_years table [0; 31536000; 63072000; 94608000]
                    [365; 365; 365] eq_refl ltac:(discriminate))).
    repeat constructor.
  - apply (proj1 (guess_freq_years table [0; 31536000; 63072000; 94694400]
                    [365; 365; 366] eq_refl ltac:(discriminate))).
    repeat constructor; (by left) || (by right).
Defined.

(** ** More on [tsfromtxt] *)

Lemma match_here_cons (ch : ascii) (optional : bool) (pat : list (ascii * bool))
    (s : list ascii) :
  match_here ((ch, optional) :: pat) s = true
  ↔ (∃ x s', s = x :: s' ∧ lower x = lower ch ∧ match_here pat s' = true)
    ∨ (optional = true ∧ match_here pat s = true).
Proof.
  simpl. rewrite orb_true_iff, andb_true_iff. split.
  - intros [H|H]; [left|by right].
    destruct s as [|x s']; [done|]. apply andb_true_iff in H as [Hx H].
    exists x, s'. by apply Ascii.eqb_eq in Hx.
  - intros [(x & s' & -> & Hx & H)|H]; [left|by right].
    apply andb_true_iff. by rewrite Hx, Ascii.eqb_refl.
Qed.

Lemma match_here_date (s : list ascii) :
  match_here datespattern s = true
  → ∃ pre post, map lower s = pre ++ ["d"; "a"; "t"; "e"]%char ++ post.
Proof.
  unfold datespattern. intros H.
  assert (Hcore : ∀ t,
             match_here [("d"%char, false); ("a"%char, false); ("t"%char, false);
                         ("e"%char, false); ("s"%char, true); ("'"%char, true)] t = true →
             ∃ post, map lower t = ["d"; "a"; "t"; "e"]%char ++ post).
  { intros t Ht.
    apply match_here_cons in Ht as [(x1 & t1 & -> & H1 & Ht)|[? _]]; [|done].
    apply match_here_cons in Ht as [(x2 & t2 & -> & H2 & Ht)|[? _]]; [|done].
    apply match_here_cons in Ht as [(x3 & t3 & -> & H3 & Ht)|[? _]]; [|done].
    apply match_here_cons in Ht as [(x4 & t4 & -> & H4 & Ht)|[? _]]; [|done].
    exists (map lower t4). simpl. by rewrite H1, H2, H3, H4. }
  apply match_here_cons in H as [(x1 & s1 & -> & _ & H)|[_ H]];
    apply match_here_cons in H as [(x2 & s2 & -> & _ & H)|[_ H]];
    apply Hcore in H as [post Hpost].
  - exists [lower x1; lower x2], post. simpl. by rewrite Hpost.
  - exists [lower x1], post. simpl. by rewrite Hpost.
  - exists [lower x2], post. simpl in *. by rewrite Hpost.
  - by exists [], post.
Qed.

Lemma date_match_here (s : list ascii) (post : list ascii) :
  map lower s = ["d"; "a"; "t"; "e"]%char ++ post →
  match_here datespattern s = true.
Proof.
  destruct s as [|x1 [|x2 [|x3 [|x4 s]]]]; try done.
  simpl. intros [= H1 H2 H3 H4 _]. rewrite H1, H2, H3, H4. simpl.
  by rewrite !orb_true_r.
Qed.

Lemma search_cons (pat : list (ascii * bool)) (x : ascii) (s : list ascii) :
  search pat (x :: s) = match_here pat (x :: s) || search pat s.
Proof. reflexivity. Qed.

(** X21: the pattern that selects the date columns finds a name exactly
    when the name contains the letters [date], in any case: the quotes, the
    underscore and the final [s] of the pattern are all optional. *)
Theorem datespattern_search_date (name : string) :
  datespattern_search name = true ↔ contains_date name.
Proof.
  unfold datespattern_search, contains_date, lower_name.
  generalize (list_ascii_of_string name). intros s. split.
  - induction s as [|x s IH].
    + intros H. by vm_compute in H.
    + rewrite search_cons. intros [H|H]%orb_true_iff; [by apply match_here_date|].
      destruct (IH H) as (pre & post & Hs).
      exists (lower x :: pre), post. simpl. by rewrite Hs.
  - intros (pre & post & Hs). revert s Hs.
    induction pre as [|p pre IH]; intros s Hs.
    + destruct s as [|x s]; [done|]. rewrite search_cons.
      by rewrite (date_match_here (x :: s) post Hs).
    + destruct s as [|x s]; [done|]. rewrite search_cons.
      injection Hs as _ Hs. rewrite (IH s Hs). apply orb_true_r.
Qed.

Lemma py_list_index_Raise (xs : list nat) (x : nat) (e : exn) :
  py_list_index xs x = Raise e → e = ValueError ∧ x ∉ xs.
Proof.
  induction xs as [|y xs IH]; simpl.
  - intros [= <-]. split; [done|]. apply not_elem_of_nil.
  - case_decide as Hxy; [done|].
    destruct (py_list_index xs x) as [i|e'] eqn:Hi; [done|]. simpl.
    intros [= <-]. destruct (IH eq_refl) as [-> Hx]. split; [done|].
    by apply not_elem_of_cons.
Qed.

Lemma py_list_index_notin (xs : list nat) (x : nat) :
  x ∉ xs → py_list_index xs x = Raise ValueError.
Proof.
  induction xs as [|y xs IH]; simpl; [done|].
  intros [Hxy Hx]%not_elem_of_cons. rewrite decide_False by done.
  by rewrite (IH Hx).
Qed.

(** The first exception is the one a loop over a list raises. *)
Lemma mapM_Raise {A B} (f : A → result B) (l : list A) (E : exn) :
  (∀ x e, x ∈ l → f x = Raise e → e = E) →
  Exists (fun x => ∃ e, f x = Raise e) l →
  mapM f l = Raise E.
Proof.
  intros Honly Hex. induction Hex as [x l [e Hx]|x l _ IH]; simpl.
  - rewrite Hx. simpl. f_equal. eapply Honly; [|done]. by left.
  - destruct (f x) as [y|e] eqn:Hx; simpl.
    + rewrite IH; [done|]. intros x' e' Hx'. apply Honly. by right.
    + f_equal. eapply Honly; [|done]. by left.
Qed.

(** X22: when [usecols] is given, the date columns are looked up in it;
    a date column that is not among [usecols] makes [tsfromtxt] raise
    [ValueError], after the parser has returned. *)
Theorem tsfromtxt_usecols {F} (genfromtxt : kwargs → result (mrec_t F))
    (view : view_arg → loaded F → result (loaded F))
    (converters : gmap nat conv_t) (datecols usecols : list nat)
    (dateconv : list F → result Z) (mrec : mrec_t F) (d : nat) :
  genfromtxt (mkKwargs None converters) = Ok mrec →
  d ∈ datecols →
  d ∉ usecols →
  tsfromtxt genfromtxt view None converters (Some datecols) (Some usecols) dateconv
  = Raise ValueError.
Proof.
  intros Hg Hd Hnot. unfold tsfromtxt, tsfromtxt_kwargs.
  rewrite !bind_Ok, Hg, !bind_Ok.
  rewrite (mapM_Raise (py_list_index usecols) datecols ValueError); [done| |].
  - intros x e _ He. by apply py_list_index_Raise in He as [-> _].
  - apply Exists_exists. exists d. split; [done|].
    exists ValueError. by apply py_list_index_notin.
Qed.

Lemma tsfromtxt_usecols_witness :
  tsfromtxt ex_parser ex_view None ∅ (Some [0%nat]) (Some [1%nat; 2%nat]) ex_dateconv
  = Raise ValueError.
Proof.
  apply (tsfromtxt_usecols ex_parser ex_view ∅ [0%nat] [1%nat; 2%nat] ex_dateconv
           (mkMrec (Some ["dates"; "a"]%string) [[3; 30]; [1; 10]; [2; 20]]) 0%nat).
  - reflexivity.
  - by left.
  - rewrite !not_elem_of_cons. repeat split; try lia. apply not_elem_of_nil.
Defined.

Lemma filter_all {A} (P : A → Prop) `{∀ x, Decision (P x)} (l : list A) :
  Forall P l → filter P l = l.
Proof.
  induction 1 as [|x l Hx _ IH]; [done|]. by rewrite filter_cons_True, IH.
Qed.

Lemma length_filter_split {A} (P : A → Prop) `{∀ x, Decision (P x)} (l : list A) :
  (length (filter P l) + length (filter (fun x => ¬ P x) l) = length l)%nat.
Proof.
  induction l as [|x l IH]; [done|]. rewrite !filter_cons.
  destruct (decide (P x)), (decide (¬ P x)); simpl; try done; lia.
Qed.

Lemma py_del_index_Ok (idx : list nat) (i : nat) :
  NoDup idx → i ∈ idx →
  py_del_index idx i = Ok (filter (fun j => j ≠ i) idx).
Proof.
  induction 1 as [|j idx Hj Hnd IH]; intros Hi; [by apply elem_of_nil in Hi|].
  simpl. case_decide as Hij.
  - subst j. rewrite filter_cons_False by (intros H; by apply H).
    rewrite filter_all; [done|]. apply Forall_forall. by intros j Hj' ->.
  - apply elem_of_cons in Hi as [->|Hi]; [done|].
    rewrite (IH Hi), filter_cons_True by (intros ->; done). done.
Qed.

Lemma py_del_index_Raise (idx : list nat) (i : nat) (e : exn) :
  py_del_index idx i = Raise e → e = ValueError ∧ i ∉ idx.
Proof.
  induction idx as [|j idx IH]; simpl.
  - intros [= <-]. split; [done|]. apply not_elem_of_nil.
  - case_decide as Hij; [done|].
    destruct (py_del_index idx i) as [idx'|e'] eqn:Hi; [done|]. simpl.
    intros [= <-]. destruct (IH eq_refl) as [-> Hx]. split; [done|].
    by apply not_elem_of_cons.
Qed.

Lemma py_del_index_in (idx : list nat) (i : nat) (idx' : list nat) :
  py_del_index idx i = Ok idx' → i ∈ idx.
Proof.
  revert idx'. induction idx as [|j idx IH]; intros idx'; simpl; [done|].
  case_decide as Hij; [intros _; subst; by left|].
  destruct (py_del_index idx i) as [idx''|e]; [|done].
  intros _. right. by eapply IH.
Qed.

(** The loop [for i in datecols: del idx[idx.index(i)]]. *)
Lemma foldlM_del_Ok (idx datecols : list nat) :
  NoDup idx → NoDup datecols → datecols ⊆ idx →
  foldlM py_del_index idx datecols = Ok (filter (fun j => j ∉ datecols) idx).
Proof.
  intros Hidx Hnd. revert idx Hidx.
  induction Hnd as [|d datecols Hd Hnd IH]; intros idx Hidx Hsub; simpl.
  - rewrite filter_all; [done|]. apply Forall_forall. intros j _.
    apply not_elem_of_nil.
  - rewrite (py_del_index_Ok idx d Hidx) by (apply Hsub; by left). simpl.
    rewrite IH.
    + f_equal. rewrite list_filter_filter. apply list_filter_iff. intros j.
      rewrite not_elem_of_cons. tauto.
    + by apply NoDup_filter.
    + intros j Hj. apply list_elem_of_filter. split; [by intros ->|].
      apply Hsub. by right.
Qed.

Lemma foldlM_del_inv (idx datecols : list nat) :
  NoDup idx →
  match foldlM py_del_index idx datecols with
  | Ok _ => NoDup datecols ∧ datecols ⊆ idx
  | Raise e => e = ValueError
  end.
Proof.
  revert idx. induction datecols as [|d datecols IH]; intros idx Hidx; simpl.
  - split; [constructor|]. intros j Hj. by apply elem_of_nil in Hj.
  - destruct (py_del_index idx d) as [idx'|e] eqn:Hdel; simpl.
    2:{ by apply py_del_index_Raise in Hdel as [-> _]. }
    pose proof (py_del_index_in idx d idx' Hdel) as Hd.
    rewrite (py_del_index_Ok idx d Hidx Hd) in Hdel. injection Hdel as <-.
    specialize (IH (filter (fun j => j ≠ d) idx) (NoDup_filter _ _ Hidx)).
    destruct (foldlM py_del_index _ datecols); [|done].
    destruct IH as [Hnd Hsub]. split.
    + constructor; [|done]. intros Hin. apply Hsub, list_elem_of_filter in Hin.
      by destruct Hin.
    + intros j [->|Hj]%elem_of_cons; [done|].
      apply Hsub, list_elem_of_filter in Hj. by destruct Hj.
Qed.

Lemma convdict_Raise (ch : ascii) (e : exn) : convdict ch = Raise e → e = KeyError.
Proof. unfold convdict. repeat case_decide; congruence. Qed.

Lemma mapM_zip_convdict (idx : list nat) (fields : list (string * ascii))
    (convs : list conv_t) :
  mapM (fun f : string * ascii => convdict f.2) fields = Ok convs →
  mapM (fun ix : nat * (string * ascii) => conv ← convdict ix.2.2; Ok (ix.1, conv))
    (zip idx fields)
  = Ok (zip idx convs).
Proof.
  revert fields convs. induction idx as [|i idx IH]; intros fields convs H; [done|].
  destruct fields as [|f fields]; simpl in H.
  - by injection H as <-.
  - destruct (convdict f.2) as [conv|e] eqn:Hf; simpl in H; [|done].
    destruct (mapM _ fields) as [convs'|e] eqn:Hfs; simpl in H; [|done].
    injection H as <-. simpl. rewrite Hf. simpl. by rewrite (IH fields convs' Hfs).
Qed.

Lemma datecols_in_range (datecols : list nat) (n : nat) :
  Forall (fun d => (d < n)%nat) datecols → datecols ⊆ seq 0 n.
Proof.
  intros H d Hd. rewrite Forall_forall in H. apply elem_of_seq.
  specialize (H d Hd). lia.
Qed.

Lemma length_filter_notin (datecols : list nat) (n : nat) :
  NoDup datecols →
  Forall (fun d => (d < n)%nat) datecols →
  (length (filter (fun j => j ∉ datecols) (seq 0 n)) + length datecols = n)%nat.
Proof.
  intros Hnd Hlt.
  pose proof (length_filter_split (fun j => j ∈ datecols) (seq 0 n)) as Hsplit.
  rewrite length_seq in Hsplit.
  assert (Hperm : filter (fun j => j ∈ datecols) (seq 0 n) ≡ₚ datecols).
  { apply NoDup_Permutation; [apply NoDup_filter, NoDup_seq|done|].
    intros j. rewrite list_elem_of_filter. split; [by intros [? _]|].
    intros Hj. split; [done|]. by apply (datecols_in_range datecols n). }
  rewrite Hperm in Hsplit. lia.
Qed.

(** X23: with a structured dtype, date columns without repetition and
    below the number of date columns and fields, and fields whose type
    characters are all in [convdict], the parser is called without dtype
    and with the table of converters that maps every date column to [str]
    and the other columns, in order, to the types of the fields; the call
    of [tsfromtxt] is then the call without dtype and with that table,
    followed, when the parsed records have names, by the view of its result
    as the dtype. *)
Theorem tsfromtxt_structured_dtype {F} (genfromtxt : kwargs → result (mrec_t F))
    (view : view_arg → loaded F → result (loaded F))
    (dt : dtype_t) (fields : list (string * ascii)) (converters : gmap nat conv_t)
    (datecols : list nat) (usecols : option (list nat))
    (dateconv : list F → result Z) (convs : list conv_t) :
  dt_fields dt = Some fields →
  fields ≠ [] →
  NoDup datecols →
  Forall (fun d => (d < length datecols + length fields)%nat) datecols →
  mapM (fun f : string * ascii => convdict f.2) fields = Ok convs →
  let table :=
    dict_update converters
      (map (fun c => (c, CStr)) datecols
       ++ zip (filter (fun j => j ∉ datecols)
                 (seq 0 (length datecols + length fields))) convs) in
  tsfromtxt_kwargs (Some dt) converters (Some datecols) = Ok (mkKwargs None table)
  ∧ tsfromtxt genfromtxt view (Some dt) converters (Some datecols) usecols dateconv
    = match genfromtxt (mkKwargs None table) with
      | Ok mrec =>
          out ← tsfromtxt genfromtxt view None table (Some datecols) usecols dateconv;
          match mr_names mrec with
          | Some (_ :: _) => view (ViewDtype dt) out
          | _ => Ok out
          end
      | Raise e => Raise e
      end.
Proof.
  intros Hfields Hne Hnd Hlt Hconvs table.
  assert (Hkw : tsfromtxt_kwargs (Some dt) converters (Some datecols)
                = Ok (mkKwargs None table)).
  { unfold tsfromtxt_kwargs. rewrite Hfields.
    destruct fields as [|f fields]; [done|]. cbv beta iota zeta.
    rewrite (foldlM_del_Ok _ datecols (NoDup_seq _ _) Hnd
               (datecols_in_range _ _ Hlt)), bind_Ok.
    by rewrite (mapM_zip_convdict _ _ _ Hconvs), !bind_Ok. }
  split; [exact Hkw|].
  unfold tsfromtxt. rewrite Hkw. simpl tsfromtxt_kwargs. rewrite !bind_Ok.
  destruct (genfromtxt (mkKwargs None table)) as [mrec|e]; [|done].
  rewrite !bind_Ok.
  rewrite Hfields.
  destruct (match usecols with
            | Some usecols0 => mapM (py_list_index usecols0) datecols
            | None => Ok datecols
            end) as [cols|e]; [|done].
  rewrite !bind_Ok.
  destruct (mapM (column mrec) cols) as [dateinfo|e]; [|done].
  rewrite !bind_Ok.
  destruct (match dateinfo with
            | [col] => mapM (fun x => dateconv [x]) col
            | _ => mapM dateconv (py_zip_star dateinfo)
            end) as [dates|e]; [|done].
  rewrite !bind_Ok.
  destruct (take_idx dates (argsort dates)) as [sdates|e]; [|done].
  rewrite !bind_Ok.
  destruct (take_idx (mr_rows mrec) (argsort dates)) as [srows|e]; [|done].
  rewrite !bind_Ok.
  by destruct (mr_names mrec) as [[|name names]|].
Qed.

Lemma tsfromtxt_structured_dtype_witness :
  tsfromtxt_kwargs (Some ex_dtype_dl) ∅ (Some [0%nat])
  = Ok (mkKwargs None {[ 0%nat := CStr; 1%nat := CFloat; 2%nat := CInt ]})
  ∧ tsfromtxt ex_parser_dab ex_view (Some ex_dtype_dl) ∅ (Some [0%nat]) None
      ex_dateconv
    = Ok (mkLoaded [1; 3] (Some ["a"; "b"]%string) [[10; 100]; [30; 300]]).
Proof.
  destruct (tsfromtxt_structured_dtype ex_parser_dab ex_view ex_dtype_dl
              [("a"%string, "d"%char); ("b"%string, "l"%char)] ∅ [0%nat] None
              ex_dateconv [CFloat; CInt] eq_refl ltac:(discriminate)
              ltac:(repeat constructor; apply not_elem_of_nil)
              ltac:(repeat constructor; simpl; lia) eq_refl) as [Hkw Hcall].
  split.
  - rewrite Hkw. by vm_compute.
  - rewrite Hcall. reflexivity.
Defined.

(** X24: with a structured dtype, date columns that repeat a number or
    hold one that is not below the number of date columns and fields make
    [tsfromtxt] raise [ValueError], before the parser is called. *)
Theorem tsfromtxt_datecols_invalid {F} (genfromtxt : kwargs → result (mrec_t F))
    (view : view_arg → loaded F → result (loaded F))
    (dt : dtype_t) (fields : list (string * ascii)) (converters : gmap nat conv_t)
    (datecols : list nat) (usecols : option (list nat))
    (dateconv : list F → result Z) :
  dt_fields dt = Some fields →
  fields ≠ [] →
  ¬ (NoDup datecols
     ∧ Forall (fun d => (d < length datecols + length fields)%nat) datecols) →
  tsfromtxt genfromtxt view (Some dt) converters (Some datecols) usecols dateconv
  = Raise ValueError.
Proof.
  intros Hfields Hne Hbad. unfold tsfromtxt, tsfromtxt_kwargs. rewrite Hfields.
  destruct fields as [|f fields]; [done|]. cbv beta iota zeta.
  pose proof (foldlM_del_inv (seq 0 (length datecols + length (f :: fields)))
                datecols (NoDup_seq _ _)) as Hinv.
  destruct (foldlM py_del_index _ datecols) as [idx|e]; [|by subst e].
  exfalso. apply Hbad. destruct Hinv as [Hnd Hsub]. split; [done|].
  apply Forall_forall. intros d Hd. apply Hsub, elem_of_seq in Hd. lia.
Qed.

Lemma tsfromtxt_datecols_invalid_witness :
  tsfromtxt ex_parser_dab ex_view (Some ex_dtype) ∅ (Some [0%nat; 0%nat]) None
    ex_dateconv
  = Raise ValueError.
Proof.
  apply (tsfromtxt_datecols_invalid ex_parser_dab ex_view ex_dtype
           [("a"%string, "f"%char); ("b"%string, "i"%char)] ∅ [0%nat; 0%nat] None
           ex_dateconv).
  - reflexivity.
  - discriminate.
  - intros [Hnd _]. apply NoDup_cons in Hnd as [Hnd _]. apply Hnd. by left.
Defined.

(** X25: with a structured dtype and valid date columns, a field whose
    type character is not a key of [convdict] makes [tsfromtxt] raise
    [KeyError], before the parser is called. *)
Theorem tsfromtxt_dtype_char {F} (genfromtxt : kwargs → result (mrec_t F))
    (view : view_arg → loaded F → result (loaded F))
    (dt : dtype_t) (fields : list (string * ascii)) (converters : gmap nat conv_t)
    (datecols : list nat) (usecols : option (list nat))
    (dateconv : list F → result Z) :
  dt_fields dt = Some fields →
  NoDup datecols →
  Forall (fun d => (d < length datecols + length fields)%nat) datecols →
  Exists (fun f => convdict f.2 = Raise KeyError) fields →
  tsfromtxt genfromtxt view (Some dt) converters (Some datecols) usecols dateconv
  = Raise KeyError.
Proof.
  intros Hfields Hnd Hlt Hex. unfold tsfromtxt, tsfromtxt_kwargs. rewrite Hfields.
  destruct fields as [|f fields]; [by inversion Hex|]. cbv beta iota zeta.
  rewrite (foldlM_del_Ok _ datecols (NoDup_seq _ _) Hnd
             (datecols_in_range _ _ Hlt)), bind_Ok.
  pose proof (length_filter_notin datecols _ Hnd Hlt) as Hlen.
  set (idx := filter (fun j => j ∉ datecols)
                (seq 0 (length datecols + length (f :: fields)))) in *.
  rewrite (mapM_Raise _ (zip idx (f :: fields)) KeyError); [done| |].
  - intros [i [name ch]] e _. simpl.
    destruct (convdict ch) as [conv|e'] eqn:Hch; simpl; [done|].
    intros [= <-]. by eapply convdict_Raise.
  - apply Exists_exists in Hex as (g & Hg & Hbad).
    apply list_elem_of_lookup in Hg as [k Hk].
    destruct (lookup_lt_is_Some_2 idx k) as [i Hi].
    { apply lookup_lt_Some in Hk. lia. }
    apply Exists_exists. exists (i, g). split.
    + apply list_elem_of_lookup. exists k. apply lookup_zip_with_Some. eauto.
    + exists KeyError. simpl. by rewrite Hbad.
Qed.

Lemma tsfromtxt_dtype_char_witness :
  tsfromtxt ex_parser_dab ex_view (Some ex_dtype_object) ∅ (Some [0%nat]) None
    ex_dateconv
  = Raise KeyError.
Proof.
  apply (tsfromtxt_dtype_char ex_parser_dab ex_view ex_dtype_object
           [("a"%string, "f"%char); ("b"%string, "O"%char)] ∅ [0%nat] None
           ex_dateconv).
  - reflexivity.
  - repeat constructor. apply not_elem_of_nil.
  - repeat constructor; simpl; lia.
  - apply Exists_cons_tl, Exists_cons_hd. reflexivity.
Defined.

Lemma length_filter_zip {A} (datecols l : list nat) (k : list A) :
  length l = length k →
  length (filter (fun ix : nat * A => ix.1 ∉ datecols) (zip l k))
  = length (filter (fun j => j ∉ datecols) l).
Proof.
  revert k. induction l as [|i l IH]; intros [|x k] Hlen; try done.
  simpl zip. rewrite !filter_cons. simpl in Hlen |- *.
  destruct (decide (i ∉ datecols)); simpl; rewrite IH by lia; done.
Qed.

Lemma length_data_fields {F} (datecols : list nat) (row : list F) :
  NoDup datecols →
  Forall (fun d => (d < length row)%nat) datecols →
  (length (data_fields datecols row) + length datecols = length row)%nat.
Proof.
  intros Hnd Hlt. unfold data_fields.
  rewrite length_map, length_filter_zip by (by rewrite length_seq).
  by apply length_filter_notin.
Qed.

(** X26: a call of [tsfromtxt] without dtype, with date columns given
    without repetition and no [usecols], on lines of [w] fields, returns as
    many rows as dates, and every row has as many fields as its line less
    the number of date columns. *)
Theorem tsfromtxt_row_width {F} (genfromtxt : kwargs → result (mrec_t F))
    (view : view_arg → loaded F → result (loaded F))
    (converters : gmap nat conv_t)
    (datecols : list nat) (dateconv : list F → result Z) (out : loaded F)
    (w : nat) :
  tsfromtxt genfromtxt view None converters (Some datecols) None dateconv = Ok out →
  NoDup datecols →
  (∀ kw mrec, genfromtxt kw = Ok mrec →
              Forall (fun row => length row = w) (mr_rows mrec)) →
  length (out_rows out) = length (out_dates out)
  ∧ Forall (fun fields => (length fields + length datecols = w)%nat) (out_rows out).
Proof.
  unfold tsfromtxt. intros H Hnd Hwidth.
  apply bind_Ok_inv in H as (kw & _ & H).
  apply bind_Ok_inv in H as (mrec & Hg & H).
  rewrite !bind_Ok in H.
  apply bind_Ok_inv in H as (dateinfo & Hinfo & H).
  apply bind_Ok_inv in H as (dates & Hdates & H).
  apply bind_Ok_inv in H as (sdates & Hsd & H).
  apply bind_Ok_inv in H as (srows & Hsr & H).
  assert (Hout : out = mkLoaded sdates (data_fields datecols <$> mr_names mrec)
                         (map (data_fields datecols) srows)).
  { destruct (mr_names mrec) as [[|name names]|]; by injection H as <-. }
  subst out. simpl.
  apply take_idx_Ok in Hsd, Hsr. split.
  { rewrite length_map. rewrite <- (Forall2_length _ _ _ Hsd).
    symmetry. by eapply Forall2_length. }
  specialize (Hwidth kw mrec Hg). rewrite Forall_forall in Hwidth.
  apply Forall_fmap, Forall_forall. intros row Hrow. simpl.
  assert (Hin : row ∈ mr_rows mrec).
  { apply list_elem_of_lookup in Hrow as [k Hk].
    destruct (Forall2_lookup_r _ _ _ _ _ Hsr Hk) as (i & _ & Hi).
    by eapply list_elem_of_lookup_2. }
  rewrite <- (Hwidth row Hin). apply length_data_fields; [done|].
  apply Forall_forall. intros d Hd.
  apply list_elem_of_lookup in Hd as [j Hj].
  apply mapM_Ok in Hinfo.
  destruct (Forall2_lookup_l _ _ _ _ _ Hinfo Hj) as (col & _ & Hcol).
  apply column_Ok in Hcol.
  apply list_elem_of_lookup in Hin as [k Hk].
  destruct (Forall2_lookup_l _ _ _ _ _ Hcol Hk) as (x & _ & Hx).
  by eapply lookup_lt_Some.
Qed.

Lemma tsfromtxt_row_width_witness :
  length [[10; 100]; [30; 300]] = length [1; 3]
  ∧ Forall (fun fields : list Z => (length fields + length [0%nat] = 3)%nat)
      [[10; 100]; [30; 300]].
Proof.
  apply (tsfromtxt_row_width ex_parser_dab ex_view ∅ [0%nat] ex_dateconv
           (mkLoaded [1; 3] (Some ["a"; "b"]%string) [[10; 100]; [30; 300]]) 3).
  - reflexivity.
  - repeat constructor. apply not_elem_of_nil.
  - intros kw mrec [= <-]. repeat constructor.
Defined.

(** ** The plot directive *)

Lemma py_split_nonempty (s : string) : py_split s ≠ [].
Proof.
  destruct s as [|ch s]; simpl; [done|].
  destruct (Ascii.eqb ch newline); [done|]. by destruct (py_split s).
Qed.

Lemma py_join_split (s : string) : py_join (py_split s) = s.
Proof.
  induction s as [|ch s IH]; [done|]. simpl py_split.
  destruct (Ascii.eqb_spec ch newline) as [->|Hne].
  - pose proof (py_split_nonempty s).
    destruct (py_split s) as [|line lines] eqn:Hs; [done|].
    change (py_join (EmptyString :: line :: lines))
      with (String newline (py_join (line :: lines))).
    by rewrite IH.
  - destruct (py_split s) as [|line lines] eqn:Hs; [by destruct (py_split_nonempty s)|].
    rewrite <- IH. by destruct lines.
Qed.

(** A line of a text has no newline: it splits into itself. *)
Lemma py_split_lines (s line : string) :
  line ∈ py_split s → py_split line = [line].
Proof.
  revert line. induction s as [|ch s IH]; intros line; simpl py_split.
  - by intros ->%list_elem_of_singleton.
  - destruct (Ascii.eqb_spec ch newline) as [->|Hne].
    + intros [->|H]%elem_of_cons; [done|]. by apply IH.
    + destruct (py_split s) as [|line0 lines] eqn:Hs;
        [by destruct (py_split_nonempty s)|].
      intros [->|H]%elem_of_cons.
      * simpl. rewrite (proj2 (Ascii.eqb_neq _ _) Hne).
        rewrite (IH line0); [done|]. by left.
      * apply IH. by right.
Qed.

Lemma py_split_app (line s : string) :
  py_split line = [line] →
  py_split (line ++ String newline s) = line :: py_split s.
Proof.
  induction line as [|ch line IH]; simpl.
  - intros _. by rewrite ?Ascii.eqb_refl.
  - destruct (Ascii.eqb_spec ch newline) as [->|Hne].
    + by intros [=].
    + destruct (py_split line) as [|line0 lines] eqn:Hs;
        [by destruct (py_split_nonempty line)|].
      intros [= -> ->]. by rewrite IH.
Qed.

Lemma py_split_join (lines : list string) :
  lines ≠ [] →
  Forall (fun line => py_split line = [line]) lines →
  py_split (py_join lines) = lines.
Proof.
  intros Hne Hall. induction Hall as [|line lines Hline Hall IH]; [done|].
  destruct lines as [|line' lines]; [done|].
  change (py_join (line :: line' :: lines))
    with (line ++ String newline (py_join (line' :: lines)))%string.
  rewrite (py_split_app _ _ Hline), IH; done.
Qed.

(** X27: the lines of the script [makefig] runs are the lines of the
    original other than [plt.show()], in order (a single empty line when
    none is left); none of them is [plt.show()], and an original without
    such a line is written unchanged. *)
Theorem run_script_lines (orig_script : string) :
  py_split (run_script orig_script)
  = match filter (fun x => x ≠ "plt.show()"%string) (py_split orig_script) with
    | [] => [EmptyString]
    | lines => lines
    end
  ∧ ("plt.show()"%string ∉ py_split (run_script orig_script))
  ∧ ("plt.show()"%string ∉ py_split orig_script →
     run_script orig_script = orig_script).
Proof.
  assert (Hlines : py_split (run_script orig_script)
            = match filter (fun x => x ≠ "plt.show()"%string) (py_split orig_script) with
              | [] => [EmptyString]
              | lines => lines
              end).
  { unfold run_script.
    destruct (filter _ (py_split orig_script)) as [|line lines] eqn:Hf; [done|].
    apply py_split_join; [done|]. rewrite <- Hf.
    apply Forall_forall. intros x [_ Hx]%list_elem_of_filter.
    by eapply py_split_lines. }
  split; [exact Hlines|]. split.
  - rewrite Hlines.
    destruct (filter _ (py_split orig_script)) as [|line lines] eqn:Hf.
    + by intros ?%list_elem_of_singleton.
    + rewrite <- Hf. intros [H _]%list_elem_of_filter. by apply H.
  - intros Hnot. unfold run_script. rewrite filter_all; [apply py_join_split|].
    apply Forall_forall. by intros x Hx ->.
Qed.

Lemma run_script_lines_witness :
  py_split (run_script ex_script) = ["import pylab"; "pylab.plot()"]%string
  ∧ py_split (run_script "pylab.plot()"%string) = ["pylab.plot()"%string].
Proof.
  split.
  - apply (proj1 (run_script_lines ex_script)).
  - apply (proj1 (run_script_lines "pylab.plot()"%string)).
Defined.

Lemma iter_chdir_up (n : nat) (cwd : list string) :
  Nat.iter n chdir_up cwd = take (length cwd - n) cwd.
Proof.
  revert cwd. induction n as [|n IH]; intros cwd.
  - simpl. rewrite take_ge; [done|lia].
  - rewrite Nat.iter_succ_r, IH. unfold chdir_up.
    destruct (decide (cwd = [])) as [->|Hne]; [done|].
    destruct (exists_last Hne) as (l & x & ->).
    rewrite removelast_last, length_app. simpl.
    rewrite take_app_le by lia. f_equal. lia.
Qed.

Lemma py_name_index_app (pre post : list string) (x : string) :
  x ∉ pre → py_name_index (pre ++ x :: post) x = Ok (length pre).
Proof.
  induction pre as [|y pre IH]; simpl.
  - intros _. by rewrite decide_True.
  - intros [Hxy Hx]%not_elem_of_cons. rewrite decide_False by done.
    by rewrite (IH Hx).
Qed.

Lemma py_name_index_notin (xs : list string) (x : string) :
  x ∉ xs → py_name_index xs x = Raise ValueError.
Proof.
  induction xs as [|y xs IH]; simpl; [done|].
  intros [Hxy Hx]%not_elem_of_cons. rewrite decide_False by done.
  by rewrite (IH Hx).
Qed.

(** X28: [run] climbs from the working directory to the outermost
    directory named [doc] on its path, and raises [ValueError] when no
    directory on the path has that name. *)
Theorem run_chdir_doc (cwd : list string) :
  (∀ pre post, cwd = pre ++ "doc"%string :: post → "doc"%string ∉ pre →
               run_chdir cwd = Ok (pre ++ ["doc"%string]))
  ∧ ("doc"%string ∉ cwd → run_chdir cwd = Raise ValueError).
Proof.
  split.
  - intros pre post -> Hpre. unfold run_chdir, path_parts.
    assert (Hparts : match pre ++ "doc"%string :: post with
                     | [] => [EmptyString; EmptyString]
                     | _ => EmptyString :: (pre ++ "doc"%string :: post)
                     end = (EmptyString :: pre) ++ "doc"%string :: post).
    { by destruct pre. }
    rewrite Hparts, py_name_index_app, bind_Ok.
    2:{ apply not_elem_of_cons. split; [done|exact Hpre]. }
    rewrite iter_chdir_up. f_equal.
    replace (pre ++ "doc"%string :: post) with ((pre ++ ["doc"%string]) ++ post)
      by (by rewrite <- app_assoc).
    rewrite take_app_le by (rewrite !length_app; simpl; lia).
    apply take_ge. rewrite !length_app. simpl. lia.
  - intros Hnot. unfold run_chdir, path_parts.
    rewrite py_name_index_notin; [done|].
    destruct cwd as [|d cwd].
    + rewrite !not_elem_of_cons. repeat split; try done; apply not_elem_of_nil.
    + apply not_elem_of_cons. by split.
Qed.

Lemma run_chdir_doc_witness :
  run_chdir ["home"; "doc"; "source"; "doc"]%string = Ok ["home"; "doc"]%string.
Proof.
  apply (proj1 (run_chdir_doc ["home"; "doc"; "source"; "doc"]%string)
           ["home"%string] ["source"; "doc"]%string eq_refl).
  rewrite not_elem_of_cons. split; [done|apply not_elem_of_nil].
Defined.

(** ** More on [isleapyear] *)

Lemma isleapyear_period (year : Z) : isleapyear (year + 400) = isleapyear year.
Proof.
  unfold isleapyear.
  replace ((year + 400) mod 400) with (year mod 400)
    by (by rewrite <- (Z_mod_plus_full year 1 400)).
  replace ((year + 400) mod 4) with (year mod 4)
    by (by rewrite <- (Z_mod_plus_full year 100 4)).
  replace ((year + 400) mod 100) with (year mod 100)
    by (by rewrite <- (Z_mod_plus_full year 4 100)).
  done.
Qed.

(** X29: [isleapyear] has period 400, and any 400 consecutive years hold
    97 leap years. *)
Theorem isleapyear_400 (year : Z) :
  isleapyear (year + 400) = isleapyear year
  ∧ length (filter (fun y => isleapyear y = true) (seqZ year 400)) = 97%nat.
Proof.
  split; [apply isleapyear_period|].
  revert year. apply Z.bi_induction.
  - solve_proper.
  - vm_compute. reflexivity.
  - intros year.
    assert (Hstep : length (filter (fun y => isleapyear y = true) (seqZ (Z.succ year) 400))
                    = length (filter (fun y => isleapyear y = true) (seqZ year 400))).
    { rewrite (seqZ_cons year 400) by lia.
      change (Z.pred 400) with 399.
      change 400 with (Z.of_nat (S 399)) at 1.
      rewrite seqZ_S. change (Z.of_nat 399) with 399.
      rewrite filter_app, filter_cons, length_app.
      rewrite (filter_cons _ year).
      replace (Z.succ year + 399) with (year + 400) by lia.
      rewrite isleapyear_period.
      destruct (decide (isleapyear year = true)); simpl; lia. }
    rewrite Hstep. done.
Qed.
